(** * CAD-to-Cloud: boundary densification, bounded cloud reading,
      grid-indexed Z assignment and merged cloud output.

    A shallow embedding of the Python package [cad_boundary_to_cc]
    ([densify.py], [cloud_las.py], [z_assign.py], [cad.py],
    [pipeline.py]).

    Numbers.  Python floats are embedded as exact rationals [Q]: every
    arithmetic step of the source is carried out without rounding.  Python
    integers are [Z]; numpy's fixed-width integers are [Z] with their
    wrap-around written out.  Numpy arrays are lists, indexed by [nat].

    Exceptions.  A function that may raise returns a [result]. *)

From Stdlib Require Import String ZArith QArith Qround Qabs Bool List Lia Lqa
  Sorted Permutation.
From Stdlib.Strings Require Import Byte.
Import ListNotations.

Local Open Scope Q_scope.

(** ** Exceptions and results *)

(** Axis-aligned box [(minx, miny, maxx, maxy)]. *)
Definition bbox := (Q * Q * Q * Q)%type.

(** The exceptions the embedded code raises.  Every [raise] of the package
    is a [ValueError]; the one whose message is built from the two bounding
    boxes keeps them as its payload.  [OverflowError] is raised by numpy's
    conversion of a Python integer that does not fit the target width, and
    by laspy when a coordinate does not fit the 32 bits it is stored in.
    laspy's [LaspyException] is raised for a point format that the version
    of the file does not have, and its [ValueError] for a dimension that the
    point format does not have; their messages are built from the two. *)
Inductive exn : Type :=
| ValueError (msg : string)
| ValueError_cloud_not_aligned (boundary_bbox las_bbox : bbox)
| OverflowError (msg : string)
| LaspyException_not_compatible (point_format_id : Z) (version : Z * Z)
| ValueError_unsupported_dimension (point_format_id : Z) (key : string).

Inductive result (A : Type) : Type :=
| Ok (a : A)
| Err (e : exn).
Arguments Ok {A} a.
Arguments Err {A} e.

Definition bind {A B : Type} (r : result A) (f : A -> result B) : result B :=
  match r with
  | Ok a => f a
  | Err e => Err e
  end.

Notation "x <- c ;; k" := (bind c (fun x => k))
  (at level 61, c at next level, right associativity).

(** ** Squares and planar distance over [Q] *)

Definition sq (a : Q) : Q := a * a.

(** * densify.py *)

Module Densify.

(** A vertex [(x, y, z)] whose elevation may be [None]. *)
Definition vertex := (Q * Q * option Q)%type.

Definition vx (v : vertex) : Q := fst (fst v).
Definition vy (v : vertex) : Q := snd (fst v).
Definition vz (v : vertex) : option Q := snd v.

Definition origin : vertex := (0, 0, None).

(** The literal [1e-9] of the dedup pass. *)
Definition eps : Q := 1 # 1000000000.

(** [seg_len = math.hypot(dx, dy)] is the real square root of
    [dx*dx + dy*dy].  The code uses it twice: in the test [seg_len == 0]
    and in [ceil(seg_len / step_m)].  Both are functions of the square. *)
Definition hypot_sq (dx dy : Q) : Q := sq dx + sq dy.

(** [int(math.ceil(seg_len / step_m))] for [step_m > 0]: the least integer
    [n >= 0] with [seg_len <= n * step_m], that is with
    [hypot_sq dx dy / step_m^2 <= n^2]; as [n^2] is an integer this is the
    upper integer square root of the ceiling of the quotient. *)
Definition ceil_hypot_div (dx dy step_m : Q) : Z :=
  Z.sqrt_up (Qceiling (hypot_sq dx dy / sq step_m)).

(** [n = max(1, int(math.ceil(seg_len / step_m)))] *)
Definition seg_count (dx dy step_m : Q) : nat :=
  Z.to_nat (Z.max 1 (ceil_hypot_div dx dy step_m)).

(** The point appended at iteration [j] of the inner loop. *)
Definition interp (v0 v1 : vertex) (n j : nat) : vertex :=
  let '(x0, y0, z0) := v0 in
  let '(x1, y1, z1) := v1 in
  let dx := x1 - x0 in
  let dy := y1 - y0 in
  let t := inject_Z (Z.of_nat j) / inject_Z (Z.of_nat n) in
  let zt := match z0, z1 with
            | Some a, Some b => Some (a + (b - a) * t)
            | _, _ => None
            end in
  (x0 + dx * t, y0 + dy * t, zt).

(** One iteration of the outer loop: the body run on [vertices[i]] and
    [vertices[i + 1]], extending [out]. *)
Definition segment_step (step_m : Q) (v0 v1 : vertex) (out : list vertex)
  : list vertex :=
  let dx := vx v1 - vx v0 in
  let dy := vy v1 - vy v0 in
  if Qeq_bool (hypot_sq dx dy) 0 then out
  else
    let n := seg_count dx dy step_m in
    fold_left (fun out j => out ++ [interp v0 v1 n j]) (seq 0 n) out.

(** [out] after the outer loop and [out.append(vertices[-1])]. *)
Definition emitted (vertices : list vertex) (step_m : Q) : list vertex :=
  let out :=
    fold_left
      (fun out i =>
         segment_step step_m (nth i vertices origin) (nth (S i) vertices origin) out)
      (seq 0 (length vertices - 1)) [] in
  out ++ [last vertices origin].

(** The test of the dedup loop on the last kept point and the next one. *)
Definition far (p xy : vertex) : bool :=
  negb (Qle_bool (Qabs (vx p - vx xy)) eps)
  || negb (Qle_bool (Qabs (vy p - vy xy)) eps).

Definition dedup_step (dedup : list vertex) (xy : vertex) : list vertex :=
  match dedup with
  | [] => dedup ++ [xy]
  | _ => if far (last dedup origin) xy then dedup ++ [xy] else dedup
  end.

Definition dedup_pass (out : list vertex) : list vertex :=
  fold_left dedup_step out [].

Definition densify_polyline (vertices : list vertex) (step_m : Q)
  : result (list vertex) :=
  if (length vertices <? 2)%nat then Ok vertices
  else if Qle_bool step_m 0 then Err (ValueError "step_m must be > 0")
  else Ok (dedup_pass (emitted vertices step_m)).

End Densify.

(** * Array operations of numpy used by several modules *)

Module Np.

(** [np.any]. *)
Definition np_any (m : list bool) : bool := existsb (fun b => b) m.

(** [a[m]] for a boolean array [m] of the length of [a]. *)
Fixpoint select {A : Type} (a : list A) (m : list bool) : list A :=
  match a, m with
  | v :: a', b :: m' => if b then v :: select a' m' else select a' m'
  | _, _ => []
  end.

(** [a[idx]] for an index array within range. *)
Definition take {A : Type} (d : A) (a : list A) (idx : list nat) : list A :=
  map (fun i => nth i a d) idx.

(** [np.column_stack([x, y, z])] *)
Definition column_stack {A : Type} (cx cy cz : list A) : list (A * A * A) :=
  combine (combine cx cy) cz.

End Np.

(** * The cloud container as the package sees it through laspy *)

Module Las.

(** [hdr.point_format]: its numeric id and the names of its dimensions. *)
Record PointFormat : Type := {
  pf_id : Z;
  dimension_names : list string
}.

(** The header fields the package reads.  [version] is (major, minor);
    [scales] and [offsets] are those of the three coordinates, which a LAS
    file stores as 32-bit integers [X] with [x = X * scale + offset]. *)
Record LasHeader : Type := {
  mins : Q * Q * Q;
  maxs : Q * Q * Q;
  point_count : Z;
  point_format : PointFormat;
  version : Z * Z;
  scales : Q * Q * Q;
  offsets : Q * Q * Q
}.

(** One point record, its coordinates as laspy hands them out: scaled.  The
    colour fields exist only when the point format has the dimensions
    [red], [green], [blue]; the code reads them only then. *)
Record LasPoint : Type := {
  x : Q;
  y : Q;
  z : Q;
  red : Z;
  green : Z;
  blue : Z
}.

Record LasFile : Type := {
  header : LasHeader;
  points : list LasPoint
}.

(** [lf.chunk_iterator(n)]: the points in file order, cut into arrays of
    [n] points, the last one shorter.  [cur] holds the chunk being filled. *)
Fixpoint chunks_from (n : Z) (cur : list LasPoint) (pts : list LasPoint)
  : list (list LasPoint) :=
  match pts with
  | [] => match cur with [] => [] | _ => [cur] end
  | p :: rest =>
      let cur' := cur ++ [p] in
      if (Z.of_nat (length cur') =? n)%Z then cur' :: chunks_from n [] rest
      else chunks_from n cur' rest
  end.

Definition chunk_iterator (lf : LasFile) (n : Z) : list (list LasPoint) :=
  chunks_from n [] (points lf).

End Las.

(** * cloud_las.py *)

Module CloudLas.
Import Las Np.

(** [(x >= minx) & (x <= maxx) & (y >= miny) & (y <= maxy)] on one point. *)
Definition mask (b : bbox) (p : LasPoint) : bool :=
  let '(minx, miny, maxx, maxy) := b in
  Qle_bool minx (x p) && Qle_bool (x p) maxx
  && Qle_bool miny (y p) && Qle_bool (y p) maxy.

(** [(hdr.mins[0], hdr.mins[1], hdr.maxs[0], hdr.maxs[1])] *)
Definition las_bbox_of (lf : LasFile) : bbox :=
  let hdr := header lf in
  (fst (fst (mins hdr)), snd (fst (mins hdr)),
   fst (fst (maxs hdr)), snd (fst (maxs hdr))).

(** The three lists of arrays the loop appends to. *)
Record columns : Type := {
  xs : list (list Q);
  ys : list (list Q);
  zs : list (list Q)
}.

(** [sum(a.size for a in xs)] *)
Definition total_size (arrays : list (list Q)) : Z :=
  fold_left (fun acc a => (acc + Z.of_nat (length a))%Z) arrays 0%Z.

(** The chunk loop; leaving the recursion early is the [break]. *)
Fixpoint read_loop (b : bbox) (max_points : option Z)
  (chunks : list (list LasPoint)) (st : columns) : columns :=
  match chunks with
  | [] => st
  | pts :: rest =>
      let m := map (mask b) pts in
      if negb (np_any m) then read_loop b max_points rest st
      else
        let st' := {| xs := xs st ++ [select (map x pts) m];
                      ys := ys st ++ [select (map y pts) m];
                      zs := zs st ++ [select (map z pts) m] |} in
        match max_points with
        | Some cap =>
            let cur := total_size (xs st') in
            if (cur >=? cap)%Z then st' else read_loop b max_points rest st'
        | None => read_loop b max_points rest st'
        end
  end.

(** [np.random.default_rng(seed)]: the state a generator starts from.  With
    no seed numpy draws it from the operating system, here [os_entropy]. *)
Definition default_rng (seed : option Z) (os_entropy : Z) : Z :=
  match seed with
  | Some s => s
  | None => os_entropy
  end.

Section Reader.

(** [Generator.choice(n, size=k, replace=False)] of a generator in a given
    state: numpy's sampling routine, taken as a parameter. *)
Variable choice : Z -> nat -> nat -> list nat.

(** [rng.choice(n, size=size, replace=False)] with the argument checks
    numpy makes before sampling. *)
Definition rng_choice (state : Z) (n : nat) (size : Z) : result (list nat) :=
  if (size <? 0)%Z then Err (ValueError "negative dimensions are not allowed")
  else if (Z.of_nat n <? size)%Z then
    Err (ValueError "Cannot take a larger sample than population when replace is False")
  else Ok (choice state n (Z.to_nat size)).

(** [read_las_points_in_bbox] reading chunks of [chunk] points. *)
Definition read_las_points_in_bbox_chunked (chunk : Z) (os_entropy : Z)
  (lf : LasFile) (b : bbox) (max_points : option Z)
  : result (list (Q * Q * Q)) :=
  let las_bbox := las_bbox_of lf in
  let st := read_loop b max_points (chunk_iterator lf chunk)
              {| xs := []; ys := []; zs := [] |} in
  match xs st with
  | [] => Err (ValueError_cloud_not_aligned b las_bbox)
  | _ =>
      let pts := column_stack (concat (xs st)) (concat (ys st)) (concat (zs st)) in
      match max_points with
      | Some cap =>
          if (Z.of_nat (length pts) >? cap)%Z then
            idx <- rng_choice (default_rng (Some 0%Z) os_entropy) (length pts) cap ;;
            Ok (take (0, 0, 0) pts idx)
          else Ok pts
      | None => Ok pts
      end
  end.

(** The function of the source: chunks of 2_000_000 points. *)
Definition read_las_points_in_bbox :=
  read_las_points_in_bbox_chunked 2000000.

End Reader.

End CloudLas.

(** * z_assign.py *)

Module ZAssign.
Import Np.

Local Open Scope Z_scope.

(** ** Fixed-width integers *)

Definition in_int32 (v : Z) : bool := (- 2 ^ 31 <=? v) && (v <? 2 ^ 31).
Definition in_int64 (v : Z) : bool := (- 2 ^ 63 <=? v) && (v <? 2 ^ 63).

(** Two's complement wrap-around to 32 and to 64 bits. *)
Definition wrap32 (v : Z) : Z := (v + 2 ^ 31) mod 2 ^ 32 - 2 ^ 31.
Definition wrap64 (v : Z) : Z := (v + 2 ^ 63) mod 2 ^ 64 - 2 ^ 63.

(** [np.int64(v)] on a Python integer. *)
Definition np_int64 (v : Z) : result Z :=
  if in_int64 v then Ok v
  else Err (OverflowError "Python int too large to convert to C long").

(** [(a << 32) ^ (b & 0xFFFFFFFF)] on 64-bit integers. *)
Definition pack_key (a b : Z) : Z :=
  Z.lxor (wrap64 (Z.shiftl a 32)) (Z.land b 4294967295).

(** [np.floor(v / cell)] and [math.floor(v / cell)] as an integer. *)
Definition floor_div (v cell : Q) : Z := Qfloor (v / cell).

(** ** Sorting *)

Section Sorting.
Context {A : Type} (leb : A -> A -> bool).

Fixpoint insert_sorted (v : A) (l : list A) : list A :=
  match l with
  | [] => [v]
  | w :: t => if leb v w then v :: w :: t else w :: insert_sorted v t
  end.

(** A stable sort; numpy's sorts return one of the sorted arrangements. *)
Definition isort (l : list A) : list A := fold_right insert_sorted [] l.

End Sorting.

(** [np.argsort(a)]: positions listed by increasing value. *)
Definition argsort {A : Type} (leb : A -> A -> bool) (a : list A) : list nat :=
  map snd (isort (fun p q => leb (fst p) (fst q)) (combine a (seq 0 (length a)))).

(** [np.unique(a, return_index=True, return_counts=True)] on a sorted
    array: each distinct value with the position of its first occurrence
    and the length of its run.  [pos] is the position of the head of [a]. *)
Fixpoint unique_from (pos : nat) (a : list Z) : list (Z * nat * nat) :=
  match a with
  | [] => []
  | v :: t =>
      match unique_from (S pos) t with
      | (u, s, c) :: r =>
          if v =? u then (u, pos, S c) :: r else (v, pos, 1%nat) :: (u, s, c) :: r
      | [] => [(v, pos, 1%nat)]
      end
  end.

(** [np.searchsorted(a, v)] on a sorted array: the number of entries
    strictly below [v]. *)
Fixpoint searchsorted (a : list Z) (v : Z) : nat :=
  match a with
  | [] => 0%nat
  | w :: t => if w <? v then S (searchsorted t v) else 0%nat
  end.

(** [a[s : s + c]] *)
Definition slice {A : Type} (a : list A) (s c : nat) : list A :=
  firstn c (skipn s a).

(** ** The grid index *)

(** What the function keeps of the index it builds. *)
Record GridIndex : Type := {
  order : list nat;
  uniq : list Z;
  start_idx : list nat;
  counts : list nat
}.

Section Grid.

(** [np.floor(...).astype(np.int32)] keeps a value that fits 32 bits.  For
    one that does not the conversion is not defined by numpy; its result is
    some 32-bit integer that depends on the platform: [out_of_range_int32]
    stands for it. *)
Variable out_of_range_int32 : Z -> Z.

Definition astype_int32 (v : Z) : Z :=
  if in_int32 v then v else wrap32 (out_of_range_int32 v).

(** [keys] of one cloud point. *)
Definition cloud_key (cell : Q) (p : Q * Q) : Z :=
  let ix := astype_int32 (floor_div (fst p) cell) in
  let iy := astype_int32 (floor_div (snd p) cell) in
  pack_key ix iy.

Definition build_index (cloud_xy : list (Q * Q)) (cell : Q) : GridIndex :=
  let keys := map (cloud_key cell) cloud_xy in
  let order := argsort Z.leb keys in
  let keys_sorted := take 0 keys order in
  let runs := unique_from 0 keys_sorted in
  {| order := order;
     uniq := map (fun r => fst (fst r)) runs;
     start_idx := map (fun r => snd (fst r)) runs;
     counts := map snd runs |}.

(** The local function [_cell_indices]. *)
Definition _cell_indices (g : GridIndex) (kkey : Z) : list nat :=
  let pos := searchsorted (uniq g) kkey in
  if (length (uniq g) <=? pos)%nat || negb (nth pos (uniq g) 0 =? kkey) then []
  else
    let s := nth pos (start_idx g) 0%nat in
    let c := nth pos (counts g) 0%nat in
    slice (order g) s c.

(** The nine offsets in the order the two nested loops visit them. *)
Definition cell_offsets : list (Z * Z) :=
  flat_map (fun dx_cell => map (fun dy_cell => (dx_cell, dy_cell)) [-1; 0; 1])
           [-1; 0; 1].

(** One pass of the inner loop body, extending [cand]. *)
Definition gather_step (g : GridIndex) (cx cy : Z)
  (cand : result (list (list nat))) (d : Z * Z) : result (list (list nat)) :=
  cand <- cand ;;
  a <- np_int64 (cx + fst d) ;;
  b <- np_int64 (cy + snd d) ;;
  let ids := _cell_indices g (pack_key a b) in
  match ids with
  | [] => Ok cand
  | _ => Ok (cand ++ [ids])
  end.

Definition gather (g : GridIndex) (cx cy : Z) : result (list (list nat)) :=
  fold_left (gather_step g cx cy) cell_offsets (Ok []).

(** [d2] of the candidates [ids_all] for the sample [(sx, sy)]. *)
Definition dist2 (cloud_xy : list (Q * Q)) (sx sy : Q) (i : nat) : Q :=
  let p := nth i cloud_xy (0%Q, 0%Q) in
  let ddx := (fst p - sx)%Q in
  let ddy := (snd p - sy)%Q in
  (ddx * ddx + ddy * ddy)%Q.

(** [np.argpartition(a, kth)]: an arrangement of the positions in which the
    entry at [kth] is in its sorted place, no larger entry before it and no
    smaller one after it.  Which of these arrangements numpy returns, and so
    which of several equidistant candidates it puts first, is left to its
    selection routine: the function is taken as a parameter. *)
Variable argpartition : list Q -> Z -> list nat.

(** [np.quantile(z, q)], method "linear": the entries of the sorted array
    around the virtual index [(n - 1) * q], interpolated. *)
Definition np_quantile (z : list Q) (q : Q) : Q :=
  let a := isort Qle_bool z in
  let n := Z.of_nat (length a) in
  let virtual_index := (inject_Z (n - 1) * q)%Q in
  let previous := Qfloor virtual_index in
  let gamma := (virtual_index - inject_Z previous)%Q in
  let clip i := Z.to_nat (Z.max 0 (Z.min i (n - 1))) in
  let lo := nth (clip previous) a 0%Q in
  let hi := nth (clip (previous + 1)) a 0%Q in
  (lo + (hi - lo) * gamma)%Q.

(** The indices with [d2 <= r2] among the cells around the sample:
    [ids_in] as computed at lines 104 to 128, empty when the code takes one
    of its two fallback branches. *)
Definition grid_neighbors (cloud_xy : list (Q * Q)) (g : GridIndex)
  (r : Q) (sx sy : Q) : result (list nat) :=
  let r2 := (r * r)%Q in
  let cell := r in
  let cx := floor_div sx cell in
  let cy := floor_div sy cell in
  cand <- gather g cx cy ;;
  match cand with
  | [] => Ok []
  | _ =>
      let ids_all := concat cand in
      let d2 := map (dist2 cloud_xy sx sy) ids_all in
      let m := map (fun d => Qle_bool d r2) d2 in
      Ok (select ids_all m)
  end.

(** The body of the loop over the samples: the value stored in [out[i]]. *)
Definition sample_z (cloud_xy : list (Q * Q)) (cloud_z : list Q) (g : GridIndex)
  (r : Q) (k_eff_max : Z) (quantile fallback_z offset : Q) (s : Q * Q)
  : result Q :=
  let r2 := (r * r)%Q in
  let cell := r in
  let sx := fst s in
  let sy := snd s in
  let cx := floor_div sx cell in
  let cy := floor_div sy cell in
  cand <- gather g cx cy ;;
  match cand with
  | [] => Ok (fallback_z + offset)%Q
  | _ =>
      let ids_all := concat cand in
      let d2 := map (dist2 cloud_xy sx sy) ids_all in
      let m := map (fun d => Qle_bool d r2) d2 in
      if negb (np_any m) then Ok (fallback_z + offset)%Q
      else
        let ids_in := select ids_all m in
        let d2_in := select d2 m in
        let ids_in :=
          if Z.of_nat (length ids_in) >? k_eff_max then
            let sel := firstn (Z.to_nat k_eff_max)
                              (argpartition d2_in (k_eff_max - 1)) in
            take 0%nat ids_in sel
          else ids_in in
        let z := take 0%Q cloud_z ids_in in
        Ok (np_quantile z quantile + offset)%Q
  end.

(** The loop over the samples; the first exception ends it. *)
Fixpoint samples_loop (f : Q * Q -> result Q) (samples_xy : list (Q * Q))
  : result (list Q) :=
  match samples_xy with
  | [] => Ok []
  | s :: rest =>
      v <- f s ;;
      vs <- samples_loop f rest ;;
      Ok (v :: vs)
  end.

Definition _surface_z_from_neighbors_grid (cloud_xyz : list (Q * Q * Q))
  (samples_xy : list (Q * Q)) (radius_m : Q) (k : Z)
  (quantile fallback_z offset : Q) : result (list Q) :=
  let cloud_xy := map fst cloud_xyz in
  let cloud_z := map snd cloud_xyz in
  if (length cloud_xy <=? 0)%nat then Err (ValueError "cloud_xyz is empty")
  else
    let r := radius_m in
    let g := build_index cloud_xy r in
    let k_eff_max := Z.max 1 k in
    samples_loop (sample_z cloud_xy cloud_z g r k_eff_max quantile fallback_z offset)
                 samples_xy.

Definition surface_z_from_neighbors (cloud_xyz : list (Q * Q * Q))
  (samples_xy : list (Q * Q)) (radius_m : Q) (k : Z)
  (quantile fallback_z offset : Q) : result (list Q) :=
  if Qle_bool radius_m 0 then Err (ValueError "radius_m must be > 0")
  else if k <=? 0 then Err (ValueError "k must be > 0")
  else if negb (Qle_bool 0 quantile && Qle_bool quantile 1) then
    Err (ValueError "quantile must be within [0, 1]")
  else
    _surface_z_from_neighbors_grid cloud_xyz samples_xy radius_m k
                                   quantile fallback_z offset.

End Grid.

End ZAssign.

(** * pipeline.py *)

Module Pipeline.
Import Las Np.

Local Open Scope Z_scope.

(** A row of [cad_rgbs_u8], an [Nx3] array of unsigned bytes. *)
Definition rgb_u8 := (byte * byte * byte)%type.

(** A row of a [uint16] colour array. *)
Definition rgb_u16 := (Z * Z * Z)%type.

(** [("red" in names) and ("green" in names) and ("blue" in names)] *)
Definition has_rgb (pf : PointFormat) : bool :=
  let names := dimension_names pf in
  existsb (String.eqb "red") names
  && existsb (String.eqb "green") names
  && existsb (String.eqb "blue") names.

(** One entry of [cad_rgbs_u8.astype(np.uint16) * 257], a [uint16]
    product. *)
Definition widen (c : byte) : Z := (Z.of_N (Byte.to_N c) * 257) mod 2 ^ 16.

Definition widen_row (c : rgb_u8) : rgb_u16 :=
  let '(r, g, b) := c in (widen r, widen g, widen b).

(** [a[start : start + len(rows), :] = rows] *)
Definition assign_rows {A : Type} (a : list A) (start : nat) (rows : list A)
  : list A :=
  firstn start a ++ rows ++ skipn (start + length rows) a.

(** [np.round]: the nearest integer, of two equally near the even one. *)
Definition np_round (q : Q) : Z :=
  let f := Qfloor q in
  match (q - inject_Z f ?= 1 # 2)%Q with
  | Lt => f
  | Gt => f + 1
  | Eq => if Z.even f then f else f + 1
  end.

(** laspy's [ScaledArrayView._remove_scale] and [_apply_scale]: from a
    coordinate to the integer stored for it, and back. *)
Definition _remove_scale (scale offset value : Q) : Z :=
  np_round ((value - offset) / scale)%Q.

Definition _apply_scale (scale offset : Q) (X : Z) : Q :=
  (inject_Z X * scale + offset)%Q.

(** [np.max] and [np.min] of an array whose first entry is [v]. *)
Definition np_max (v : Q) (rest : list Q) : Q :=
  fold_left (fun m a => if Qle_bool a m then m else a) rest v.

Definition np_min (v : Q) (rest : list Q) : Q :=
  fold_left (fun m a => if Qle_bool m a then m else a) rest v.

(** The dimensions [red], [green], [blue] are those of the point formats
    2, 3, 5, 7, 8 and 10. *)
Definition rgb_format (point_format_id : Z) : bool :=
  existsb (Z.eqb point_format_id) [2; 3; 5; 7; 8; 10].

(** What is handed to the writer: the header of the output and the point
    record, its coordinates as the 32-bit integers stored. *)
Record LasData : Type := {
  out_point_format_id : Z;
  out_version : Z * Z;
  out_scales : Q * Q * Q;
  out_offsets : Q * Q * Q;
  out_X : list Z;
  out_Y : list Z;
  out_Z : list Z;
  out_rgb : list rgb_u16
}.

(** [out.x], [out.y], [out.z] as read back from the record. *)
Definition out_xyz (out : LasData) : list (Q * Q * Q) :=
  let '(sx, sy, sz) := out_scales out in
  let '(ox, oy, oz) := out_offsets out in
  column_stack (map (_apply_scale sx ox) (out_X out))
               (map (_apply_scale sy oy) (out_Y out))
               (map (_apply_scale sz oz) (out_Z out)).

(** The two lists of arrays the reading loop appends to. *)
Record base_chunks : Type := {
  chunks_xyz : list (list (Q * Q * Q));
  chunks_rgb : list (list rgb_u16)
}.

Definition read_chunk (hdr : LasHeader) (st : base_chunks) (pts : list LasPoint)
  : base_chunks :=
  let cx := map x pts in
  let cy := map y pts in
  let cz := map z pts in
  let st1 := {| chunks_xyz := chunks_xyz st ++ [column_stack cx cy cz];
                chunks_rgb := chunks_rgb st |} in
  if has_rgb (point_format hdr) then
    {| chunks_xyz := chunks_xyz st1;
       chunks_rgb := chunks_rgb st1
                     ++ [column_stack (map red pts) (map green pts) (map blue pts)] |}
  else st1.

(** The block "Fill RGB" (lines 110 to 117): the colour array of the merged
    cloud. *)
Definition fill_rgb (pf_has_rgb : bool) (base_rgb16 : option (list rgb_u16))
  (n_base n_cad : nat) (cad_rgbs_u8 : list rgb_u8) : list rgb_u16 :=
  let rgb16 := repeat (0, 0, 0) (n_base + n_cad) in
  let rgb16 :=
    match base_rgb16 with
    | Some base =>
        if pf_has_rgb && (length base =? n_base)%nat
        then assign_rows rgb16 0 base else rgb16
    | None => rgb16
    end in
  assign_rows rgb16 n_base (map widen_row cad_rgbs_u8).

Section Writer.

(** laspy's table of the point formats each LAS version has, as its
    [is_point_fmt_compatible_with_version] reads it; the table is taken as a
    parameter. *)
Variable is_point_fmt_compatible_with_version : Z -> Z * Z -> bool.

(** The conversion to [int32] of a value that does not fit, as in
    [z_assign.py]. *)
Variable out_of_range_int32 : Z -> Z.

(** [out.x = value] and the like, laspy's [ScaledArrayView.__setitem__]:
    the largest and the smallest value are tried against the 32 bits, then
    every value is stored rounded.  [np.max] raises on an empty array. *)
Definition scaled_setitem (scale offset : Q) (value : list Q)
  : result (list Z) :=
  match value with
  | [] =>
      Err (ValueError
             "zero-size array to reduction operation maximum which has no identity")
  | v :: rest =>
      let new_max := _remove_scale scale offset (np_max v rest) in
      let new_min := _remove_scale scale offset (np_min v rest) in
      if new_max >? 2147483647 then
        Err (OverflowError
               "Values given do not fit after applying offset and scale (overflow)")
      else if new_min <? -2147483648 then
        Err (OverflowError
               "Values given do not fit after applying offset and scale (underflow)")
      else
        Ok (map (fun a => ZAssign.astype_int32 out_of_range_int32
                            (_remove_scale scale offset a)) value)
  end.

(** [out.red = ...], [out.green = ...], [out.blue = ...]: laspy refuses a
    dimension the point format of the output does not have. *)
Definition set_rgb (out_pf_id : Z) (rgb16 : list rgb_u16)
  : result (list rgb_u16) :=
  if rgb_format out_pf_id then Ok rgb16
  else Err (ValueError_unsupported_dimension out_pf_id "red").

(** [_write_combined_las_with_cad_points] up to the call of the writer,
    reading chunks of [chunk] points.  The two arguments are [Nx3] arrays by
    their types, which leaves the third of the shape checks. *)
Definition _write_combined_las_with_cad_points_chunked (chunk : Z)
  (lf : LasFile) (cad_pts_xyz : list (Q * Q * Q)) (cad_rgbs_u8 : list rgb_u8)
  : result LasData :=
  if negb (length cad_rgbs_u8 =? length cad_pts_xyz)%nat then
    Err (ValueError "cad_rgbs_u8 length must match cad_pts_xyz")
  else
    let hdr := header lf in
    let st := fold_left (read_chunk hdr) (chunk_iterator lf chunk)
                {| chunks_xyz := []; chunks_rgb := [] |} in
    let base_xyz := concat (chunks_xyz st) in
    let base_rgb16 := match chunks_rgb st with
                      | [] => None
                      | _ => Some (concat (chunks_rgb st))
                      end in
    let pf := point_format hdr in
    let out_pf_id := if has_rgb pf then pf_id pf
                     else if pf_id pf <=? 5 then 2 else 7 in
    if negb (is_point_fmt_compatible_with_version out_pf_id (version hdr)) then
      Err (LaspyException_not_compatible out_pf_id (version hdr))
    else
      let '(sx, sy, sz) := scales hdr in
      let '(ox, oy, oz) := offsets hdr in
      let all_xyz := base_xyz ++ cad_pts_xyz in
      X <- scaled_setitem sx ox (map (fun p => fst (fst p)) all_xyz) ;;
      Y <- scaled_setitem sy oy (map (fun p => snd (fst p)) all_xyz) ;;
      Z <- scaled_setitem sz oz (map snd all_xyz) ;;
      let n_base := length base_xyz in
      let n_cad := length cad_pts_xyz in
      rgb16 <- set_rgb out_pf_id
                 (fill_rgb (has_rgb pf) base_rgb16 n_base n_cad cad_rgbs_u8) ;;
      Ok {| out_point_format_id := out_pf_id;
            out_version := version hdr;
            out_scales := scales hdr;
            out_offsets := offsets hdr;
            out_X := X; out_Y := Y; out_Z := Z;
            out_rgb := rgb16 |}.

(** The function of the source: chunks of 2_000_000 points. *)
Definition _write_combined_las_with_cad_points :=
  _write_combined_las_with_cad_points_chunked 2000000.

End Writer.

End Pipeline.

(** * Notions used to state the properties of the bounded reader *)

Module CloudLasSpec.
Import Las CloudLas.

(** The number of points of the file inside the box. *)
Definition total_in_bbox (lf : LasFile) (b : bbox) : nat :=
  length (filter (mask b) (points lf)).

(** A sampler for worked examples: the first [k] indices. *)
Definition first_indices (state : Z) (n k : nat) : list nat := seq 0 k.

(** A cloud of four points inside [0, 10] x [0, 10], without colour. *)
Definition small_cloud : LasFile :=
  {| header := {| mins := (0, 0, 1); maxs := (10 # 1, 10 # 1, 100 # 1);
                  point_count := 4;
                  point_format := {| pf_id := 1;
                                     dimension_names := ["X"; "Y"; "Z"; "intensity"]%string |};
                  version := (1, 2)%Z;
                  scales := (1 # 100, 1 # 100, 1 # 100);
                  offsets := (0, 0, 0) |};
     points := [ {| x := 0; y := 0; z := 1; red := 0; green := 0; blue := 0 |};
                 {| x := 5 # 1; y := 0; z := 2 # 1; red := 0; green := 0; blue := 0 |};
                 {| x := 10 # 1; y := 0; z := 3 # 1; red := 0; green := 0; blue := 0 |};
                 {| x := 5 # 1; y := 10 # 1; z := 100 # 1; red := 0; green := 0; blue := 0 |} ] |}.

(** A box around the three points of [small_cloud] with [y = 0], and one
    away from the cloud. *)
Definition strip_box : bbox := (0, 0, 10 # 1, 1).
Definition far_box : bbox := (1000 # 1, 1000 # 1, 1001 # 1, 1001 # 1).

(** The loop state holds the columns of the chunks [K] retained so far. *)
Definition holds (st : columns) (K : list (list LasPoint)) : Prop :=
  xs st = map (map x) K /\ ys st = map (map y) K /\ zs st = map (map z) K.

End CloudLasSpec.

(** * Notions used to state the properties of the merged output *)

Module PipelineSpec.
Import Las Pipeline.

(** Three boundary points and the colour red for each, as a worked
    example. *)
Definition three_cad_points : list (Q * Q * Q) :=
  [(0, 0, 1); (5 # 1, 0, 1); (10 # 1, 0, 1)]%Q.
Definition three_reds : list rgb_u8 :=
  [(xff, x00, x00); (xff, x00, x00); (xff, x00, x00)].

(** The colour read back from a point of the source. *)
Definition source_rgb (p : LasPoint) : rgb_u16 := (red p, green p, blue p).

Definition source_xyz (p : LasPoint) : Q * Q * Q := (x p, y p, z p).

(** The point format of the output, lines 88 to 91. *)
Definition output_format (pf : PointFormat) : Z :=
  if has_rgb pf then pf_id pf else if (pf_id pf <=? 5)%Z then 2%Z else 7%Z.

(** The integer stored for a coordinate along an axis, and the coordinate
    read back: the nearest one on the grid of the header. *)
Definition stored (scale offset v : Q) : Z := _remove_scale scale offset v.

Definition read_back (scale offset v : Q) : Q :=
  _apply_scale scale offset (stored scale offset v).

Definition quantise (hdr : LasHeader) (p : Q * Q * Q) : Q * Q * Q :=
  let '(sx, sy, sz) := scales hdr in
  let '(ox, oy, oz) := offsets hdr in
  (read_back sx ox (fst (fst p)), read_back sy oy (snd (fst p)),
   read_back sz oz (snd p)).

Definition positive_scales (hdr : LasHeader) : Prop :=
  let '(sx, sy, sz) := scales hdr in 0 < sx /\ 0 < sy /\ 0 < sz.

(** The three integers stored for the point fit 32 bits. *)
Definition fits (hdr : LasHeader) (p : Q * Q * Q) : Prop :=
  let '(sx, sy, sz) := scales hdr in
  let '(ox, oy, oz) := offsets hdr in
  ZAssign.in_int32 (stored sx ox (fst (fst p))) = true /\
  ZAssign.in_int32 (stored sy oy (snd (fst p))) = true /\
  ZAssign.in_int32 (stored sz oz (snd p)) = true.

(** The point is one a LAS file with this header holds: 32-bit integers,
    scaled. *)
Definition on_grid (hdr : LasHeader) (p : Q * Q * Q) : Prop :=
  let '(sx, sy, sz) := scales hdr in
  let '(ox, oy, oz) := offsets hdr in
  exists X Y Z : Z,
    ZAssign.in_int32 X = true /\ ZAssign.in_int32 Y = true /\
    ZAssign.in_int32 Z = true /\
    fst (fst p) == _apply_scale sx ox X /\
    snd (fst p) == _apply_scale sy oy Y /\
    snd p == _apply_scale sz oz Z.

Definition same_point (a b : Q * Q * Q) : Prop :=
  fst (fst a) == fst (fst b) /\ snd (fst a) == snd (fst b) /\ snd a == snd b.

(** [b] is within half a step of the grid from [a], along each axis. *)
Definition within_half_step (hdr : LasHeader) (a b : Q * Q * Q) : Prop :=
  let '(sx, sy, sz) := scales hdr in
  Qabs (fst (fst b) - fst (fst a)) <= sx / (2 # 1) /\
  Qabs (snd (fst b) - snd (fst a)) <= sy / (2 # 1) /\
  Qabs (snd b - snd a) <= sz / (2 # 1).

(** The point formats of the versions of LAS, for the examples: 0 and 1
    from the first, 2 and 3 from 1.2, 4 and 5 from 1.3, 6 to 10 in 1.4. *)
Definition las_point_formats (point_format_id : Z) (version : Z * Z) : bool :=
  let minor := snd version in
  ((fst version =? 1) && (0 <=? point_format_id)
   && (point_format_id <=? (if minor <=? 1 then 1
                            else if minor =? 2 then 3
                            else if minor =? 3 then 5
                            else 10)))%Z.

(** A boundary point a million kilometres east, and one between two points
    of the centimetre grid. *)
Definition far_cad_point : list (Q * Q * Q) := [(1000000000 # 1, 0, 1)].
Definition off_grid_cad_point : list (Q * Q * Q) := [(1 # 1000, 0, 1)].
Definition one_red : list rgb_u8 := [(xff, x00, x00)].

End PipelineSpec.

(** * Notions used to state the properties of [densify_polyline] *)

Module DensifySpec.
Import Densify.

(** The points one vertex pair contributes to [out]. *)
Definition seg_points (step_m : Q) (v0 v1 : vertex) : list vertex :=
  segment_step step_m v0 v1 [].

(** The consecutive vertex pairs of a polyline. *)
Definition pairs (vertices : list vertex) : list (vertex * vertex) :=
  combine vertices (tl vertices).

(** The square of the planar length of the segment from [p] to [q]. *)
Definition planar_sq (p q : vertex) : Q := hypot_sq (vx q - vx p) (vy q - vy p).

(** [p] and [q] are at most [step_m] apart in the plane. *)
Definition within_step (step_m : Q) (p q : vertex) : Prop :=
  planar_sq p q <= sq step_m.

(** [d] is a near-duplicate of [p] for the dedup pass. *)
Definition close (p d : vertex) : Prop :=
  Qabs (vx p - vx d) <= eps /\ Qabs (vy p - vy d) <= eps.

(** [q] is at most [step_m] away from a near-duplicate of [p]. *)
Definition near_step (step_m : Q) (p q : vertex) : Prop :=
  exists d, close p d /\ within_step step_m d q.

(** [n] is the ceiling of [L / step_m] for the length [L] whose square is
    [len_sq]: [n - 1 < L / step_m <= n], stated on the squares. *)
Definition is_ceil_ratio (n : nat) (len_sq step_m : Q) : Prop :=
  (1 <= n)%nat /\
  sq ((inject_Z (Z.of_nat n) - 1) * step_m) < len_sq /\
  len_sq <= sq (inject_Z (Z.of_nat n) * step_m).

(** Every two neighbours of a sequence are related by [R]. *)
Definition consecutive (R : vertex -> vertex -> Prop) (l : list vertex) : Prop :=
  Sorted R l.

(** The emitted sequence written segment by segment. *)
Definition route (step_m : Q) (vertices : list vertex) : list vertex :=
  flat_map (fun p => seg_points step_m (fst p) (snd p)) (pairs vertices)
  ++ [last vertices origin].

(** The dedup pass as a recursion on what is left to read, [k] being the
    last point kept. *)
Fixpoint dedup_from (k : vertex) (l : list vertex) : list vertex :=
  match l with
  | [] => []
  | xy :: t => if far k xy then xy :: dedup_from xy t else dedup_from k t
  end.

(** A two-vertex polyline of length 10 used as a worked example. *)
Definition line_0_10 : list vertex := [(0, 0, None); (10 # 1, 0, Some (4 # 1))].

(** Same planar position. *)
Definition same_xy (p q : vertex) : Prop := vx p == vx q /\ vy p == vy q.

End DensifySpec.

(** * Notions used to state the properties of the Z assignment *)

Module ZAssignSpec.
Import ZAssign.

Local Open Scope Z_scope.

(** The comparison [np.argsort] makes on the keys, seen on (key, position)
    pairs, and the sorted array of pairs behind [order] and [keys_sorted]. *)
Definition by_key (p q : Z * nat) : bool := fst p <=? fst q.

Definition sorted_pairs (keys : list Z) : list (Z * nat) :=
  isort by_key (combine keys (seq 0 (length keys))).

(** A run [(v, s, c)] of the sorted array [ks], whose head has position
    [pos]: it starts after the entries below [v] and spans the entries equal
    to [v]. *)
Definition run_ok (pos : nat) (ks : list Z) (r : Z * nat * nat) : Prop :=
  let '(v, s, c) := r in
  s = (pos + length (filter (fun w => (w <? v)%Z) ks))%nat /\
  c = length (filter (fun w => w =? v) ks) /\
  (1 <= c)%nat.

(** Brute-force filtering of the whole cloud on [d2 <= r * r]: the
    reference the spec compares the grid query with. *)
Definition brute_force_neighbors (cloud_xy : list (Q * Q)) (r : Q) (sx sy : Q)
  : list nat :=
  filter (fun i => Qle_bool (dist2 cloud_xy sx sy i) (r * r))
         (seq 0 (length cloud_xy)).

(** The cell of a cloud point fits the 32 bits of [ix] and [iy]. *)
Definition cell_fits_int32 (cell : Q) (p : Q * Q) : Prop :=
  in_int32 (floor_div (fst p) cell) = true /\
  in_int32 (floor_div (snd p) cell) = true.

(** The cells around a sample fit the 64 bits of [np.int64]. *)
Definition cells_fit_int64 (cell : Q) (s : Q * Q) : Prop :=
  in_int64 (floor_div (fst s) cell - 1) = true /\
  in_int64 (floor_div (fst s) cell + 1) = true /\
  in_int64 (floor_div (snd s) cell - 1) = true /\
  in_int64 (floor_div (snd s) cell + 1) = true.

(** The indices of the cells around [(cx, cy)], cell after cell. *)
Definition around (g : GridIndex) (cx cy : Z) (offsets : list (Z * Z)) : list nat :=
  flat_map (fun d => _cell_indices g (pack_key (cx + fst d) (cy + snd d))) offsets.

(** The cloud of the end-to-end scenario: three points on a line and a
    fourth, much higher, above the middle one. *)
Definition four_points : list (Q * Q * Q) :=
  [(0, 0, 1); (5 # 1, 0, 2 # 1); (10 # 1, 0, 3 # 1); (5 # 1, 0, 100 # 1)]%Q.

(** A sample so far away that its cell index does not fit 64 bits. *)
Definition far_sample : Q * Q := (18446744073709551616 # 1, 0)%Q.

(** Two behaviours of the out-of-range conversion to [int32]: the smallest
    [int32], as on x86-64, and saturation, as on AArch64. *)
Definition int32_min_on_overflow (v : Z) : Z := - 2 ^ 31.
Definition int32_saturating (v : Z) : Z :=
  if v <? 0 then - 2 ^ 31 else 2 ^ 31 - 1.

(** A point in projected metric coordinates. *)
Definition utm_point : Q * Q := (500000 # 1, 5000000 # 1)%Q.

(** What numpy promises of [np.argpartition(a, kth)] for
    [0 <= kth < len(a)]: the positions of [a] rearranged so that the entry at
    [kth] is in its sorted place, no entry before it larger and no entry
    after it smaller.  Nothing is promised on the order among equal
    entries. *)
Definition partitions (argpartition : list Q -> Z -> list nat) : Prop :=
  forall (a : list Q) (kth : Z),
    0 <= kth < Z.of_nat (length a) ->
    let p := argpartition a kth in
    let pivot := nth (nth (Z.to_nat kth) p 0%nat) a 0%Q in
    Permutation p (seq 0 (length a)) /\
    forall i, (i < length a)%nat ->
      ((i <= Z.to_nat kth)%nat -> (nth (nth i p 0%nat) a 0 <= pivot)%Q) /\
      ((Z.to_nat kth <= i)%nat -> (pivot <= nth (nth i p 0%nat) a 0)%Q).

(** A function that keeps the promise, for the examples: the stable full
    sort, which lists equal entries by increasing position. *)
Definition stable_argpartition (a : list Q) (kth : Z) : list nat :=
  argsort Qle_bool a.

End ZAssignSpec.

(** * Notions used to state further properties of [densify_polyline] *)

Module DensifyMore.
Import Densify DensifySpec.

(** [l1] is [l2] with some entries left out, the order kept. *)
Inductive subseq {A : Type} : list A -> list A -> Prop :=
| subseq_nil : subseq [] []
| subseq_skip (a : A) (l1 l2 : list A) : subseq l1 l2 -> subseq l1 (a :: l2)
| subseq_keep (a : A) (l1 l2 : list A) : subseq l1 l2 -> subseq (a :: l1) (a :: l2).

(** The planar position of [p] is on the segment from [v0] to [v1]. *)
Definition on_segment (v0 v1 p : vertex) : Prop :=
  exists t, 0 <= t /\ t <= 1 /\
            vx p == vx v0 + (vx v1 - vx v0) * t /\
            vy p == vy v0 + (vy v1 - vy v0) * t.

(** The planar position of [p] is on the polyline. *)
Definition on_polyline (vertices : list vertex) (p : vertex) : Prop :=
  exists v0 v1, In (v0, v1) (pairs vertices) /\ on_segment v0 v1 p.

(** [p] has the elevation the inner loop computes at parameter [t] between
    [v0] and [v1]: interpolated when both have one, none otherwise. *)
Definition z_between (v0 v1 : vertex) (t : Q) (p : vertex) : Prop :=
  match vz v0, vz v1 with
  | Some z0, Some z1 => exists zt, vz p = Some zt /\ zt == z0 + (z1 - z0) * t
  | _, _ => vz p = None
  end.

(** [p] is the point at parameter [t], short of the end, between [v0] and
    [v1]. *)
Definition between (v0 v1 p : vertex) : Prop :=
  exists t, 0 <= t /\ t < 1 /\
            vx p == vx v0 + (vx v1 - vx v0) * t /\
            vy p == vy v0 + (vy v1 - vy v0) * t /\
            z_between v0 v1 t p.

(** A polyline whose first vertex has an elevation and whose second has
    none. *)
Definition half_elevated : list vertex := [(0, 0, Some 1); (10 # 1, 0, None)].

End DensifyMore.

(** * cloud_las.py: [read_las_bbox_z_stats] *)

Module CloudLasStats.
Import Las Np CloudLas.

(** One pass of the chunk loop of [read_las_bbox_z_stats], extending
    [z_vals]. *)
Definition z_stats_step (b : bbox) (z_vals : list (list Q)) (pts : list LasPoint)
  : list (list Q) :=
  let m := map (mask b) pts in
  if np_any m then z_vals ++ [select (map z pts) m] else z_vals.

(** [read_las_bbox_z_stats] reading chunks of [chunk] points. *)
Definition read_las_bbox_z_stats_chunked (chunk : Z) (lf : LasFile) (b : bbox)
  : result (list Q) :=
  let las_bbox := las_bbox_of lf in
  let z_vals := fold_left (z_stats_step b) (chunk_iterator lf chunk) [] in
  match z_vals with
  | [] => Err (ValueError_cloud_not_aligned b las_bbox)
  | _ => Ok (concat z_vals)
  end.

(** The function of the source: chunks of 2_000_000 points. *)
Definition read_las_bbox_z_stats := read_las_bbox_z_stats_chunked 2000000.

End CloudLasStats.

(** * Notions used to state further properties of the Z assignment *)

Module ZAssignMore.
Import Np ZAssign.

Local Open Scope Z_scope.

(** Lines 130 to 132 of [z_assign.py]: the neighbours kept when more than
    [k_eff_max] are within the radius. *)
Definition cap_nearest (argpartition : list Q -> Z -> list nat)
  (ids_in : list nat) (d2_in : list Q) (k_eff_max : Z) : list nat :=
  if Z.of_nat (length ids_in) >? k_eff_max then
    take 0%nat ids_in
         (firstn (Z.to_nat k_eff_max) (argpartition d2_in (k_eff_max - 1)))
  else ids_in.

(** The comparison [np.argsort] makes on squared distances, seen on
    (distance, position) pairs. *)
Definition by_dist (p q : Q * nat) : bool := Qle_bool (fst p) (fst q).

End ZAssignMore.


(** * Python strings *)

(** Strings are taken over ASCII.  [str.lower] then changes the letters
    [A] .. [Z] only. *)
Module Str.

Local Open Scope nat_scope.

Definition lower_char (c : Ascii.ascii) : Ascii.ascii :=
  let n := Ascii.nat_of_ascii c in
  if (65 <=? n) && (n <=? 90) then Ascii.ascii_of_nat (n + 32) else c.

(** [s.lower()] *)
Fixpoint lower (s : string) : string :=
  match s with
  | EmptyString => EmptyString
  | String c rest => String (lower_char c) (lower rest)
  end.

(** [s.startswith(p)] *)
Definition startswith (s p : string) : bool := String.prefix p s.

(** [s.endswith(suffix)] for one suffix. *)
Definition endswith (s suffix : string) : bool :=
  let n := String.length s in
  let m := String.length suffix in
  (m <=? n) && String.eqb (String.substring (n - m) m s) suffix.

End Str.

(** * z_assign.py: [pick_constant_z] *)

Module ZConst.
Import ZAssign.

(** [np.median(zs)] of a non-empty one-dimensional array: the middle entry
    of the sorted array, or the mean of the two middle entries.  (Of an empty
    array numpy returns nan, which [Q] does not have.) *)
Definition np_median (zs : list Q) : Q :=
  let a := isort Qle_bool zs in
  let n := length a in
  if Nat.even n then (nth (n / 2 - 1)%nat a 0 + nth (n / 2)%nat a 0) / (2 # 1)
  else nth (n / 2)%nat a 0.

(** [np.percentile(zs, q)]: the quantile at [q / 100]. *)
Definition np_percentile (zs : list Q) (q : Q) : Q :=
  np_quantile zs (q / (100 # 1)).

Definition pick_constant_z (zs : list Q) (mode : string) (offset : Q)
  : result Q :=
  let mode_l := Str.lower mode in
  if String.eqb mode_l "p95" then Ok (np_percentile zs (95 # 1) + offset)
  else if String.eqb mode_l "median" then Ok (np_median zs + offset)
  else Err (ValueError "Unsupported z_mode. Use: p95, median").

End ZConst.

(** * cad.py *)

Module Cad.
Import Densify.

(** What the extractors read of an entity of the model space.  Which fields
    mean something depends on [dxftype]; the code reads the others of no
    entity. *)
Record Entity : Type := {
  (** [e.dxf.layer] *)
  dxf_layer : string;
  (** [e.dxftype()] *)
  dxftype : string;
  (** LWPOLYLINE: the first two entries of each of [e.get_points("xyseb")] *)
  get_points : list (Q * Q);
  (** LWPOLYLINE: [float(e.dxf.elevation)], [None] when that raises *)
  dxf_elevation : option Q;
  is_2d_polyline : bool;
  is_3d_polyline : bool;
  (** POLYLINE: [v.dxf.location] of each of [e.vertices] *)
  vertices : list (Q * Q * Q);
  (** LINE: [e.dxf.start] and [e.dxf.end] *)
  dxf_start : Q * Q * Q;
  dxf_end : Q * Q * Q
}.

Definition point3 (p : Q * Q * Q) : vertex :=
  (fst (fst p), snd (fst p), Some (snd p)).

Definition no_linework : exn :=
  ValueError "No supported linework found in DXF (LWPOLYLINE/POLYLINE/LINE)".

(** [layer_ok] of [extract_dxf_polylines]. *)
Definition layer_ok (layer : option string) (e : Entity) : bool :=
  match layer with
  | None => true
  | Some EmptyString => true
  | Some l => String.eqb (dxf_layer e) l
  end.

(** One pass of the loop of [extract_dxf_polylines] over the model space. *)
Definition extract_step (layer : option string)
  (polylines : list (list vertex)) (e : Entity) : list (list vertex) :=
  if negb (layer_ok layer e) then polylines
  else
    let t := dxftype e in
    if String.eqb t "LWPOLYLINE" then
      let pts := map (fun v => (fst v, snd v, dxf_elevation e)) (get_points e) in
      if (2 <=? length pts)%nat then polylines ++ [pts] else polylines
    else if String.eqb t "POLYLINE" then
      if is_2d_polyline e || is_3d_polyline e then
        let pts := map point3 (vertices e) in
        if (2 <=? length pts)%nat then polylines ++ [pts] else polylines
      else polylines
    else if String.eqb t "LINE" then
      polylines ++ [[point3 (dxf_start e); point3 (dxf_end e)]]
    else polylines.

(** [extract_dxf_polylines], of the model space [msp] of the file. *)
Definition extract_dxf_polylines (msp : list Entity) (layer : option string)
  : result (list (list vertex)) :=
  match fold_left (extract_step layer) msp [] with
  | [] => Err no_linework
  | polylines => Ok polylines
  end.

(** The set [allow] of [extract_dxf_polylines_with_layer]. *)
Definition allowed (layers : option (list string)) : option (list string) :=
  match layers with
  | None => None
  | Some ls =>
      match filter (fun x => negb (String.eqb x EmptyString)) ls with
      | [] => None
      | allow => Some allow
      end
  end.

(** One pass of the loop of [extract_dxf_polylines_with_layer]. *)
Definition extract_with_layer_step (allow : option (list string))
  (out : list (string * list vertex)) (e : Entity)
  : list (string * list vertex) :=
  let layer_name := dxf_layer e in
  let skip := match allow with
              | None => false
              | Some names => negb (existsb (String.eqb layer_name) names)
              end in
  if skip then out
  else
    let t := dxftype e in
    if String.eqb t "LWPOLYLINE" then
      let pts := map (fun v => (fst v, snd v, dxf_elevation e)) (get_points e) in
      if (2 <=? length pts)%nat then out ++ [(layer_name, pts)] else out
    else if String.eqb t "POLYLINE" then
      if is_2d_polyline e || is_3d_polyline e then
        let pts := map point3 (vertices e) in
        if (2 <=? length pts)%nat then out ++ [(layer_name, pts)] else out
      else out
    else if String.eqb t "LINE" then
      out ++ [(layer_name, [point3 (dxf_start e); point3 (dxf_end e)])]
    else out.

Definition extract_dxf_polylines_with_layer (msp : list Entity)
  (layers : option (list string)) : result (list (string * list vertex)) :=
  match fold_left (extract_with_layer_step (allowed layers)) msp [] with
  | [] => Err no_linework
  | out => Ok out
  end.

(** [min] of a sequence: the first of its smallest entries. *)
Definition py_min (l : list Q) : result Q :=
  match l with
  | [] => Err (ValueError "min() arg is an empty sequence")
  | v :: rest =>
      Ok (fold_left (fun m a => if negb (Qle_bool m a) then a else m) rest v)
  end.

(** [max] of a sequence: the first of its largest entries. *)
Definition py_max (l : list Q) : result Q :=
  match l with
  | [] => Err (ValueError "max() arg is an empty sequence")
  | v :: rest =>
      Ok (fold_left (fun m a => if negb (Qle_bool a m) then a else m) rest v)
  end.

Definition compute_bbox (xy_points : list (Q * Q)) : result bbox :=
  let xs := map fst xy_points in
  let ys := map snd xy_points in
  minx <- py_min xs ;;
  miny <- py_min ys ;;
  maxx <- py_max xs ;;
  maxy <- py_max ys ;;
  Ok (minx, miny, maxx, maxy).

End Cad.

(** * Notions used to state properties of the extractors *)

Module CadSpec.
Import Densify Cad.

Definition long_enough (pl : list vertex) : Prop := (2 <= length pl)%nat.

(** The [layers] argument of [extract_dxf_polylines_with_layer] that asks
    for the one layer [extract_dxf_polylines] is asked for. *)
Definition layers_of (layer : option string) : option (list string) :=
  match layer with
  | None => None
  | Some l => Some [l]
  end.

(** A model space of two entities: a point, which the extractors pass
    over, and a line on layer edge. *)
Definition a_point : Entity :=
  {| dxf_layer := "0"; dxftype := "POINT"; get_points := [];
     dxf_elevation := None; is_2d_polyline := false; is_3d_polyline := false;
     vertices := []; dxf_start := (0, 0, 0); dxf_end := (0, 0, 0) |}.

Definition a_line : Entity :=
  {| dxf_layer := "edge"; dxftype := "LINE"; get_points := [];
     dxf_elevation := None; is_2d_polyline := false; is_3d_polyline := false;
     vertices := []; dxf_start := (0, 0, 1); dxf_end := (10 # 1, 0, 2 # 1) |}.

Definition point_and_line : list Entity := [a_point; a_line].

End CadSpec.

(** * pipeline.py: [run], from the model space to the points with their Z *)

Module Run.
Import Densify.

Record SamplePoint : Type := {
  x : Q;
  y : Q;
  poly_id : nat;
  z : option Q
}.

(** Lines 186 to 192: the polylines and the layer of each. *)
Definition read_polylines (msp : list Cad.Entity) (layer : option string)
  (layers_selected : option (list string)) (layer_colors_given : bool)
  : result (list (list vertex) * list string) :=
  if layer_colors_given || (match layers_selected with Some _ => true | None => false end)
  then
    polys_with_layer <- Cad.extract_dxf_polylines_with_layer msp layers_selected ;;
    Ok (map snd polys_with_layer, map fst polys_with_layer)
  else
    polylines <- Cad.extract_dxf_polylines msp layer ;;
    Ok (polylines, map (fun _ => EmptyString) polylines).

(** Lines 197 to 202: the loop over [enumerate(polylines)], from the
    polyline numbered [poly_id] on. *)
Fixpoint build_samples (poly_layers : list string) (step_m : Q) (poly_id : nat)
  (polylines : list (list vertex))
  (samples : list SamplePoint) (sample_layers : list string)
  : result (list SamplePoint * list string) :=
  match polylines with
  | [] => Ok (samples, sample_layers)
  | pl :: rest =>
      pts <- densify_polyline pl step_m ;;
      let ln := if (poly_id <? length poly_layers)%nat
                then nth poly_id poly_layers EmptyString else EmptyString in
      build_samples poly_layers step_m (S poly_id) rest
        (samples ++ map (fun p => {| x := vx p; y := vy p; z := vz p;
                                     poly_id := poly_id |}) pts)
        (sample_layers ++ map (fun _ => ln) pts)
  end.

(** Lines 186 to 204: [samples], [sample_layers] and [xy_all]. *)
Definition run_samples (msp : list Cad.Entity) (step_m : Q)
  (layer : option string) (layers_selected : option (list string))
  (layer_colors_given : bool)
  : result (list SamplePoint * list string * list (Q * Q)) :=
  pp <- read_polylines msp layer layers_selected layer_colors_given ;;
  sl <- build_samples (snd pp) step_m 0 (fst pp) [] [] ;;
  Ok (fst sl, snd sl, map (fun s => (x s, y s)) (fst sl)).

Section Z.

Variable choice : Z -> nat -> nat -> list nat.
Variable out_of_range_int32 : Z -> Z.
Variable argpartition : list Q -> Z -> list nat.

(** [offset_val] of lines 227 to 229. *)
Definition offset_val (mode : string) (z_offset : Q) : Q :=
  if String.eqb mode "surface_offset" || String.eqb mode "p95" then z_offset
  else 0.

(** Lines 215 to 257: from [xy_all] to [pts], the cloud being the file [lf]
    at [cloud_path]. *)
Definition run_z (os_entropy : Z) (xy_all : list (Q * Q))
  (cloud_path : string) (lf : Las.LasFile) (z_mode : string)
  (z_offset z_radius_m : Q) (z_k : Z) (z_quantile : Q)
  (las_max_points : option Z) : result (list (Q * Q * Q)) :=
  bbox <- Cad.compute_bbox xy_all ;;
  let path := Str.lower cloud_path in
  if negb (Str.endswith path ".las" || Str.endswith path ".laz") then
    Err (ValueError "Only LAS/LAZ is supported")
  else
    let mode := Str.lower z_mode in
    if Str.startswith mode "surface" || String.eqb mode "p95" then
      cloud_xyz <- CloudLas.read_las_points_in_bbox choice os_entropy lf bbox
                     las_max_points ;;
      let zs := map snd cloud_xyz in
      fallback_z <- ZConst.pick_constant_z zs "median" 0 ;;
      let samples_xy := xy_all in
      z_vals <- ZAssign.surface_z_from_neighbors out_of_range_int32 argpartition
                  cloud_xyz
                  samples_xy z_radius_m z_k z_quantile fallback_z
                  (offset_val mode z_offset) ;;
      Ok (map (fun p => (fst (fst p), snd (fst p), snd p))
              (combine xy_all z_vals))
    else Err (ValueError "Unsupported z_mode").

End Z.

End Run.

(** * Notions used to state properties of [run] *)

Module RunSpec.
Import Densify Run.

(** The samples of the points [d] of the polyline numbered [i]. *)
Definition tag (i : nat) (d : list vertex) : list SamplePoint :=
  map (fun p => {| x := vx p; y := vy p; z := vz p; poly_id := i |}) d.

(** Each densified polyline with its number, counted from 0. *)
Definition numbered (dens : list (list vertex)) : list (nat * list vertex) :=
  combine (seq 0 (length dens)) dens.

(** The samples of the line of [point_and_line] for a step of 5. *)
Definition line_samples : list SamplePoint :=
  [{| x := 0 # 2; y := 0 # 2; poly_id := 0; z := Some (2 # 2) |};
   {| x := 10 # 2; y := 0 # 2; poly_id := 0; z := Some (3 # 2) |};
   {| x := 10 # 1; y := 0; poly_id := 0; z := Some (2 # 1) |}].

Definition line_layers : list string := ["edge"; "edge"; "edge"]%string.

Definition line_xy : list (Q * Q) := [(0 # 2, 0 # 2); (10 # 2, 0 # 2); (10 # 1, 0)].

(** The points [run] makes of [line_xy] over [small_cloud], in mode surface
    with radius 6, k = 2 and quantile 1/2. *)
Definition line_points : list (Q * Q * Q) :=
  [(0 # 2, 0 # 2, 3 # 2); (10 # 2, 0 # 2, 3 # 2); (10 # 1, 0, 5 # 2)].

(** Three elevations. *)
Definition three_z : list Q := [3 # 1; 1; 2 # 1].

End RunSpec.

(** * z_assign.py and pipeline.py: the progress reported while Z is assigned *)

Module Progress.

Local Open Scope Z_scope.

(** Lines 136 to 140 of [z_assign.py] after sample [i] of [n]: the percentage
    [p], reported when it differs from the last one reported.  The state is
    [last_p] and the calls made so far.  [int] of the exact quotient of two
    integers that are not negative is their integer quotient. *)
Definition progress_step (n : Z) (st : Z * list Z) (i : nat) : Z * list Z :=
  let p := (100 * (Z.of_nat i + 1)) / Z.max 1 n in
  if negb (p =? fst st) then (p, snd st ++ [p]) else st.

(** The calls of [progress] made by a loop over [n] samples that no
    exception ends. *)
Definition sample_progress (n : nat) : list Z :=
  snd (fold_left (progress_step (Z.of_nat n)) (seq 0 n) (-1, [])).

(** [_z_prog] of [run]: the percentage it passes on. *)
Definition _z_prog (p : Z) : Z :=
  let pp := Z.max 0 (Z.min 100 p) in
  40 + (7 * pp) / 100.

End Progress.

(** * Properties of [densify_polyline] *)

Section DensifyFacts.
Import Densify DensifySpec.

Lemma sq_nonneg (a : Q) : 0 <= sq a.
Proof. unfold sq. nra. Qed.

Lemma sum_sq_zero (a b : Q) : sq a + sq b == 0 -> a == 0 /\ b == 0.
Proof. unfold sq. intros H. split; nra. Qed.

Lemma fold_append_map {A B : Type} (f : B -> A) (l : list B) (out : list A) :
  fold_left (fun out j => out ++ [f j]) l out = out ++ map f l.
Proof.
  revert out. induction l as [|b l IH]; intros out; simpl.
  - now rewrite app_nil_r.
  - rewrite IH, <- app_assoc. reflexivity.
Qed.

Lemma segment_step_app (step_m : Q) (v0 v1 : vertex) (out : list vertex) :
  segment_step step_m v0 v1 out = out ++ seg_points step_m v0 v1.
Proof.
  unfold seg_points, segment_step.
  destruct (Qeq_bool _ 0).
  - now rewrite app_nil_r.
  - now rewrite !fold_append_map.
Qed.

Lemma seg_points_degenerate (step_m : Q) (v0 v1 : vertex) :
  planar_sq v0 v1 == 0 -> seg_points step_m v0 v1 = [].
Proof.
  intros H. unfold seg_points, segment_step.
  apply Qeq_bool_iff in H. unfold planar_sq in H. now rewrite H.
Qed.

Lemma seg_points_interp (step_m : Q) (v0 v1 : vertex) :
  ~ planar_sq v0 v1 == 0 ->
  seg_points step_m v0 v1 =
  map (interp v0 v1 (seg_count (vx v1 - vx v0) (vy v1 - vy v0) step_m))
      (seq 0 (seg_count (vx v1 - vx v0) (vy v1 - vy v0) step_m)).
Proof.
  intros H. unfold seg_points, segment_step.
  destruct (Qeq_bool _ 0) eqn:E.
  - apply Qeq_bool_iff in E. contradiction.
  - now rewrite fold_append_map.
Qed.

Lemma seg_count_spec (dx dy step_m : Q) :
  0 < step_m -> 0 < hypot_sq dx dy ->
  is_ceil_ratio (seg_count dx dy step_m) (hypot_sq dx dy) step_m.
Proof.
  intros Hs Hh. unfold is_ceil_ratio, seg_count, ceil_hypot_div.
  set (h := hypot_sq dx dy) in *.
  set (a := h / sq step_m).
  assert (Hss : 0 < sq step_m) by (unfold sq; nra).
  assert (Ha : a * sq step_m == h) by (unfold a; field; lra).
  assert (Hapos : 0 < a) by (unfold a; apply Qlt_shift_div_l; lra).
  pose proof (Qle_ceiling a) as Hc1.
  pose proof (Qceiling_lt a) as Hc2.
  set (c := Qceiling a) in *.
  assert (Hc : (1 <= c)%Z).
  { assert (H0 : (0 < c)%Z) by (rewrite Zlt_Qlt; change (inject_Z 0) with 0; lra).
    lia. }
  destruct (Z.sqrt_up_spec c ltac:(lia)) as [Hm1 Hm2].
  set (m := Z.sqrt_up c) in *.
  assert (Hm : (1 <= m)%Z) by (pose proof (Z.sqrt_up_pos c); lia).
  rewrite Z.max_r by lia.
  rewrite Z2Nat.id by lia.
  split; [lia|].
  assert (Hlo : (inject_Z m - 1) * (inject_Z m - 1) <= inject_Z c - 1).
  { assert (E : forall u, inject_Z (u - 1) == inject_Z u - 1).
    { intros u. unfold Z.sub. rewrite inject_Z_plus. reflexivity. }
    rewrite <- !E, <- inject_Z_mult, <- Zle_Qle. unfold Z.pred in *. lia. }
  assert (Hhi : inject_Z c <= inject_Z m * inject_Z m).
  { rewrite <- inject_Z_mult, <- Zle_Qle. lia. }
  assert (Hc3 : inject_Z c - 1 < a).
  { unfold Z.sub in Hc2. rewrite inject_Z_plus in Hc2. exact Hc2. }
  set (M := inject_Z m) in *. set (C := inject_Z c) in *.
  clearbody M C a h. unfold sq in *.
  assert (H1 : 0 < (a - (M - 1) * (M - 1)) * (step_m * step_m))
    by (apply Qmult_lt_0_compat; lra).
  assert (H2 : 0 <= (M * M - a) * (step_m * step_m))
    by (apply Qmult_le_0_compat; lra).
  split; nra.
Qed.

Lemma fold_left_map_arg {A B C : Type} (f : A -> C -> A) (g : B -> C)
  (l : list B) (a : A) :
  fold_left f (map g l) a = fold_left (fun acc b => f acc (g b)) l a.
Proof.
  revert a. induction l as [|b l IH]; intros a; simpl; [reflexivity|apply IH].
Qed.

Lemma outer_loop_route (step_m : Q) (vs : list vertex) (out : list vertex) :
  fold_left
    (fun out i => segment_step step_m (nth i vs origin) (nth (S i) vs origin) out)
    (seq 0 (length vs - 1)) out
  = out ++ flat_map (fun p => seg_points step_m (fst p) (snd p)) (pairs vs).
Proof.
  revert out. induction vs as [|a vs IH]; intros out.
  - simpl. now rewrite app_nil_r.
  - destruct vs as [|b vs].
    + simpl. now rewrite app_nil_r.
    + specialize (IH (out ++ seg_points step_m a b)).
      replace (length (b :: vs) - 1)%nat with (length vs) in IH by (simpl; lia).
      change (length (a :: b :: vs) - 1)%nat with (S (length vs)).
      rewrite <- cons_seq, <- seq_shift. cbn [fold_left].
      rewrite fold_left_map_arg, segment_step_app.
      unfold pairs in *. cbn [tl] in IH. cbn [tl combine flat_map fst snd].
      rewrite app_assoc. exact IH.
Qed.

Lemma emitted_route (vs : list vertex) (step_m : Q) :
  emitted vs step_m = route step_m vs.
Proof. unfold emitted, route. now rewrite outer_loop_route. Qed.

Lemma interp_vx (v0 v1 : vertex) (n j : nat) :
  vx (interp v0 v1 n j)
  = vx v0 + (vx v1 - vx v0) * (inject_Z (Z.of_nat j) / inject_Z (Z.of_nat n)).
Proof. destruct v0 as [[x0 y0] z0], v1 as [[x1 y1] z1]. reflexivity. Qed.

Lemma interp_vy (v0 v1 : vertex) (n j : nat) :
  vy (interp v0 v1 n j)
  = vy v0 + (vy v1 - vy v0) * (inject_Z (Z.of_nat j) / inject_Z (Z.of_nat n)).
Proof. destruct v0 as [[x0 y0] z0], v1 as [[x1 y1] z1]. reflexivity. Qed.

Lemma interp_vz (v0 v1 : vertex) (n j : nat) :
  vz (interp v0 v1 n j)
  = match vz v0, vz v1 with
    | Some z0, Some z1 =>
        Some (z0 + (z1 - z0) * (inject_Z (Z.of_nat j) / inject_Z (Z.of_nat n)))
    | _, _ => None
    end.
Proof. destruct v0 as [[x0 y0] z0], v1 as [[x1 y1] z1]. reflexivity. Qed.

Lemma inject_nat_pos (n : nat) : (1 <= n)%nat -> 0 < inject_Z (Z.of_nat n).
Proof.
  intros H. change 0 with (inject_Z 0). rewrite <- Zlt_Qlt. lia.
Qed.

Lemma inject_nat_succ (j : nat) :
  inject_Z (Z.of_nat (S j)) == inject_Z (Z.of_nat j) + 1.
Proof. rewrite Nat2Z.inj_succ. unfold Z.succ. now rewrite inject_Z_plus. Qed.

(** A step of [1/n] along a segment of length [L <= n * step_m] is at most
    [step_m] long. *)
Lemma fraction_step (dx dy step_m N t t' : Q) :
  0 < N -> 0 < step_m -> t' - t == 1 / N ->
  hypot_sq dx dy <= sq (N * step_m) ->
  hypot_sq (dx * t' - dx * t) (dy * t' - dy * t) <= sq step_m.
Proof.
  unfold hypot_sq, sq. intros HN Hs Ht H.
  assert (Eu : dx * t' - dx * t == dx / N).
  { transitivity (dx * (t' - t)); [ring|]. rewrite Ht. field. lra. }
  assert (Ev : dy * t' - dy * t == dy / N).
  { transitivity (dy * (t' - t)); [ring|]. rewrite Ht. field. lra. }
  rewrite Eu, Ev.
  set (u := dx / N). set (v := dy / N).
  assert (Hu : dx == u * N) by (unfold u; field; lra).
  assert (Hv : dy == v * N) by (unfold v; field; lra).
  rewrite Hu, Hv in H. clearbody u v.
  assert (HNN : 0 < N * N) by nra.
  assert (Hk : (u * u + v * v) * (N * N) <= (step_m * step_m) * (N * N)) by nra.
  apply Qmult_le_r in Hk; assumption.
Qed.

Lemma planar_sq_nonneg (p q : vertex) : 0 <= planar_sq p q.
Proof.
  unfold planar_sq, hypot_sq.
  pose proof (sq_nonneg (vx q - vx p)). pose proof (sq_nonneg (vy q - vy p)). lra.
Qed.

Lemma interp_next_within (step_m : Q) (a b : vertex) (n j : nat) :
  0 < step_m -> (S j < n)%nat ->
  planar_sq a b <= sq (inject_Z (Z.of_nat n) * step_m) ->
  within_step step_m (interp a b n j) (interp a b n (S j)).
Proof.
  intros Hs Hj Hlen.
  assert (HN : 0 < inject_Z (Z.of_nat n)) by (apply inject_nat_pos; lia).
  unfold within_step, planar_sq, hypot_sq, sq. rewrite !interp_vx, !interp_vy.
  set (N := inject_Z (Z.of_nat n)) in *.
  set (t := inject_Z (Z.of_nat j) / N).
  set (t' := inject_Z (Z.of_nat (S j)) / N).
  assert (Ht : t' - t == 1 / N).
  { unfold t, t'. rewrite inject_nat_succ. field. lra. }
  pose proof (fraction_step (vx b - vx a) (vy b - vy a) step_m N t t' HN Hs Ht Hlen) as F.
  unfold hypot_sq, sq in *.
  setoid_replace (vx a + (vx b - vx a) * t' - (vx a + (vx b - vx a) * t))
    with ((vx b - vx a) * t' - (vx b - vx a) * t) by ring.
  setoid_replace (vy a + (vy b - vy a) * t' - (vy a + (vy b - vy a) * t))
    with ((vy b - vy a) * t' - (vy b - vy a) * t) by ring.
  exact F.
Qed.

Lemma interp_last_within (step_m : Q) (a b h : vertex) (n j : nat) :
  0 < step_m -> S j = n -> same_xy h b ->
  planar_sq a b <= sq (inject_Z (Z.of_nat n) * step_m) ->
  within_step step_m (interp a b n j) h.
Proof.
  intros Hs Hj [Hx Hy] Hlen.
  assert (HN : 0 < inject_Z (Z.of_nat n)) by (apply inject_nat_pos; lia).
  unfold within_step, planar_sq, hypot_sq, sq.
  rewrite !interp_vx, !interp_vy, Hx, Hy.
  set (N := inject_Z (Z.of_nat n)) in *.
  set (t := inject_Z (Z.of_nat j) / N).
  assert (Ht : 1 - t == 1 / N).
  { unfold t, N. rewrite <- Hj, inject_nat_succ. field.
    rewrite <- inject_nat_succ, Hj. fold N. lra. }
  pose proof (fraction_step (vx b - vx a) (vy b - vy a) step_m N t 1 HN Hs Ht Hlen) as F.
  unfold hypot_sq, sq in *.
  setoid_replace (vx b - (vx a + (vx b - vx a) * t))
    with ((vx b - vx a) * 1 - (vx b - vx a) * t) by ring.
  setoid_replace (vy b - (vy a + (vy b - vy a) * t))
    with ((vy b - vy a) * 1 - (vy b - vy a) * t) by ring.
  exact F.
Qed.

Lemma segment_then_spaced (step_m : Q) (a b h : vertex) (t : list vertex) (n : nat) :
  0 < step_m -> same_xy h b ->
  planar_sq a b <= sq (inject_Z (Z.of_nat n) * step_m) ->
  consecutive (within_step step_m) (h :: t) ->
  forall len j0, (j0 + len = n)%nat ->
  consecutive (within_step step_m) (map (interp a b n) (seq j0 len) ++ h :: t).
Proof.
  intros Hs Hh Hlen Hsorted. unfold consecutive in *.
  induction len as [|len IH]; intros j0 Hj; simpl.
  - exact Hsorted.
  - constructor.
    + apply IH. lia.
    + destruct len as [|len]; simpl; constructor.
      * apply (interp_last_within step_m a b h n j0); auto. lia.
      * apply interp_next_within; auto. lia.
Qed.

Lemma interp_start (a b : vertex) (n : nat) : same_xy (interp a b n 0) a.
Proof.
  unfold same_xy. rewrite interp_vx, interp_vy. simpl (Z.of_nat 0).
  change (inject_Z 0) with 0. unfold Qdiv. split; ring.
Qed.

Lemma route_cons (step_m : Q) (a b : vertex) (vs : list vertex) :
  route step_m (a :: b :: vs) = seg_points step_m a b ++ route step_m (b :: vs).
Proof.
  unfold route, pairs. cbn [tl combine flat_map fst snd].
  rewrite <- app_assoc. reflexivity.
Qed.

(** The emitted sequence starts at the first vertex and never jumps by more
    than [step_m]. *)
Lemma route_spaced (step_m : Q) (vs : list vertex) :
  0 < step_m -> vs <> [] ->
  exists h t, route step_m vs = h :: t /\ same_xy h (hd origin vs) /\
              consecutive (within_step step_m) (h :: t).
Proof.
  intros Hs. induction vs as [|a vs IH]; intros Hne; [contradiction|].
  destruct vs as [|b vs].
  - exists a, []. repeat split; try reflexivity. constructor; constructor.
  - destruct (IH ltac:(discriminate)) as (h & t & Er & Hh & Hsorted).
    rewrite route_cons, Er. cbn [hd] in *.
    destruct (Qeq_dec (planar_sq a b) 0) as [Hz|Hnz].
    + rewrite (seg_points_degenerate _ _ _ Hz). exists h, t.
      repeat split; auto.
      * apply sum_sq_zero in Hz. destruct Hh as [Hx _]. rewrite Hx. lra.
      * apply sum_sq_zero in Hz. destruct Hh as [_ Hy]. rewrite Hy. lra.
    + rewrite (seg_points_interp _ _ _ Hnz).
      assert (Hpos : 0 < planar_sq a b).
      { pose proof (planar_sq_nonneg a b). apply Qnot_eq_sym in Hnz.
        destruct (Qlt_le_dec 0 (planar_sq a b)); [assumption|].
        exfalso. apply Hnz. lra. }
      destruct (seg_count_spec _ _ step_m Hs Hpos) as (Hn1 & _ & Hup).
      set (n := seg_count (vx b - vx a) (vy b - vy a) step_m) in *.
      pose proof (segment_then_spaced step_m a b h t n Hs Hh Hup Hsorted n 0%nat
                    ltac:(lia)) as Hall.
      destruct n as [|n]; [lia|]. cbn [seq map app] in *.
      eexists _, _. split; [reflexivity|]. split; [apply interp_start|exact Hall].
Qed.

Lemma dedup_fold (l acc : list vertex) (k : vertex) :
  fold_left dedup_step l (acc ++ [k]) = acc ++ k :: dedup_from k l.
Proof.
  revert acc k. induction l as [|xy l IH]; intros acc k; simpl.
  - reflexivity.
  - unfold dedup_step at 2. rewrite last_last.
    destruct (acc ++ [k]) eqn:E; [now destruct acc|]. rewrite <- E.
    destruct (far k xy).
    + rewrite IH, <- app_assoc. reflexivity.
    + apply IH.
Qed.

Lemma dedup_pass_cons (x : vertex) (l : list vertex) :
  dedup_pass (x :: l) = x :: dedup_from x l.
Proof. unfold dedup_pass. simpl. apply (dedup_fold l [] x). Qed.

Lemma far_false_close (k xy : vertex) : far k xy = false -> close k xy.
Proof.
  unfold far, close. intros H. apply orb_false_elim in H. destruct H as [H1 H2].
  apply negb_false_iff in H1, H2. split; now apply Qle_bool_iff.
Qed.

Lemma close_refl (p : vertex) : close p p.
Proof.
  unfold close. setoid_replace (vx p - vx p) with 0 by ring.
  setoid_replace (vy p - vy p) with 0 by ring.
  split; discriminate.
Qed.

(** After the dedup pass each kept point is within [step_m] of a
    near-duplicate of the point kept before it. *)
Lemma dedup_from_near (step_m : Q) (l : list vertex) :
  forall k d, close k d ->
  consecutive (within_step step_m) (d :: l) ->
  consecutive (near_step step_m) (k :: dedup_from k l).
Proof.
  unfold consecutive. induction l as [|xy l IH]; intros k d Hkd Hs; simpl.
  - constructor; constructor.
  - apply Sorted_inv in Hs. destruct Hs as [Hs Hd]. apply HdRel_inv in Hd.
    destruct (far k xy) eqn:F.
    + constructor.
      * apply (IH xy xy (close_refl xy) Hs).
      * constructor. exists d. split; assumption.
    + apply (IH k xy (far_false_close _ _ F) Hs).
Qed.

Lemma densify_runs (vertices : list vertex) (step_m : Q) :
  (2 <= length vertices)%nat -> 0 < step_m ->
  densify_polyline vertices step_m = Ok (dedup_pass (emitted vertices step_m)).
Proof.
  intros Hlen Hs. unfold densify_polyline.
  destruct (Nat.ltb_spec (length vertices) 2) as [H|_]; [lia|].
  destruct (Qle_bool step_m 0) eqn:E; [|reflexivity].
  apply Qle_bool_iff in E. lra.
Qed.

(** C5 (amended).  For a polyline of at least two vertices and a positive
    step: the emitted sequence is, vertex pair by vertex pair, nothing for a
    pair of planar length zero and, for a pair of positive planar length L,
    the n = ceil(L / step) points interpolated at t = j / n for j in [0, n)
    (z interpolated when both end elevations are present, unset otherwise),
    followed by the final vertex; in the emitted sequence neighbours are at
    most one step apart; the returned sequence is the dedup pass over it, and
    each returned point is at most one step away from a point within 1e-9, in
    x and in y, of the point returned before it. *)
Theorem densify_polyline_emits_and_spaces (vertices : list vertex) (step_m : Q) :
  (2 <= length vertices)%nat -> 0 < step_m ->
  emitted vertices step_m
  = flat_map (fun p => seg_points step_m (fst p) (snd p)) (pairs vertices)
    ++ [last vertices origin]
  /\ (forall v0 v1,
        (planar_sq v0 v1 == 0 -> seg_points step_m v0 v1 = []) /\
        (0 < planar_sq v0 v1 ->
         exists n, is_ceil_ratio n (planar_sq v0 v1) step_m /\
                   seg_points step_m v0 v1 = map (interp v0 v1 n) (seq 0 n)))
  /\ (forall v0 v1 n j,
        let t := inject_Z (Z.of_nat j) / inject_Z (Z.of_nat n) in
        vx (interp v0 v1 n j) = vx v0 + (vx v1 - vx v0) * t /\
        vy (interp v0 v1 n j) = vy v0 + (vy v1 - vy v0) * t /\
        vz (interp v0 v1 n j) = match vz v0, vz v1 with
                                | Some z0, Some z1 => Some (z0 + (z1 - z0) * t)
                                | _, _ => None
                                end)
  /\ consecutive (within_step step_m) (emitted vertices step_m)
  /\ exists out, densify_polyline vertices step_m = Ok out /\
                 out = dedup_pass (emitted vertices step_m) /\
                 consecutive (near_step step_m) out.
Proof.
  intros Hlen Hs.
  assert (Hne : vertices <> []) by (destruct vertices; [simpl in Hlen; lia|discriminate]).
  destruct (route_spaced step_m vertices Hs Hne) as (h & t & Er & _ & Hsp).
  split; [apply emitted_route|].
  split.
  { intros v0 v1. split.
    - apply seg_points_degenerate.
    - intros Hpos. exists (seg_count (vx v1 - vx v0) (vy v1 - vy v0) step_m). split.
      + apply seg_count_spec; assumption.
      + apply seg_points_interp. intros E. rewrite E in Hpos. discriminate. }
  split.
  { intros v0 v1 n j. cbv zeta.
    split; [apply interp_vx|]. split; [apply interp_vy|apply interp_vz]. }
  rewrite emitted_route, Er. split; [exact Hsp|].
  exists (dedup_pass (h :: t)). split.
  - rewrite densify_runs, emitted_route, Er by assumption. reflexivity.
  - split; [reflexivity|]. rewrite dedup_pass_cons.
    apply (dedup_from_near step_m t h h (close_refl h) Hsp).
Qed.

Lemma densify_polyline_emits_and_spaces_witness :
  (2 <= length line_0_10)%nat /\ 0 < 5 # 1 /\
  exists out,
    densify_polyline line_0_10 (5 # 1) = Ok out /\
    consecutive (near_step (5 # 1)) out.
Proof.
  split; [simpl; lia|]. split; [reflexivity|].
  destruct (densify_polyline_emits_and_spaces line_0_10 (5 # 1))
    as (_ & _ & _ & _ & out & E & _ & H); [simpl; lia|reflexivity|].
  exists out. split; assumption.
Defined.

(** C5 as stated fails on the returned sequence: with step 0.25e-9 the
    polyline (0,0) - (3e-9,0) - (3e-9,0.25e-9) returns three points, all on
    its first segment, and the first two are five steps apart. *)
Lemma densify_polyline_spacing_counterexample :
  exists p q r,
    densify_polyline
      [(0, 0, None); (3 # 1000000000, 0, None);
       (3 # 1000000000, 1 # 4000000000, None)] (1 # 4000000000)
    = Ok [p; q; r]
    /\ ~ within_step (1 # 4000000000) p q
    /\ planar_sq p q == sq (5 # 4000000000).
Proof.
  eexists _, _, _. split; [vm_compute; reflexivity|].
  split; [intros H; vm_compute in H; apply H; reflexivity|vm_compute; reflexivity].
Qed.

(** The same on a metre scale: with step 1 the point returned after (0,0) is
    1 + 5e-10 away from it, and the pair is not the last one. *)
Example densify_polyline_spacing_metre_scale :
  exists p q r,
    densify_polyline
      [(0, 0, None); (5 # 10000000000, 0, None);
       (10000000005 # 10000000000, 0, None);
       (20000000005 # 10000000000, 0, None)] 1
    = Ok [p; q; r]
    /\ ~ within_step 1 p q.
Proof.
  eexists _, _, _. split; [vm_compute; reflexivity|].
  intros H; vm_compute in H; apply H; reflexivity.
Qed.




(** C8 (amended).  For a polyline of at least two vertices and a positive
    step the emitted sequence ends with the final vertex as it is.  The dedup
    pass then keeps it, and the returned sequence ends with it, when nothing
    was kept before it or when it differs from the last point kept by more
    than 1e-9 in x or in y; otherwise it is dropped, and the returned sequence
    ends with that last kept point, which is within 1e-9 of the final vertex
    in x and in y. *)
Theorem densify_polyline_final_vertex (vertices : list vertex) (step_m : Q) :
  (2 <= length vertices)%nat -> 0 < step_m ->
  let final := last vertices origin in
  let kept := dedup_pass (removelast (emitted vertices step_m)) in
  emitted vertices step_m = removelast (emitted vertices step_m) ++ [final]
  /\ ((kept = [] \/ far (last kept origin) final = true) ->
      densify_polyline vertices step_m = Ok (kept ++ [final]))
  /\ ((kept <> [] /\ far (last kept origin) final = false) ->
      densify_polyline vertices step_m = Ok kept
      /\ close (last kept origin) final).
Proof.
  intros Hlen Hs final kept.
  assert (E : emitted vertices step_m
              = removelast (emitted vertices step_m) ++ [final]).
  { unfold emitted at 2. rewrite removelast_last. reflexivity. }
  assert (D : dedup_pass (emitted vertices step_m) = dedup_step kept final).
  { rewrite E at 1. unfold dedup_pass. rewrite fold_left_app. reflexivity. }
  split; [exact E|]. rewrite densify_runs, D by assumption.
  unfold dedup_step. split.
  - intros [H|H].
    + rewrite H. reflexivity.
    + destruct kept; [reflexivity|]. now rewrite H.
  - intros [Hne H]. destruct kept; [contradiction|]. rewrite H.
    split; [reflexivity|]. now apply far_false_close.
Qed.

Lemma densify_polyline_final_vertex_witness :
  (2 <= length line_0_10)%nat /\ 0 < 5 # 1 /\
  emitted line_0_10 (5 # 1)
  = removelast (emitted line_0_10 (5 # 1)) ++ [(10 # 1, 0, Some (4 # 1))].
Proof.
  split; [simpl; lia|]. split; [reflexivity|].
  apply (densify_polyline_final_vertex line_0_10 (5 # 1)).
  - simpl. lia.
  - reflexivity.
Defined.

(** C8 as stated fails: the final vertex of (0,0) - (1,0) - (1 + 5e-10, 0)
    is dropped by the dedup pass, and the returned sequence ends with (1,0). *)
Lemma densify_polyline_final_vertex_counterexample :
  exists p q,
    densify_polyline
      [(0, 0, None); (1, 0, None); (10000000005 # 10000000000, 0, None)] 1
    = Ok [p; q]
    /\ vx q == 1
    /\ ~ vx q == vx (10000000005 # 10000000000, 0, None).
Proof.
  eexists _, _. split; [vm_compute; reflexivity|].
  split; [reflexivity|]. intros H. vm_compute in H. discriminate H.
Qed.

End DensifyFacts.

(** * Properties of [read_las_points_in_bbox] *)

Section CloudLasFacts.
Import Las Np CloudLas CloudLasSpec.

Lemma chunks_from_concat (n : Z) (pts cur : list LasPoint) :
  concat (chunks_from n cur pts) = cur ++ pts.
Proof.
  revert cur. induction pts as [|p pts IH]; intros cur; simpl.
  - destruct cur; simpl; now rewrite ?app_nil_r.
  - destruct (Z.of_nat (length (cur ++ [p])) =? n)%Z; simpl; rewrite IH.
    + now rewrite <- app_assoc.
    + now rewrite <- app_assoc.
Qed.

Lemma chunk_iterator_concat (lf : LasFile) (n : Z) :
  concat (chunk_iterator lf n) = points lf.
Proof. unfold chunk_iterator. apply chunks_from_concat. Qed.

Lemma select_map_filter {A B : Type} (f : A -> B) (m : A -> bool) (l : list A) :
  select (map f l) (map m l) = map f (filter m l).
Proof.
  induction l as [|a l IH]; simpl; [reflexivity|].
  destruct (m a); simpl; now rewrite IH.
Qed.

Lemma np_any_filter {A : Type} (m : A -> bool) (l : list A) :
  np_any (map m l) = negb (length (filter m l) =? 0)%nat.
Proof.
  unfold np_any. induction l as [|a l IH]; simpl; [reflexivity|].
  destruct (m a); simpl; [reflexivity|exact IH].
Qed.

Lemma total_size_from (arrays : list (list Q)) (acc : Z) :
  fold_left (fun acc a => (acc + Z.of_nat (length a))%Z) arrays acc
  = (acc + Z.of_nat (length (concat arrays)))%Z.
Proof.
  revert acc. induction arrays as [|a arrays IH]; intros acc; simpl.
  - lia.
  - rewrite IH, length_app. lia.
Qed.

Lemma total_size_holds (st : columns) (K : list (list LasPoint)) :
  holds st K -> total_size (xs st) = Z.of_nat (length (concat K)).
Proof.
  intros (Hx & _ & _). unfold total_size. rewrite total_size_from, Hx.
  rewrite <- concat_map, length_map. lia.
Qed.

Lemma filter_concat_length (b : bbox) (chunk : list LasPoint)
  (rest : list (list LasPoint)) :
  length (filter (mask b) (concat (chunk :: rest)))
  = (length (filter (mask b) chunk) + length (filter (mask b) (concat rest)))%nat.
Proof. simpl. now rewrite filter_app, length_app. Qed.

(** What the chunk loop retains: never more than the points inside the box;
    all of them unless the cap was met; something as soon as there is
    something to retain. *)
Lemma read_loop_retains (b : bbox) (max_points : option Z)
  (chunks : list (list LasPoint)) :
  forall (st : columns) (K : list (list LasPoint)),
  holds st K ->
  exists K',
    holds (read_loop b max_points chunks st) K' /\
    let before := length (concat K) in
    let inside := length (filter (mask b) (concat chunks)) in
    let after := length (concat K') in
    (after <= before + inside)%nat /\
    (after = before + inside \/
     exists cap, max_points = Some cap /\ (cap <= Z.of_nat after)%Z)%nat /\
    (K <> [] \/ 0 < inside -> K' <> [])%nat /\
    (inside = 0%nat -> K' = K).
Proof.
  induction chunks as [|pts rest IH]; intros st K HK.
  - exists K. split; [exact HK|]. simpl. split; [lia|]. split; [left; lia|].
    split; [|reflexivity]. intros [H|H]; [assumption|lia].
  - cbn [read_loop]. rewrite np_any_filter, negb_involutive.
    rewrite filter_concat_length.
    destruct (Nat.eqb_spec (length (filter (mask b) pts)) 0) as [E|E].
    + destruct (IH st K HK) as (K' & HK' & H1 & H2 & H3 & H4).
      exists K'. split; [exact HK'|]. cbv zeta in *. rewrite E. simpl. auto.
    + set (st' := {| xs := xs st ++ [select (map x pts) (map (mask b) pts)];
                     ys := ys st ++ [select (map y pts) (map (mask b) pts)];
                     zs := zs st ++ [select (map z pts) (map (mask b) pts)] |}).
      assert (HK1 : holds st' (K ++ [filter (mask b) pts])).
      { destruct HK as (Hx & Hy & Hz). unfold holds, st'. cbn [xs ys zs].
        rewrite !select_map_filter, !map_app, Hx, Hy, Hz. auto. }
      assert (Hlen : length (concat (K ++ [filter (mask b) pts]))
                     = (length (concat K) + length (filter (mask b) pts))%nat).
      { rewrite concat_app, length_app. simpl. now rewrite app_nil_r. }
      assert (Hstop :
        forall cap, (total_size (xs st') >=? cap)%Z = true ->
        exists K', holds st' K' /\
          let before := length (concat K) in
          let inside := (length (filter (mask b) pts)
                         + length (filter (mask b) (concat rest)))%nat in
          let after := length (concat K') in
          (after <= before + inside)%nat /\
          (after = before + inside \/
           exists cap', Some cap = Some cap' /\ (cap' <= Z.of_nat after)%Z)%nat /\
          (K <> [] \/ 0 < inside -> K' <> [])%nat /\
          (inside = 0%nat -> K' = K)).
      { intros cap Hge. exists (K ++ [filter (mask b) pts]).
        split; [exact HK1|]. cbv zeta. rewrite Hlen. split; [lia|]. split.
        - right. exists cap. split; [reflexivity|].
          rewrite (total_size_holds st' _ HK1), Hlen in Hge.
          apply Z.geb_le in Hge. lia.
        - split; [|lia]. intros _ H. apply app_eq_nil in H.
          destruct H; discriminate. }
      assert (Hgo :
        exists K', holds (read_loop b max_points rest st') K' /\
          let before := length (concat K) in
          let inside := (length (filter (mask b) pts)
                         + length (filter (mask b) (concat rest)))%nat in
          let after := length (concat K') in
          (after <= before + inside)%nat /\
          (after = before + inside \/
           exists cap, max_points = Some cap /\ (cap <= Z.of_nat after)%Z)%nat /\
          (K <> [] \/ 0 < inside -> K' <> [])%nat /\
          (inside = 0%nat -> K' = K)).
      { destruct (IH st' _ HK1) as (K' & HK' & H1 & H2 & H3 & _).
        exists K'. split; [exact HK'|]. cbv zeta in *. rewrite Hlen in *.
        split; [lia|]. split.
        - destruct H2 as [H2|H2]; [left; lia|right; exact H2].
        - split; [|lia]. intros _. apply H3. left. intros H.
          apply app_eq_nil in H. destruct H; discriminate. }
      destruct max_points as [cap|]; [|exact Hgo].
      fold st'. destruct (total_size (xs st') >=? cap)%Z eqn:Hge.
      * apply (Hstop cap Hge).
      * exact Hgo.
Qed.

Lemma column_stack_map (l : list LasPoint) :
  column_stack (map x l) (map y l) (map z l)
  = map (fun p => (x p, y p, z p)) l.
Proof.
  unfold column_stack. induction l as [|p l IH]; simpl; [reflexivity|].
  now rewrite IH.
Qed.

Lemma holds_points (st : columns) (K : list (list LasPoint)) :
  holds st K ->
  column_stack (concat (xs st)) (concat (ys st)) (concat (zs st))
  = map (fun p => (x p, y p, z p)) (concat K).
Proof.
  intros (Hx & Hy & Hz). rewrite Hx, Hy, Hz, <- !concat_map.
  apply column_stack_map.
Qed.

End CloudLasFacts.

Section ReaderClaims.
Import Las Np CloudLas CloudLasSpec.

(** The sampling routine returns as many indices as it is asked for. *)
Variable choice : Z -> nat -> nat -> list nat.
Hypothesis choice_size :
  forall state n k, (k <= n)%nat -> length (choice state n k) = k.

Lemma read_chunked_capped (chunk os_entropy : Z) (lf : LasFile) (b : bbox) (cap : Z) :
  (1 <= total_in_bbox lf b)%nat -> (0 <= cap)%Z ->
  exists pts,
    read_las_points_in_bbox_chunked choice chunk os_entropy lf b (Some cap) = Ok pts /\
    Z.of_nat (length pts) = Z.min (Z.of_nat (total_in_bbox lf b)) cap.
Proof.
  intros Htot Hcap. unfold read_las_points_in_bbox_chunked, total_in_bbox in *.
  destruct (read_loop_retains b (Some cap) (chunk_iterator lf chunk)
              {| xs := []; ys := []; zs := [] |} [])
    as (K' & HK' & H1 & H2 & H3 & _); [repeat split|].
  cbv zeta in H1, H2, H3. rewrite chunk_iterator_concat in H1, H2, H3.
  simpl in H1, H2, H3.
  set (st := read_loop b (Some cap) (chunk_iterator lf chunk)
               {| xs := []; ys := []; zs := [] |}) in *.
  rewrite (holds_points st K' HK'), length_map.
  assert (Hne : K' <> []) by (apply H3; right; lia).
  destruct (xs st) eqn:Ex.
  { destruct HK' as (Hx & _). rewrite Ex in Hx. destruct K'; [contradiction|discriminate]. }
  set (R := length (concat K')) in *.
  destruct (Z.gtb_spec (Z.of_nat R) cap) as [Hgt|Hle].
  - unfold rng_choice.
    destruct (Z.ltb_spec cap 0) as [?|_]; [lia|].
    destruct (Z.ltb_spec (Z.of_nat R) cap) as [?|_]; [lia|].
    cbn [bind]. eexists. split; [reflexivity|].
    unfold take. rewrite length_map, choice_size by lia. lia.
  - eexists. split; [reflexivity|]. rewrite length_map. fold R.
    destruct H2 as [H2|(cap' & E & H2)]; [lia|]. injection E as <-. lia.
Qed.

(** C3 (amended).  For a cloud with at least one point inside the box and a
    cap [max_points >= 0], the bounded reader returns exactly
    min(total_in_bbox, max_points) points, and two runs on the same inputs
    return the same array whatever randomness the system offers: the
    generator is seeded with the constant 0. *)
Theorem read_las_points_in_bbox_capped_count (lf : LasFile) (b : bbox) (cap : Z) :
  (1 <= total_in_bbox lf b)%nat -> (0 <= cap)%Z ->
  forall os_entropy1 os_entropy2 : Z,
  exists pts,
    read_las_points_in_bbox choice os_entropy1 lf b (Some cap) = Ok pts /\
    read_las_points_in_bbox choice os_entropy2 lf b (Some cap) = Ok pts /\
    Z.of_nat (length pts) = Z.min (Z.of_nat (total_in_bbox lf b)) cap.
Proof.
  intros Htot Hcap e1 e2.
  destruct (read_chunked_capped 2000000 e1 lf b cap Htot Hcap) as (pts & E & Hn).
  exists pts. split; [exact E|]. split; [exact E|exact Hn].
Qed.


End ReaderClaims.

Section ReaderExamples.
Import Las Np CloudLas CloudLasSpec.

Lemma read_las_points_in_bbox_capped_count_witness :
  (forall state n k, (k <= n)%nat -> length (first_indices state n k) = k) /\
  (1 <= total_in_bbox small_cloud strip_box)%nat /\ (0 <= 2)%Z /\
  exists pts,
    read_las_points_in_bbox first_indices 7 small_cloud strip_box (Some 2%Z)
    = Ok pts /\
    read_las_points_in_bbox first_indices 11 small_cloud strip_box (Some 2%Z)
    = Ok pts /\
    Z.of_nat (length pts)
    = Z.min (Z.of_nat (total_in_bbox small_cloud strip_box)) 2.
Proof.
  assert (H : forall state n k, (k <= n)%nat -> length (first_indices state n k) = k)
    by (intros; apply length_seq).
  split; [exact H|]. split; [vm_compute; lia|]. split; [lia|].
  apply (read_las_points_in_bbox_capped_count first_indices H small_cloud
           strip_box 2).
  - vm_compute. lia.
  - lia.
Defined.


(** C3 as first stated fails for a cap below zero, which the command line
    lets through: three points are inside the box, the loop leaves after
    the first chunk, and numpy's [choice] refuses the negative size; no array
    of min(3, -1) points is returned. *)
Lemma read_las_points_in_bbox_negative_cap_counterexample :
  (1 <= total_in_bbox small_cloud strip_box)%nat /\
  read_las_points_in_bbox first_indices 7 small_cloud strip_box (Some (-1)%Z)
  = Err (ValueError "negative dimensions are not allowed") /\
  ~ exists pts,
      read_las_points_in_bbox first_indices 7 small_cloud strip_box (Some (-1)%Z)
      = Ok pts.
Proof.
  split; [vm_compute; lia|]. split; [reflexivity|].
  intros (pts & E). discriminate E.
Qed.

(** Reading stops early: with chunks of two points and a cap of one, the
    loop leaves after the first chunk, whose two points are inside the box,
    and the subsample keeps one of them. *)
Example read_las_points_in_bbox_stops_early :
  xs (read_loop strip_box (Some 1%Z) (chunk_iterator small_cloud 2)
        {| xs := []; ys := []; zs := [] |}) = [[0; 5 # 1]] /\
  read_las_points_in_bbox_chunked first_indices 2 7 small_cloud strip_box (Some 1%Z)
  = Ok [(0, 0, 1)].
Proof. split; reflexivity. Qed.

End ReaderExamples.

(** * Properties of [_write_combined_las_with_cad_points] *)

Section PipelineFacts.
Import Las Np Pipeline PipelineSpec.

Local Open Scope Z_scope.

Lemma read_chunks_fold (hdr : LasHeader) (chunks : list (list LasPoint))
  (st : base_chunks) :
  let st' := fold_left (read_chunk hdr) chunks st in
  chunks_xyz st' = chunks_xyz st ++ map (map source_xyz) chunks /\
  chunks_rgb st' = chunks_rgb st
                   ++ (if has_rgb (point_format hdr)
                       then map (map source_rgb) chunks else []).
Proof.
  revert st. induction chunks as [|pts chunks IH]; intros st; cbn [fold_left].
  - cbv zeta. destruct (has_rgb _); now rewrite !app_nil_r.
  - destruct (IH (read_chunk hdr st pts)) as [Hx Hc]. cbv zeta in *.
    rewrite Hx, Hc. unfold read_chunk.
    assert (Ex : column_stack (map x pts) (map y pts) (map z pts)
                 = map source_xyz pts) by apply column_stack_map.
    assert (Ec : column_stack (map red pts) (map green pts) (map blue pts)
                 = map source_rgb pts).
    { unfold column_stack, source_rgb. clear. induction pts as [|p pts IH];
        simpl; [reflexivity|now rewrite IH]. }
    rewrite Ex, Ec.
    destruct (has_rgb (point_format hdr)); cbn [chunks_xyz chunks_rgb map];
      rewrite <- !app_assoc; split; reflexivity.
Qed.

Lemma widen_scales (c : byte) :
  widen c = 257 * Z.of_N (Byte.to_N c) /\
  0 <= widen c < 2 ^ 16 /\
  widen c / 257 = Z.of_N (Byte.to_N c).
Proof.
  unfold widen. pose proof (Byte.to_N_bounded c) as Hb.
  set (v := Z.of_N (Byte.to_N c)).
  assert (Hv : 0 <= v <= 255) by (unfold v; lia).
  rewrite Z.mod_small by lia.
  split; [lia|]. split; [lia|]. apply Z.div_mul. lia.
Qed.

Lemma assign_rows_suffix {A : Type} (head tail rows : list A) :
  length tail = length rows ->
  assign_rows (head ++ tail) (length head) rows = head ++ rows.
Proof.
  intros H. unfold assign_rows.
  rewrite firstn_app, firstn_all, Nat.sub_diag, firstn_O, app_nil_r.
  rewrite skipn_all2 by (rewrite length_app; lia).
  now rewrite app_nil_r.
Qed.

Lemma assign_rows_prefix {A : Type} (d : A) (rows : list A) (m : nat) :
  assign_rows (repeat d (length rows + m)) 0 rows = rows ++ repeat d m.
Proof.
  unfold assign_rows. rewrite firstn_O. cbn [app Nat.add].
  rewrite repeat_app, skipn_app, repeat_length, Nat.sub_diag.
  rewrite skipn_all2 by (rewrite repeat_length; lia).
  reflexivity.
Qed.

Lemma fill_rgb_zero (flag : bool) (N M : nat) (cad : list rgb_u8) :
  length cad = M ->
  assign_rows (repeat (0, 0, 0) (N + M)) N (map widen_row cad)
  = repeat (0, 0, 0) N ++ map widen_row cad.
Proof.
  intros H. rewrite repeat_app.
  pose proof (assign_rows_suffix (repeat (0, 0, 0) N) (repeat (0, 0, 0) M)
                (map widen_row cad)) as E.
  rewrite !repeat_length in E. apply E. rewrite length_map. lia.
Qed.

Lemma fill_rgb_none (flag : bool) (N : nat) (cad : list rgb_u8) :
  fill_rgb flag None N (length cad) cad
  = repeat (0, 0, 0) N ++ map widen_row cad.
Proof. unfold fill_rgb. now apply fill_rgb_zero. Qed.

Lemma fill_rgb_some (base : list rgb_u16) (cad : list rgb_u8) :
  fill_rgb true (Some base) (length base) (length cad) cad
  = base ++ map widen_row cad.
Proof.
  unfold fill_rgb. rewrite Nat.eqb_refl. cbn [andb].
  rewrite assign_rows_prefix.
  apply assign_rows_suffix. rewrite repeat_length, length_map. lia.
Qed.

(** ** The stored coordinates *)

Lemma np_round_int (q : Q) (n : Z) : (q == inject_Z n)%Q -> np_round q = n.
Proof.
  intros E. unfold np_round.
  assert (F : Qfloor q = n).
  { transitivity (Qfloor (inject_Z n)); [apply Qfloor_comp, E|apply Qfloor_Z]. }
  rewrite F.
  assert (L : (q - inject_Z n < 1 # 2)%Q) by (rewrite E; lra).
  destruct (q - inject_Z n ?= 1 # 2)%Q eqn:C; [|reflexivity|].
  - apply Qeq_alt in C. lra.
  - apply Qgt_alt in C. lra.
Qed.

Lemma np_round_near (q : Q) :
  (q - (1 # 2) <= inject_Z (np_round q) <= q + (1 # 2))%Q.
Proof.
  unfold np_round.
  pose proof (Qfloor_le q) as Hlo. pose proof (Qlt_floor q) as Hhi.
  set (f := Qfloor q) in *.
  rewrite inject_Z_plus in Hhi. change (inject_Z 1) with 1%Q in Hhi.
  assert (E1 : (inject_Z (f + 1) == inject_Z f + 1)%Q).
  { rewrite inject_Z_plus. reflexivity. }
  destruct (q - inject_Z f ?= 1 # 2)%Q eqn:C.
  - apply Qeq_alt in C.
    destruct (Z.even f); [|rewrite E1]; split; lra.
  - apply Qlt_alt in C. split; lra.
  - apply Qgt_alt in C. rewrite E1. split; lra.
Qed.

Lemma remove_apply_scale (scale offset v : Q) (X : Z) :
  (0 < scale)%Q -> (v == _apply_scale scale offset X)%Q ->
  _remove_scale scale offset v = X.
Proof.
  intros Hs E. unfold _remove_scale. apply np_round_int.
  rewrite E. unfold _apply_scale. field. lra.
Qed.

Lemma read_back_near (scale offset v : Q) :
  (0 < scale)%Q ->
  (Qabs (read_back scale offset v - v) <= scale / (2 # 1))%Q.
Proof.
  intros Hs. unfold read_back, stored, _apply_scale, _remove_scale.
  set (t := ((v - offset) / scale)%Q).
  destruct (np_round_near t) as [Hlo Hhi].
  set (r := inject_Z (np_round t)) in *.
  assert (Et : (v == t * scale + offset)%Q) by (unfold t; field; lra).
  apply Qabs_Qle_condition.
  assert (P1 : (0 <= (r - (t - (1 # 2))) * scale)%Q)
    by (apply Qmult_le_0_compat; lra).
  assert (P2 : (0 <= (t + (1 # 2) - r) * scale)%Q)
    by (apply Qmult_le_0_compat; lra).
  clearbody r t. rewrite Et.
  assert (Eh : (scale / (2 # 1) == scale * (1 # 2))%Q) by (field; discriminate).
  rewrite Eh. split; lra.
Qed.

Lemma np_max_in (v : Q) (rest : list Q) : In (np_max v rest) (v :: rest).
Proof.
  unfold np_max. revert v. induction rest as [|a rest IH]; intros v.
  - now left.
  - cbn [fold_left]. destruct (IH (if Qle_bool a v then v else a)) as [E|H].
    + rewrite <- E. destruct (Qle_bool a v); [now left|right; now left].
    + right. now right.
Qed.

Lemma np_min_in (v : Q) (rest : list Q) : In (np_min v rest) (v :: rest).
Proof.
  unfold np_min. revert v. induction rest as [|a rest IH]; intros v.
  - now left.
  - cbn [fold_left]. destruct (IH (if Qle_bool v a then v else a)) as [E|H].
    + rewrite <- E. destruct (Qle_bool v a); [now left|right; now left].
    + right. now right.
Qed.

Lemma in_int32_bounds (v : Z) :
  ZAssign.in_int32 v = true <-> -2147483648 <= v <= 2147483647.
Proof.
  unfold ZAssign.in_int32. rewrite andb_true_iff, Z.leb_le, Z.ltb_lt.
  change (2 ^ 31) with 2147483648. lia.
Qed.

(** The store succeeds when every value fits, and keeps every value
    rounded. *)
Lemma scaled_setitem_ok (oor : Z -> Z) (scale offset : Q) (value : list Q) :
  value <> [] ->
  Forall (fun a => ZAssign.in_int32 (_remove_scale scale offset a) = true) value ->
  scaled_setitem oor scale offset value
  = Ok (map (_remove_scale scale offset) value).
Proof.
  intros Hne Hfit. destruct value as [|v rest]; [contradiction|].
  unfold scaled_setitem. rewrite Forall_forall in Hfit.
  pose proof (Hfit _ (np_max_in v rest)) as Hmax.
  pose proof (Hfit _ (np_min_in v rest)) as Hmin.
  apply in_int32_bounds in Hmax, Hmin.
  destruct (Z.gtb_spec (_remove_scale scale offset (np_max v rest)) 2147483647);
    [lia|].
  destruct (Z.ltb_spec (_remove_scale scale offset (np_min v rest)) (-2147483648));
    [lia|].
  f_equal. apply map_ext_in. intros a Ha.
  unfold ZAssign.astype_int32. now rewrite (Hfit a Ha).
Qed.

Lemma column_stack_quantise (hdr : LasHeader) (pts : list (Q * Q * Q)) :
  let '(sx, sy, sz) := scales hdr in
  let '(ox, oy, oz) := offsets hdr in
  column_stack
    (map (_apply_scale sx ox)
       (map (_remove_scale sx ox) (map (fun p => fst (fst p)) pts)))
    (map (_apply_scale sy oy)
       (map (_remove_scale sy oy) (map (fun p => snd (fst p)) pts)))
    (map (_apply_scale sz oz) (map (_remove_scale sz oz) (map snd pts)))
  = map (quantise hdr) pts.
Proof.
  unfold quantise.
  destruct (scales hdr) as [[sx sy] sz]. destruct (offsets hdr) as [[ox oy] oz].
  unfold column_stack. induction pts as [|p pts IH]; [reflexivity|].
  cbn [map combine]. now rewrite IH.
Qed.

(** C2 (amended).  For a cloud of N points, each on the grid of 32-bit
    integers that the scales and offsets of the header span, and M appended
    points with M colours whose coordinates round to 32-bit integers on that
    grid, N + M being at least 1; the scales positive, the version of the
    source having the point format of the output, and the colour dimensions
    of the source, when it has them, being those of its point format: the
    merged record holds N + M points, the originals first and unchanged, then
    the appended ones, each coordinate moved to the nearest point of the grid,
    half a step away at most.  The original points are black when the point
    format of the source has no colour dimensions and keep their colours when
    it has; each appended point carries its colour in 16 bits, every channel
    c stored as 257 * c, from which c is recovered by dividing by 257. *)
Theorem merged_cloud_points_and_colours
  (is_point_fmt_compatible_with_version : Z -> Z * Z -> bool)
  (out_of_range_int32 : Z -> Z) (lf : LasFile)
  (cad_pts_xyz : list (Q * Q * Q)) (cad_rgbs_u8 : list rgb_u8) :
  let hdr := header lf in
  length cad_rgbs_u8 = length cad_pts_xyz ->
  (1 <= length (points lf) + length cad_pts_xyz)%nat ->
  is_point_fmt_compatible_with_version (output_format (point_format hdr))
    (version hdr) = true ->
  rgb_format (output_format (point_format hdr)) = true ->
  positive_scales hdr ->
  Forall (fun p => on_grid hdr (source_xyz p)) (points lf) ->
  Forall (fits hdr) cad_pts_xyz ->
  exists out,
    _write_combined_las_with_cad_points is_point_fmt_compatible_with_version
      out_of_range_int32 lf cad_pts_xyz cad_rgbs_u8 = Ok out /\
    out_xyz out
    = map (quantise hdr) (map source_xyz (points lf)) ++
      map (quantise hdr) cad_pts_xyz /\
    Forall (fun p => same_point (quantise hdr (source_xyz p)) (source_xyz p))
           (points lf) /\
    Forall (fun c => within_half_step hdr c (quantise hdr c)) cad_pts_xyz /\
    out_rgb out
    = (if has_rgb (point_format hdr)
       then map source_rgb (points lf)
       else repeat (0, 0, 0) (length (points lf)))
      ++ map widen_row cad_rgbs_u8 /\
    length (out_xyz out) = (length (points lf) + length cad_pts_xyz)%nat /\
    length (out_rgb out) = (length (points lf) + length cad_pts_xyz)%nat /\
    (forall c : byte,
       widen c = 257 * Z.of_N (Byte.to_N c) /\
       0 <= widen c < 2 ^ 16 /\
       widen c / 257 = Z.of_N (Byte.to_N c)).
Proof.
  cbv zeta. intros Hlen Hone Hcompat Hfmt Hpos Hgrid Hfits.
  unfold _write_combined_las_with_cad_points,
    _write_combined_las_with_cad_points_chunked.
  rewrite Hlen, Nat.eqb_refl. cbn [negb].
  destruct (read_chunks_fold (header lf) (chunk_iterator lf 2000000)
              {| chunks_xyz := []; chunks_rgb := [] |}) as [Hx Hc].
  cbv zeta in Hx, Hc. cbn [chunks_xyz chunks_rgb app] in Hx, Hc.
  rewrite Hx, Hc, <- concat_map, chunk_iterator_concat, length_map, <- Hlen.
  fold (output_format (point_format (header lf))).
  rewrite Hcompat. cbn [negb].
  assert (Hrgb :
    fill_rgb (has_rgb (point_format (header lf)))
      match (if has_rgb (point_format (header lf))
             then map (map source_rgb) (chunk_iterator lf 2000000)
             else []) with
      | [] => None
      | _ :: _ =>
          Some (concat (if has_rgb (point_format (header lf))
                        then map (map source_rgb) (chunk_iterator lf 2000000)
                        else []))
      end
      (length (points lf)) (length cad_rgbs_u8) cad_rgbs_u8
    = (if has_rgb (point_format (header lf))
       then map source_rgb (points lf)
       else repeat (0, 0, 0) (length (points lf)))
      ++ map widen_row cad_rgbs_u8).
  { destruct (has_rgb (point_format (header lf))) eqn:Hh.
    - destruct (map (map source_rgb) (chunk_iterator lf 2000000)) eqn:Ech.
      + rewrite fill_rgb_none.
        assert (Hp : points lf = []).
        { rewrite <- (chunk_iterator_concat lf 2000000).
          apply (f_equal (@concat _)) in Ech. rewrite <- concat_map in Ech.
          simpl in Ech. apply map_eq_nil in Ech. exact Ech. }
        now rewrite Hp.
      + rewrite <- Ech, <- concat_map, chunk_iterator_concat.
        rewrite <- (length_map source_rgb (points lf)).
        apply fill_rgb_some.
    - apply fill_rgb_none. }
  rewrite Hrgb. unfold set_rgb. rewrite Hfmt.
  pose proof (column_stack_quantise (header lf)
                (map source_xyz (points lf) ++ cad_pts_xyz)) as Hq.
  set (all_xyz := map source_xyz (points lf) ++ cad_pts_xyz) in *.
  assert (Hall : all_xyz <> []).
  { intros E. apply (f_equal (@length _)) in E.
    unfold all_xyz in E. rewrite length_app, length_map in E. simpl in E. lia. }
  assert (Hsame : Forall (fun p => same_point (quantise (header lf) (source_xyz p))
                                     (source_xyz p)) (points lf)).
  { rewrite Forall_forall in *. intros p Hp. specialize (Hgrid p Hp).
    unfold on_grid, quantise, positive_scales, same_point in *.
    destruct (scales (header lf)) as [[sx sy] sz].
    destruct (offsets (header lf)) as [[ox oy] oz].
    destruct Hpos as (Px & Py & Pz).
    destruct Hgrid as (X & Y & Z & _ & _ & _ & Ex & Ey & Ez).
    unfold read_back, stored. cbn [fst snd].
    rewrite (remove_apply_scale sx ox _ X Px Ex),
      (remove_apply_scale sy oy _ Y Py Ey), (remove_apply_scale sz oz _ Z Pz Ez).
    repeat split; symmetry; assumption. }
  assert (Hnear : Forall (fun c => within_half_step (header lf) c
                                     (quantise (header lf) c)) cad_pts_xyz).
  { rewrite Forall_forall. intros c _.
    unfold within_half_step, quantise, positive_scales in *.
    destruct (scales (header lf)) as [[sx sy] sz].
    destruct (offsets (header lf)) as [[ox oy] oz].
    destruct Hpos as (Px & Py & Pz). cbn [fst snd].
    repeat split; now apply read_back_near. }
  assert (Hin : Forall (fits (header lf)) all_xyz).
  { unfold all_xyz. apply Forall_app. split; [|exact Hfits].
    rewrite Forall_forall in *. intros q Hq'. apply in_map_iff in Hq'.
    destruct Hq' as (p & <- & Hp). specialize (Hgrid p Hp).
    unfold on_grid, fits, positive_scales, stored in *.
    destruct (scales (header lf)) as [[sx sy] sz].
    destruct (offsets (header lf)) as [[ox oy] oz].
    destruct Hpos as (Px & Py & Pz).
    destruct Hgrid as (X & Y & Z & Ix & Iy & Iz & Ex & Ey & Ez).
    rewrite (remove_apply_scale sx ox _ X Px Ex),
      (remove_apply_scale sy oy _ Y Py Ey), (remove_apply_scale sz oz _ Z Pz Ez).
    auto. }
  unfold fits, stored in Hin.
  destruct (scales (header lf)) as [[sx sy] sz] eqn:Es.
  destruct (offsets (header lf)) as [[ox oy] oz] eqn:Eo.
  rewrite (scaled_setitem_ok _ sx ox), (scaled_setitem_ok _ sy oy),
    (scaled_setitem_ok _ sz oz).
  2-7: try (intros E; apply map_eq_nil in E; contradiction).
  2-4: rewrite Forall_forall in *; intros a Ha; apply in_map_iff in Ha;
       destruct Ha as (p & <- & Hp); apply (Hin p Hp).
  cbn [bind]. eexists. split; [reflexivity|].
  unfold out_xyz. cbn [out_scales out_offsets out_X out_Y out_Z out_rgb].
  cbv beta iota in Hq. cbv beta iota. rewrite Hq. unfold all_xyz.
  rewrite map_app.
  split; [reflexivity|]. split; [exact Hsame|]. split; [exact Hnear|].
  split; [reflexivity|].
  split; [rewrite length_app, !length_map, Hlen; reflexivity|].
  split; [|exact widen_scales].
  rewrite length_app, length_map, Hlen.
  destruct (has_rgb _); [rewrite length_map|rewrite repeat_length]; reflexivity.
Qed.

Lemma merged_cloud_points_and_colours_witness :
  exists out,
    _write_combined_las_with_cad_points las_point_formats
      (fun _ => 0) CloudLasSpec.small_cloud three_cad_points three_reds = Ok out /\
    out_xyz out
    = map (quantise (header CloudLasSpec.small_cloud))
        (map source_xyz (points CloudLasSpec.small_cloud)) ++
      map (quantise (header CloudLasSpec.small_cloud)) three_cad_points /\
    out_rgb out = repeat (0, 0, 0) 4 ++ repeat (65535, 0, 0) 3 /\
    length (out_xyz out) = 7%nat.
Proof.
  destruct (merged_cloud_points_and_colours las_point_formats (fun _ => 0)
              CloudLasSpec.small_cloud three_cad_points three_reds)
    as (out & E & Hxyz & _ & _ & Hrgb & Hn & _).
  - reflexivity.
  - simpl. lia.
  - reflexivity.
  - reflexivity.
  - vm_compute. repeat split; reflexivity.
  - repeat apply Forall_cons; [| | | |apply Forall_nil].
    + cbv beta iota delta [on_grid CloudLasSpec.small_cloud header scales offsets].
      exists 0, 0, 100. repeat split; vm_compute; reflexivity.
    + cbv beta iota delta [on_grid CloudLasSpec.small_cloud header scales offsets].
      exists 500, 0, 200. repeat split; vm_compute; reflexivity.
    + cbv beta iota delta [on_grid CloudLasSpec.small_cloud header scales offsets].
      exists 1000, 0, 300. repeat split; vm_compute; reflexivity.
    + cbv beta iota delta [on_grid CloudLasSpec.small_cloud header scales offsets].
      exists 500, 1000, 10000. repeat split; vm_compute; reflexivity.
  - apply Forall_forall. intros p Hp.
    repeat (destruct Hp as [<-|Hp]; [vm_compute; repeat split; reflexivity|]).
    contradiction.
  - exists out. split; [exact E|]. split; [exact Hxyz|]. split; [exact Hrgb|exact Hn].
Defined.

(** C2 as first stated fails.  A boundary point a million kilometres east of
    a cloud stored in centimetres has no 32-bit integer: with one colour for
    the one point, laspy raises [OverflowError] and there is no merged
    cloud. *)
Lemma merged_cloud_overflow_counterexample :
  length one_red = length far_cad_point /\
  (exists msg,
     _write_combined_las_with_cad_points las_point_formats (fun _ => 0)
       CloudLasSpec.small_cloud far_cad_point one_red
     = Err (OverflowError msg)) /\
  ~ exists out,
      _write_combined_las_with_cad_points las_point_formats (fun _ => 0)
        CloudLasSpec.small_cloud far_cad_point one_red = Ok out.
Proof.
  split; [reflexivity|]. split.
  - eexists. vm_compute. reflexivity.
  - intros (out & E). vm_compute in E. discriminate E.
Qed.

(** A boundary point that is not on the grid is moved onto it: over the
    centimetre grid of [small_cloud], x = 0.001 comes back as 0. *)
Example merged_cloud_rounds_to_grid :
  exists out,
    _write_combined_las_with_cad_points las_point_formats (fun _ => 0)
      CloudLasSpec.small_cloud off_grid_cad_point one_red = Ok out /\
    exists p, nth_error (out_xyz out) 4 = Some p /\
              (fst (fst p) == 0)%Q /\ ~ (fst (fst p) == 1 # 1000)%Q.
Proof.
  eexists. split; [vm_compute; reflexivity|].
  eexists. split; [vm_compute; reflexivity|].
  split; [reflexivity|]. intros H. vm_compute in H. discriminate H.
Qed.

End PipelineFacts.

(** * Properties of the grid index and of the Z assignment *)

Section SortingFacts.
Context {A : Type} (leb : A -> A -> bool).
Hypothesis leb_total : forall a b, leb a b = true \/ leb b a = true.

Let le (a b : A) : Prop := leb a b = true.

Lemma insert_sorted_perm (v : A) (l : list A) :
  Permutation (ZAssign.insert_sorted leb v l) (v :: l).
Proof.
  induction l as [|w l IH]; simpl; [reflexivity|].
  destruct (leb v w); [reflexivity|].
  rewrite IH. apply perm_swap.
Qed.

Lemma isort_perm (l : list A) : Permutation (ZAssign.isort leb l) l.
Proof.
  induction l as [|v l IH]; simpl; [reflexivity|].
  rewrite insert_sorted_perm. now constructor.
Qed.

Lemma insert_sorted_sorted (v : A) (l : list A) :
  Sorted le l -> Sorted le (ZAssign.insert_sorted leb v l).
Proof.
  induction l as [|w l IH]; intros Hs; simpl.
  - repeat constructor.
  - destruct (leb v w) eqn:E.
    + constructor; [assumption|]. constructor. exact E.
    + apply Sorted_inv in Hs. destruct Hs as [Hs Hd].
      constructor; [apply IH; assumption|].
      destruct l as [|u l]; simpl.
      * constructor. destruct (leb_total v w) as [H|H]; [congruence|exact H].
      * apply HdRel_inv in Hd. destruct (leb v u).
        -- constructor. destruct (leb_total v w) as [H|H]; [congruence|exact H].
        -- constructor. exact Hd.
Qed.

Lemma isort_sorted (l : list A) : Sorted le (ZAssign.isort leb l).
Proof.
  induction l as [|v l IH]; simpl; [constructor|].
  now apply insert_sorted_sorted.
Qed.

End SortingFacts.

Section GridFacts.
Import Np ZAssign ZAssignSpec.

Local Open Scope Z_scope.

(** ** [np.unique] on a sorted array *)

Lemma filter_all_false {A : Type} (f : A -> bool) (l : list A) :
  Forall (fun a => f a = false) l -> filter f l = [].
Proof.
  induction 1 as [|a l Ha _ IH]; simpl; [reflexivity|]. now rewrite Ha.
Qed.

Lemma sorted_tail_ge (v : Z) (t : list Z) :
  StronglySorted Z.le (v :: t) -> Forall (fun w => v <= w) t.
Proof. intros H. apply StronglySorted_inv in H. apply H. Qed.

Lemma unique_from_spec (ks : list Z) :
  StronglySorted Z.le ks ->
  forall pos,
    Forall (run_ok pos ks) (unique_from pos ks) /\
    StronglySorted Z.lt (map (fun r => fst (fst r)) (unique_from pos ks)) /\
    (forall v, In v ks -> In v (map (fun r => fst (fst r)) (unique_from pos ks))) /\
    (forall v t, ks = v :: t ->
       exists c r, unique_from pos ks = (v, pos, c) :: r).
Proof.
  induction ks as [|v t IH]; intros Hs pos.
  - simpl. repeat split; try constructor; try contradiction; discriminate.
  - pose proof (sorted_tail_ge v t Hs) as Hge.
    apply StronglySorted_inv in Hs. destruct Hs as [Hs _].
    destruct (IH Hs (S pos)) as (Hok & Hlt & Hin & Hhd). clear IH.
    cbn [unique_from].
    destruct (unique_from (S pos) t) as [|[[u s] c] r] eqn:Eu.
    + (* [t] is empty *)
      assert (Et : t = []).
      { destruct t as [|w t]; [reflexivity|].
        specialize (Hin w (or_introl eq_refl)). contradiction. }
      subst t. repeat split.
      * constructor; [|constructor]. simpl.
        rewrite Z.ltb_irrefl, Z.eqb_refl. simpl. lia.
      * repeat constructor.
      * intros w [<-|[]]. now left.
      * intros v' t' E. injection E as <- <-. eauto.
    + (* the first run of [t] starts at [S pos] with the head of [t] *)
      destruct t as [|w t]; [discriminate Eu|].
      destruct (Hhd w t eq_refl) as (c' & r' & E'). injection E' as -> -> <- <-.
      clear Hhd.
      assert (Hvw : v <= w) by (inversion Hge; assumption).
      apply Forall_cons_iff in Hok. destruct Hok as [Hw Hr].
      cbn [map fst] in Hlt.
      pose proof (StronglySorted_inv Hlt) as [Hlt' Hall].
      assert (Hrest : forall q, In q r ->
                v < fst (fst q) /\ run_ok pos (v :: w :: t) q).
      { intros [[x sx] cx] Hq.
        assert (Hx : w < x).
        { rewrite Forall_forall in Hall. apply Hall.
          apply (in_map (fun r => fst (fst r))) in Hq. exact Hq. }
        rewrite Forall_forall in Hr. specialize (Hr _ Hq).
        cbn [fst]. split; [lia|].
        unfold run_ok in *. destruct Hr as (H1 & H2 & H3).
        cbn [filter].
        destruct (Z.ltb_spec v x) as [_|?]; [|lia].
        destruct (Z.eqb_spec v x) as [?|_]; [lia|].
        cbn [filter] in H1, H2. cbn [length].
        split; [lia|]. split; assumption. }
      destruct (Z.eqb_spec v w) as [Evw|Nvw].
      * subst w. repeat split.
        -- constructor.
           ++ unfold run_ok in *. destruct Hw as (H1 & H2 & H3).
              cbn [filter] in *. rewrite Z.ltb_irrefl, Z.eqb_refl in *.
              cbn [length] in *. split; [lia|]. split; lia.
           ++ rewrite Forall_forall. intros q Hq. apply (Hrest q Hq).
        -- cbn [map fst]. exact Hlt.
        -- intros x [<-|Hx]; [now left|]. apply (Hin x Hx).
        -- intros v' t' E. injection E as <- <-. eauto.
      * assert (Hlt_vw : v < w) by lia.
        repeat split.
        -- constructor.
           ++ unfold run_ok. cbn [filter].
              rewrite Z.ltb_irrefl, Z.eqb_refl.
              destruct (Z.ltb_spec w v) as [?|_]; [lia|].
              destruct (Z.eqb_spec w v) as [?|_]; [lia|].
              assert (F1 : filter (fun y => y <? v) t = []).
              { apply filter_all_false. apply sorted_tail_ge in Hs.
                rewrite Forall_forall in *. intros y Hy.
                specialize (Hs y Hy). apply Z.ltb_ge. lia. }
              assert (F2 : filter (fun y => y =? v) t = []).
              { apply filter_all_false. apply sorted_tail_ge in Hs.
                rewrite Forall_forall in *. intros y Hy.
                specialize (Hs y Hy). apply Z.eqb_neq. lia. }
              rewrite F1, F2. simpl. lia.
           ++ constructor.
              ** unfold run_ok in *. destruct Hw as (H1 & H2 & H3).
                 cbn [filter] in *.
                 destruct (Z.ltb_spec v w) as [_|?]; [|lia].
                 destruct (Z.eqb_spec v w) as [?|_]; [lia|].
                 rewrite Z.ltb_irrefl, Z.eqb_refl in *. cbn [length] in *.
                 split; [lia|]. split; lia.
              ** rewrite Forall_forall. intros q Hq. apply (Hrest q Hq).
        -- cbn [map fst]. constructor; [exact Hlt|].
           constructor; [exact Hlt_vw|].
           rewrite Forall_forall in *. intros x Hx. specialize (Hall x Hx). lia.
        -- intros x [<-|Hx]; [now left|]. right. apply (Hin x Hx).
        -- intros v' t' E. injection E as <- <-. eauto.
Qed.

(** ** [np.searchsorted] on the distinct keys *)

Lemma searchsorted_found (u : list Z) (k : Z) :
  StronglySorted Z.lt u -> In k u ->
  (searchsorted u k < length u)%nat /\ nth (searchsorted u k) u 0 = k.
Proof.
  induction u as [|w u IH]; intros Hs Hin; [contradiction|].
  pose proof (StronglySorted_inv Hs) as [Hs' Hall].
  cbn [searchsorted]. destruct (Z.ltb_spec w k) as [Hlt|Hge].
  - destruct Hin as [->|Hin]; [lia|].
    destruct (IH Hs' Hin) as [H1 H2]. cbn [length nth]. split; [lia|exact H2].
  - assert (w = k).
    { destruct Hin as [E|Hin]; [exact E|].
      rewrite Forall_forall in Hall. specialize (Hall k Hin). lia. }
    subst. cbn [length nth]. split; [lia|reflexivity].
Qed.

(** ** Slices of the sorted array of pairs *)

Lemma by_key_sorted_ge (p : Z * nat) (L : list (Z * nat)) :
  StronglySorted (fun a b => fst a <= fst b) (p :: L) ->
  Forall (fun q => fst p <= fst q) L.
Proof. intros H. apply StronglySorted_inv in H. apply H. Qed.

Lemma slice_run (L : list (Z * nat)) (k : Z) :
  StronglySorted (fun a b => fst a <= fst b) L ->
  slice (map snd L)
        (length (filter (fun w => w <? k) (map fst L)))
        (length (filter (fun w => w =? k) (map fst L)))
  = map snd (filter (fun p => fst p =? k) L).
Proof.
  unfold slice. induction L as [|[w i] L IH]; intros Hs; [reflexivity|].
  pose proof (by_key_sorted_ge _ _ Hs) as Hge. cbn [fst] in Hge.
  apply StronglySorted_inv in Hs. destruct Hs as [Hs _].
  specialize (IH Hs). cbn [map filter fst snd].
  destruct (Z.ltb_spec w k) as [Hlt|Hnlt].
  - destruct (Z.eqb_spec w k) as [?|_]; [lia|]. cbn [length skipn]. exact IH.
  - assert (F1 : filter (fun y => y <? k) (map fst L) = []).
    { apply filter_all_false. rewrite Forall_map.
      rewrite Forall_forall in *. intros q Hq. specialize (Hge q Hq).
      apply Z.ltb_ge. lia. }
    rewrite F1 in *. cbn [length skipn] in *.
    destruct (Z.eqb_spec w k) as [->|Hne].
    + cbn [length firstn map snd]. now rewrite IH.
    + assert (F2 : filter (fun y => y =? k) (map fst L) = []).
      { apply filter_all_false. rewrite Forall_map.
        rewrite Forall_forall in *. intros q Hq. specialize (Hge q Hq).
        apply Z.eqb_neq. lia. }
      assert (F3 : filter (fun p => fst p =? k) L = []).
      { apply filter_all_false.
        rewrite Forall_forall in *. intros q Hq. specialize (Hge q Hq).
        apply Z.eqb_neq. lia. }
      rewrite F2, F3. reflexivity.
Qed.

(** ** The pairs behind the index *)

Lemma by_key_total (p q : Z * nat) : by_key p q = true \/ by_key q p = true.
Proof. unfold by_key. destruct (Z.leb_spec (fst p) (fst q)); [now left|right]. apply Z.leb_le. lia. Qed.

Lemma sorted_pairs_sorted (keys : list Z) :
  StronglySorted (fun a b => fst a <= fst b) (sorted_pairs keys).
Proof.
  apply Sorted_StronglySorted.
  - intros a b c. lia.
  - pose proof (isort_sorted by_key by_key_total
                  (combine keys (seq 0 (length keys)))) as H.
    unfold sorted_pairs. induction H as [|a l Hl IH Hd]; constructor; auto.
    destruct Hd; constructor. unfold by_key in *. now apply Z.leb_le.
Qed.

Lemma in_combine_seq (keys : list Z) (k : Z) (i : nat) :
  In (k, i) (combine keys (seq 0 (length keys)))
  <-> (i < length keys)%nat /\ nth i keys 0 = k.
Proof.
  assert (G : forall (l : list Z) (o : nat),
            In (k, i) (combine l (seq o (length l)))
            <-> (o <= i < o + length l)%nat /\ nth (i - o) l 0 = k).
  { induction l as [|v l IH]; intros o; cbn [length seq combine].
    - simpl. split; [contradiction|lia].
    - cbn [In]. rewrite IH. split.
      + intros [E|[H1 H2]].
        * injection E as -> ->. rewrite Nat.sub_diag. split; [lia|reflexivity].
        * split; [lia|]. replace (i - o)%nat with (S (i - S o)) by lia. exact H2.
      + intros [H1 H2]. destruct (Nat.eq_dec i o) as [->|Hne].
        * left. rewrite Nat.sub_diag in H2. simpl in H2. now subst.
        * right. split; [lia|].
          replace (i - o)%nat with (S (i - S o)) in H2 by lia. exact H2. }
  rewrite G, Nat.sub_0_r. split; intros [H1 H2]; (split; [lia|exact H2]).
Qed.

Lemma in_sorted_pairs (keys : list Z) (k : Z) (i : nat) :
  In (k, i) (sorted_pairs keys) <-> (i < length keys)%nat /\ nth i keys 0 = k.
Proof.
  rewrite <- in_combine_seq. unfold sorted_pairs.
  pose proof (isort_perm by_key (combine keys (seq 0 (length keys)))) as P.
  split; intros H.
  - apply (Permutation_in _ P H).
  - apply (Permutation_in _ (Permutation_sym P) H).
Qed.

Lemma argsort_pairs (keys : list Z) :
  argsort Z.leb keys = map snd (sorted_pairs keys).
Proof. reflexivity. Qed.

Lemma keys_sorted_pairs (keys : list Z) :
  take 0 keys (argsort Z.leb keys) = map fst (sorted_pairs keys).
Proof.
  rewrite argsort_pairs. unfold take. rewrite map_map.
  apply map_ext_in. intros [k i] H. cbn [fst snd].
  apply in_sorted_pairs in H. apply H.
Qed.

Section Index.
Variable out_of_range_int32 : Z -> Z.

(** The indices [_cell_indices] returns for a key are those of the cloud
    points with that key. *)
Lemma cell_indices_pairs (cloud_xy : list (Q * Q)) (cell : Q) (k : Z) :
  _cell_indices (build_index out_of_range_int32 cloud_xy cell) k
  = map snd (filter (fun p => fst p =? k)
               (sorted_pairs (map (cloud_key out_of_range_int32 cell) cloud_xy))).
Proof.
  unfold build_index, _cell_indices. cbn [uniq start_idx counts order].
  set (keys := map (cloud_key out_of_range_int32 cell) cloud_xy).
  rewrite keys_sorted_pairs, argsort_pairs.
  set (L := sorted_pairs keys).
  assert (HL : StronglySorted (fun a b => fst a <= fst b) L)
    by apply sorted_pairs_sorted.
  assert (Hks : StronglySorted Z.le (map fst L)).
  { clear -HL. induction HL as [|a l Hl IH Ha]; cbn [map]; constructor; auto.
    now rewrite Forall_map. }
  destruct (unique_from_spec (map fst L) Hks 0%nat) as (Hok & Hlt & Hin & _).
  set (runs := unique_from 0 (map fst L)) in *.
  set (u := map (fun r => fst (fst r)) runs) in *.
  set (pos := searchsorted u k).
  destruct ((length u <=? pos)%nat || negb (nth pos u 0 =? k)) eqn:C.
  - symmetry. rewrite (filter_all_false (fun p => fst p =? k) L); [reflexivity|].
    rewrite Forall_forall. intros q Hq. apply Z.eqb_neq. intros E.
    assert (Hk : In k u).
    { apply Hin. rewrite <- E. now apply in_map. }
    destruct (searchsorted_found u k Hlt Hk) as [H1 H2]. fold pos in H1, H2.
    apply orb_true_iff in C. destruct C as [C|C].
    + apply Nat.leb_le in C. lia.
    + rewrite H2, Z.eqb_refl in C. discriminate.
  - apply orb_false_iff in C. destruct C as [C1 C2].
    apply Nat.leb_gt in C1. apply negb_false_iff, Z.eqb_eq in C2.
    assert (Hlen : length u = length runs) by (unfold u; apply length_map).
    set (r := nth pos runs (0, 0%nat, 0%nat)).
    assert (Hr : In r runs) by (apply nth_In; lia).
    assert (Ev : fst (fst r) = k).
    { rewrite <- C2. unfold u, r.
      now rewrite <- (map_nth (fun r => fst (fst r)) runs (0, 0%nat, 0%nat)). }
    assert (Es : nth pos (map (fun r => snd (fst r)) runs) 0%nat = snd (fst r)).
    { unfold r. now rewrite <- (map_nth (fun r => snd (fst r)) runs (0, 0%nat, 0%nat)). }
    assert (Ec : nth pos (map snd runs) 0%nat = snd r).
    { unfold r. now rewrite <- (map_nth snd runs (0, 0%nat, 0%nat)). }
    rewrite Es, Ec.
    rewrite Forall_forall in Hok. specialize (Hok r Hr).
    destruct r as [[v s0] c0]. cbn [fst snd] in *. subst v.
    destruct Hok as (-> & -> & _). cbn [Nat.add].
    apply slice_run. exact HL.
Qed.

Lemma in_cell_indices (cloud_xy : list (Q * Q)) (cell : Q) (k : Z) (i : nat) :
  In i (_cell_indices (build_index out_of_range_int32 cloud_xy cell) k)
  <-> (i < length cloud_xy)%nat /\
      cloud_key out_of_range_int32 cell (nth i cloud_xy (0%Q, 0%Q)) = k.
Proof.
  rewrite cell_indices_pairs, in_map_iff. split.
  - intros ([k' i'] & E & H). cbn [snd] in E. subst i'.
    apply filter_In in H. destruct H as [H Hk]. cbn [fst] in Hk.
    apply Z.eqb_eq in Hk. subst k'.
    apply in_sorted_pairs in H. rewrite length_map in H. destruct H as [H1 H2].
    split; [exact H1|]. rewrite <- H2.
    rewrite (nth_indep _ 0 (cloud_key out_of_range_int32 cell (0%Q, 0%Q)))
      by (rewrite length_map; exact H1).
    now rewrite map_nth.
  - intros [H1 H2]. exists (k, i). split; [reflexivity|].
    apply filter_In. cbn [fst]. split; [|apply Z.eqb_refl].
    apply in_sorted_pairs. rewrite length_map. split; [exact H1|].
    rewrite <- H2.
    rewrite (nth_indep _ 0 (cloud_key out_of_range_int32 cell (0%Q, 0%Q)))
      by (rewrite length_map; exact H1).
    now rewrite map_nth.
Qed.

End Index.

(** ** Gathering the nine cells *)

Lemma in_int64_iff (v : Z) : in_int64 v = true <-> - 2 ^ 63 <= v < 2 ^ 63.
Proof.
  unfold in_int64. rewrite andb_true_iff, Z.leb_le, Z.ltb_lt. reflexivity.
Qed.

Lemma gather_fold (g : GridIndex) (cx cy : Z) (offsets : list (Z * Z)) :
  Forall (fun d => in_int64 (cx + fst d) = true /\ in_int64 (cy + snd d) = true)
         offsets ->
  forall cand0,
  exists cand,
    fold_left (gather_step g cx cy) offsets (Ok cand0) = Ok cand /\
    concat cand = concat cand0 ++ around g cx cy offsets.
Proof.
  induction 1 as [|d offsets [Ha Hb] _ IH]; intros cand0.
  - exists cand0. split; [reflexivity|]. unfold around. simpl. now rewrite app_nil_r.
  - cbn [fold_left]. unfold gather_step at 2. cbn [bind].
    unfold np_int64. rewrite Ha, Hb. cbn [bind].
    unfold around. cbn [flat_map]. fold (around g cx cy offsets).
    destruct (_cell_indices g (pack_key (cx + fst d) (cy + snd d))) as [|i ids] eqn:E.
    + destruct (IH cand0) as (cand & E1 & E2). exists cand. split; [exact E1|].
      rewrite E2. reflexivity.
    + destruct (IH (cand0 ++ [i :: ids])) as (cand & E1 & E2).
      exists cand. split; [exact E1|].
      rewrite E2, concat_app. cbn [concat]. rewrite app_nil_r, <- app_assoc.
      reflexivity.
Qed.

Lemma offsets_fit (cell : Q) (s : Q * Q) :
  cells_fit_int64 cell s ->
  Forall (fun d => in_int64 (floor_div (fst s) cell + fst d) = true /\
                   in_int64 (floor_div (snd s) cell + snd d) = true)
         cell_offsets.
Proof.
  unfold cells_fit_int64. rewrite !in_int64_iff. intros (H1 & H2 & H3 & H4).
  unfold cell_offsets. cbn [flat_map map app].
  repeat constructor; cbn [fst snd]; apply in_int64_iff; lia.
Qed.

Lemma select_filter {A B : Type} (f : B -> bool) (h : A -> B) (l : list A) :
  select l (map f (map h l)) = filter (fun a => f (h a)) l.
Proof.
  induction l as [|a l IH]; simpl; [reflexivity|].
  destruct (f (h a)); now rewrite IH.
Qed.

Lemma np_any_select {A B : Type} (f : B -> bool) (h : A -> B) (l : list A) :
  np_any (map f (map h l)) = false <-> filter (fun a => f (h a)) l = [].
Proof.
  unfold np_any. induction l as [|a l IH]; simpl; [tauto|].
  destruct (f (h a)); simpl; [split; discriminate|exact IH].
Qed.

(** Within the cells that fit, the grid query returns the indices of the
    nine cells that pass the distance test. *)
Lemma grid_neighbors_ok (cloud_xy : list (Q * Q)) (g : GridIndex) (r sx sy : Q) :
  cells_fit_int64 r (sx, sy) ->
  grid_neighbors cloud_xy g r sx sy
  = Ok (filter (fun i => Qle_bool (dist2 cloud_xy sx sy i) (r * r))
          (around g (floor_div sx r) (floor_div sy r) cell_offsets)).
Proof.
  intros Hfit. unfold grid_neighbors, gather.
  destruct (gather_fold g _ _ _ (offsets_fit r (sx, sy) Hfit) [])
    as (cand & E1 & E2).
  cbn [fst snd] in E1, E2. rewrite E1. cbn [bind]. cbn [concat app] in E2.
  rewrite <- E2. destruct cand as [|c cand]; [reflexivity|].
  now rewrite select_filter.
Qed.

(** ** The three by three neighbourhood covers the disc *)

Lemma floor_div_near (a b r : Q) :
  (0 < r)%Q -> ((a - b) * (a - b) <= r * r)%Q ->
  -1 <= floor_div a r - floor_div b r <= 1.
Proof.
  intros Hr Hd. unfold floor_div.
  set (u := (a / r)%Q). set (v := (b / r)%Q).
  assert (Ha : (a == u * r)%Q) by (unfold u; field; lra).
  assert (Hb : (b == v * r)%Q) by (unfold v; field; lra).
  assert (Huv : (-1 <= u - v <= 1)%Q).
  { rewrite Ha, Hb in Hd. clearbody u v.
    assert (Hw : ((u - v) * r * ((u - v) * r) <= r * r)%Q).
    { setoid_replace ((u - v) * r)%Q with (u * r - v * r)%Q by ring. exact Hd. }
    set (w := (u - v)%Q) in *. clearbody w. clear Hd Ha Hb.
    split.
    - destruct (Qlt_le_dec w (-1)) as [Hlt|]; [exfalso|assumption].
      assert (H1 : (0 < (-1 - w) * r)%Q) by (apply Qmult_lt_0_compat; lra).
      assert (H2 : (0 < (1 - w) * r)%Q) by (apply Qmult_lt_0_compat; lra).
      pose proof (Qmult_lt_0_compat _ _ H1 H2). nra.
    - destruct (Qlt_le_dec 1 w) as [Hlt|]; [exfalso|assumption].
      assert (H1 : (0 < (w - 1) * r)%Q) by (apply Qmult_lt_0_compat; lra).
      assert (H2 : (0 < (w + 1) * r)%Q) by (apply Qmult_lt_0_compat; lra).
      pose proof (Qmult_lt_0_compat _ _ H1 H2). nra. }
  pose proof (Qfloor_le u) as Hu1. pose proof (Qlt_floor u) as Hu2.
  pose proof (Qfloor_le v) as Hv1. pose proof (Qlt_floor v) as Hv2.
  rewrite inject_Z_plus in Hu2, Hv2. change (inject_Z 1) with 1%Q in Hu2, Hv2.
  assert (H1 : (inject_Z (Qfloor u) < inject_Z (Qfloor v + 2))%Q).
  { rewrite inject_Z_plus. change (inject_Z 2) with 2%Q. lra. }
  assert (H2 : (inject_Z (Qfloor v) < inject_Z (Qfloor u + 2))%Q).
  { rewrite inject_Z_plus. change (inject_Z 2) with 2%Q. lra. }
  rewrite <- Zlt_Qlt in H1, H2. lia.
Qed.

Lemma offset_in_cell_offsets (dx dy : Z) :
  -1 <= dx <= 1 -> -1 <= dy <= 1 -> In (dx, dy) cell_offsets.
Proof.
  intros Hx Hy. unfold cell_offsets. cbn [flat_map map app].
  assert (Ex : dx = -1 \/ dx = 0 \/ dx = 1) by lia.
  assert (Ey : dy = -1 \/ dy = 0 \/ dy = 1) by lia.
  destruct Ex as [-> | [-> | ->]], Ey as [-> | [-> | ->]]; simpl; tauto.
Qed.

Lemma astype_int32_fits (oor : Z -> Z) (v : Z) :
  in_int32 v = true -> astype_int32 oor v = v.
Proof. intros H. unfold astype_int32. now rewrite H. Qed.

Lemma in_brute_force (cloud_xy : list (Q * Q)) (r sx sy : Q) (i : nat) :
  In i (brute_force_neighbors cloud_xy r sx sy)
  <-> (i < length cloud_xy)%nat /\
      Qle_bool (dist2 cloud_xy sx sy i) (r * r) = true.
Proof.
  unfold brute_force_neighbors. rewrite filter_In, in_seq.
  split; intros [H1 H2]; (split; [lia|exact H2]).
Qed.

Lemma in_around_valid (oor : Z -> Z) (cloud_xy : list (Q * Q)) (cell : Q)
  (cx cy : Z) (offsets : list (Z * Z)) (i : nat) :
  In i (around (build_index oor cloud_xy cell) cx cy offsets) ->
  (i < length cloud_xy)%nat.
Proof.
  unfold around. rewrite in_flat_map. intros (d & _ & H).
  apply in_cell_indices in H. apply H.
Qed.

(** C1 (amended).  For every cloud, every query point and every radius
    r > 0 such that the cell indices floor(x / r), floor(y / r) of the cloud
    points fit 32-bit integers and those of the nine cells around the query
    fit 64-bit integers, the grid query returns, and the set of indices it
    returns is the set brute-force filtering on squared distance <= r * r
    returns.  In exact arithmetic this holds also when a point lies at
    distance r. *)
Theorem grid_neighbors_equal_brute_force (out_of_range_int32 : Z -> Z)
  (cloud_xy : list (Q * Q)) (r sx sy : Q) :
  (0 < r)%Q ->
  Forall (cell_fits_int32 r) cloud_xy ->
  cells_fit_int64 r (sx, sy) ->
  exists ids,
    grid_neighbors cloud_xy (build_index out_of_range_int32 cloud_xy r) r sx sy
    = Ok ids /\
    forall i, In i ids <-> In i (brute_force_neighbors cloud_xy r sx sy).
Proof.
  intros Hr Hcloud Hq. rewrite (grid_neighbors_ok _ _ _ _ _ Hq).
  eexists. split; [reflexivity|]. intros i.
  rewrite filter_In, in_brute_force. split.
  - intros [H1 H2]. split; [|exact H2]. apply (in_around_valid _ _ _ _ _ _ _ H1).
  - intros [H1 H2]. split; [|exact H2].
    unfold around. rewrite in_flat_map.
    set (p := nth i cloud_xy (0%Q, 0%Q)).
    assert (Hp : cell_fits_int32 r p).
    { rewrite Forall_forall in Hcloud. apply Hcloud. now apply nth_In. }
    destruct Hp as [Hpx Hpy].
    apply Qle_bool_iff in H2. unfold dist2 in H2. fold p in H2. cbv zeta in H2.
    pose proof (sq_nonneg (fst p - sx)) as Sx.
    pose proof (sq_nonneg (snd p - sy)) as Sy. unfold sq in Sx, Sy.
    assert (Dx : ((fst p - sx) * (fst p - sx) <= r * r)%Q) by lra.
    assert (Dy : ((snd p - sy) * (snd p - sy) <= r * r)%Q) by lra.
    pose proof (floor_div_near _ _ _ Hr Dx) as Nx.
    pose proof (floor_div_near _ _ _ Hr Dy) as Ny.
    exists (floor_div (fst p) r - floor_div sx r,
            floor_div (snd p) r - floor_div sy r).
    split; [now apply offset_in_cell_offsets|].
    apply in_cell_indices. split; [exact H1|]. fold p. cbn [fst snd].
    unfold cloud_key. rewrite !astype_int32_fits by assumption.
    f_equal; lia.
Qed.

Lemma grid_neighbors_equal_brute_force_witness :
  (0 < 6 # 1)%Q /\
  Forall (cell_fits_int32 (6 # 1)) (map fst four_points) /\
  cells_fit_int64 (6 # 1) (4 # 1, 0)%Q /\
  exists ids,
    grid_neighbors (map fst four_points)
      (build_index int32_min_on_overflow (map fst four_points) (6 # 1))
      (6 # 1) (4 # 1) 0 = Ok ids /\
    forall i, In i ids
              <-> In i (brute_force_neighbors (map fst four_points) (6 # 1) (4 # 1) 0).
Proof.
  assert (H1 : (0 < 6 # 1)%Q) by reflexivity.
  assert (H2 : Forall (cell_fits_int32 (6 # 1)) (map fst four_points))
    by (repeat constructor).
  assert (H3 : cells_fit_int64 (6 # 1) (4 # 1, 0)%Q) by (repeat constructor).
  split; [exact H1|]. split; [exact H2|]. split; [exact H3|].
  apply (grid_neighbors_equal_brute_force int32_min_on_overflow
           (map fst four_points) (6 # 1) (4 # 1) 0 H1 H2 H3).
Defined.

(** C1 as stated fails: for the query point (2^64, 0) and radius 1 the grid
    query raises [OverflowError] where brute force returns the empty set; no
    point of the cloud is at distance 1 from the query. *)
Lemma grid_neighbors_overflow_counterexample :
  grid_neighbors [(0, 0)%Q]
    (build_index int32_min_on_overflow [(0, 0)%Q] 1) 1 (fst far_sample) (snd far_sample)
  = Err (OverflowError "Python int too large to convert to C long") /\
  brute_force_neighbors [(0, 0)%Q] 1 (fst far_sample) (snd far_sample) = [] /\
  ~ (dist2 [(0, 0)%Q] (fst far_sample) (snd far_sample) 0 == 1 * 1)%Q.
Proof.
  split; [vm_compute; reflexivity|]. split; [vm_compute; reflexivity|].
  intros H. vm_compute in H. discriminate H.
Qed.

(** A cloud point whose cell index does not fit 32 bits is missed.  With a
    radius of 2 mm the point (500000, 5000000) has the cell index 2.5e9 in y;
    whether the conversion yields the smallest [int32], as on x86-64, or
    saturates, as on AArch64, the key of the point differs from the keys the
    query builds at that very position. *)
Example grid_neighbors_int32_range_needed :
  grid_neighbors [utm_point]
    (build_index int32_min_on_overflow [utm_point] (2 # 1000)) (2 # 1000)
    (fst utm_point) (snd utm_point) = Ok [] /\
  grid_neighbors [utm_point]
    (build_index int32_saturating [utm_point] (2 # 1000)) (2 # 1000)
    (fst utm_point) (snd utm_point) = Ok [] /\
  brute_force_neighbors [utm_point] (2 # 1000) (fst utm_point) (snd utm_point)
  = [0%nat].
Proof. repeat split; vm_compute; reflexivity. Qed.

(** ** The loop over the samples *)

Lemma sample_z_fallback (oor : Z -> Z)
  (argpartition : list Q -> Z -> list nat) (cloud_xy : list (Q * Q))
  (cloud_z : list Q)
  (r : Q) (k_eff_max : Z) (quantile fallback_z offset : Q) (s : Q * Q) :
  cells_fit_int64 r s ->
  brute_force_neighbors cloud_xy r (fst s) (snd s) = [] ->
  sample_z argpartition cloud_xy cloud_z (build_index oor cloud_xy r) r
      k_eff_max
           quantile fallback_z offset s
  = Ok (fallback_z + offset)%Q.
Proof.
  intros Hfit Hnone. unfold sample_z, gather.
  destruct (gather_fold (build_index oor cloud_xy r) _ _ _ (offsets_fit r s Hfit) [])
    as (cand & E1 & E2).
  rewrite E1. cbn [bind]. cbn [concat app] in E2.
  destruct cand as [|c cand]; [reflexivity|].
  assert (Hany : np_any (map (fun d => Qle_bool d (r * r))
                   (map (dist2 cloud_xy (fst s) (snd s)) (concat (c :: cand))))
                 = false).
  { apply np_any_select. rewrite E2.
    destruct (filter _ _) as [|i l] eqn:F; [reflexivity|]. exfalso.
    assert (Hi : In i (i :: l)) by now left. rewrite <- F in Hi.
    apply filter_In in Hi. destruct Hi as [Hi HP].
    apply in_around_valid in Hi.
    assert (Hb : In i (brute_force_neighbors cloud_xy r (fst s) (snd s)))
      by (apply in_brute_force; split; assumption).
    rewrite Hnone in Hb. contradiction. }
  rewrite Hany. reflexivity.
Qed.

Lemma sample_z_returns (argpartition : list Q -> Z -> list nat) (cloud_xy : list
    (Q * Q)) (cloud_z : list Q) (g : GridIndex)
  (r : Q) (k_eff_max : Z) (quantile fallback_z offset : Q) (s : Q * Q) :
  cells_fit_int64 r s ->
  exists v, sample_z argpartition cloud_xy cloud_z g r k_eff_max quantile
      fallback_z offset s
            = Ok v.
Proof.
  intros Hfit. unfold sample_z, gather.
  destruct (gather_fold g _ _ _ (offsets_fit r s Hfit) []) as (cand & E1 & _).
  rewrite E1. cbn [bind].
  destruct cand as [|c cand]; [eauto|].
  destruct (negb _); eauto.
Qed.

Lemma samples_loop_returns (f : Q * Q -> result Q) (samples_xy : list (Q * Q)) :
  Forall (fun s => exists v, f s = Ok v) samples_xy ->
  exists out,
    samples_loop f samples_xy = Ok out /\
    length out = length samples_xy /\
    forall j, (j < length samples_xy)%nat ->
              f (nth j samples_xy (0%Q, 0%Q)) = Ok (nth j out 0%Q).
Proof.
  induction 1 as [|s samples_xy [v Hv] _ (out & E & Hn & Hj)].
  - exists []. repeat split. intros j Hlt. simpl in Hlt. lia.
  - exists (v :: out). cbn [samples_loop]. rewrite Hv, E. cbn [bind].
    split; [reflexivity|]. split; [simpl; lia|].
    intros [|j] Hlt; [exact Hv|]. cbn [nth]. apply Hj. simpl in Hlt. lia.
Qed.

Lemma surface_z_runs_grid (oor : Z -> Z)
  (argpartition : list Q -> Z -> list nat) (cloud_xyz : list (Q * Q * Q))
  (samples_xy : list (Q * Q)) (radius_m : Q) (k : Z)
  (quantile fallback_z offset : Q) :
  (0 < radius_m)%Q -> 0 < k -> (0 <= quantile <= 1)%Q -> cloud_xyz <> [] ->
  surface_z_from_neighbors oor argpartition cloud_xyz samples_xy radius_m k
      quantile
                           fallback_z offset
  = samples_loop
      (sample_z argpartition (map fst cloud_xyz) (map snd cloud_xyz)
                (build_index oor (map fst cloud_xyz) radius_m) radius_m
                (Z.max 1 k) quantile fallback_z offset)
      samples_xy.
Proof.
  intros Hr Hk [Hq0 Hq1] Hne. unfold surface_z_from_neighbors.
  destruct (Qle_bool radius_m 0) eqn:E1; [apply Qle_bool_iff in E1; lra|].
  destruct (Z.leb_spec k 0) as [?|_]; [lia|].
  apply Qle_bool_iff in Hq0, Hq1. rewrite Hq0, Hq1. cbn [andb negb].
  unfold _surface_z_from_neighbors_grid.
  destruct cloud_xyz as [|p cloud_xyz]; [contradiction|]. reflexivity.
Qed.

(** C4 (amended).  With radius > 0, k > 0, quantile in [0, 1] and a
    non-empty cloud, and with samples whose surrounding cell indices all fit
    64-bit integers, the engine returns one value per sample, and the value of
    a sample with no cloud point within the radius is fallback_z + offset. *)
Theorem surface_z_fallback_without_neighbors (out_of_range_int32 : Z -> Z)
  (argpartition : list Q -> Z -> list nat)
  (cloud_xyz : list (Q * Q * Q)) (samples_xy : list (Q * Q))
  (radius_m : Q) (k : Z) (quantile fallback_z offset : Q) (j : nat) :
  (0 < radius_m)%Q -> 0 < k -> (0 <= quantile <= 1)%Q -> cloud_xyz <> [] ->
  Forall (cells_fit_int64 radius_m) samples_xy ->
  (j < length samples_xy)%nat ->
  brute_force_neighbors (map fst cloud_xyz) radius_m
    (fst (nth j samples_xy (0%Q, 0%Q))) (snd (nth j samples_xy (0%Q, 0%Q))) = [] ->
  exists out,
    surface_z_from_neighbors out_of_range_int32 argpartition cloud_xyz
        samples_xy radius_m k
                             quantile fallback_z offset = Ok out /\
    length out = length samples_xy /\
    nth j out 0%Q = (fallback_z + offset)%Q.
Proof.
  intros Hr Hk Hq Hne Hfit Hj Hnone.
  rewrite surface_z_runs_grid by assumption.
  set (f := sample_z _ _ _ _ _ _ _ _ _).
  assert (Hall : Forall (fun s => exists v, f s = Ok v) samples_xy).
  { rewrite Forall_forall in *. intros s Hs. apply sample_z_returns. now apply Hfit. }
  destruct (samples_loop_returns f samples_xy Hall) as (out & E & Hn & Hout).
  exists out. split; [exact E|]. split; [exact Hn|].
  specialize (Hout j Hj). unfold f in Hout.
  rewrite sample_z_fallback in Hout.
  - now injection Hout as <-.
  - rewrite Forall_forall in Hfit. apply Hfit. now apply nth_In.
  - exact Hnone.
Qed.

Lemma surface_z_fallback_without_neighbors_witness :
  exists out,
    surface_z_from_neighbors int32_min_on_overflow stable_argpartition
        four_points
      [(0, 0); (1000 # 1, 0)]%Q (3 # 1) 5 (1 # 2) (7 # 1) (1 # 2) = Ok out /\
    length out = 2%nat /\
    nth 1 out 0%Q = ((7 # 1) + (1 # 2))%Q.
Proof.
  apply (surface_z_fallback_without_neighbors int32_min_on_overflow
      stable_argpartition four_points
           [(0, 0); (1000 # 1, 0)]%Q (3 # 1) 5 (1 # 2) (7 # 1) (1 # 2) 1).
  - reflexivity.
  - reflexivity.
  - split; discriminate.
  - discriminate.
  - repeat constructor.
  - simpl. lia.
  - reflexivity.
Defined.

(** C4 as stated fails: the sample (2^64, 0) has no cloud point within
    radius 1, the parameters are valid and the cloud is not empty, and the
    engine raises [OverflowError]. *)
Lemma surface_z_overflow_counterexample :
  surface_z_from_neighbors int32_min_on_overflow stable_argpartition [(0, 0,
      0)%Q] [far_sample]
    1 1 (1 # 2) (7 # 1) (1 # 2)
  = Err (OverflowError "Python int too large to convert to C long") /\
  brute_force_neighbors (map fst [(0, 0, 0)%Q]) 1 (fst far_sample) (snd far_sample)
  = [].
Proof. split; vm_compute; reflexivity. Qed.

(** C10.  On an empty cloud the engine raises: the inner function raises
    its "cloud_xyz is empty" error whatever the parameters and the samples,
    also for an empty list of samples; the public function raises a
    [ValueError] in every case, and that same error when its parameters are
    valid. *)
Theorem surface_z_empty_cloud_raises (out_of_range_int32 : Z -> Z)
  (argpartition : list Q -> Z -> list nat)
  (samples_xy : list (Q * Q)) (radius_m : Q) (k : Z)
  (quantile fallback_z offset : Q) :
  _surface_z_from_neighbors_grid out_of_range_int32 argpartition [] samples_xy
      radius_m k
    quantile fallback_z offset = Err (ValueError "cloud_xyz is empty")
  /\ (exists msg,
        surface_z_from_neighbors out_of_range_int32 argpartition [] samples_xy
            radius_m k
          quantile fallback_z offset = Err (ValueError msg))
  /\ ((0 < radius_m)%Q /\ 0 < k /\ (0 <= quantile <= 1)%Q ->
      surface_z_from_neighbors out_of_range_int32 argpartition [] samples_xy
          radius_m k
        quantile fallback_z offset = Err (ValueError "cloud_xyz is empty"))
  /\ _surface_z_from_neighbors_grid out_of_range_int32 argpartition [] []
      radius_m k
       quantile fallback_z offset = Err (ValueError "cloud_xyz is empty").
Proof.
  split; [reflexivity|]. split.
  - unfold surface_z_from_neighbors.
    destruct (Qle_bool radius_m 0); [eexists; reflexivity|].
    destruct (k <=? 0); [eexists; reflexivity|].
    destruct (negb _); eexists; reflexivity.
  - split; [|reflexivity]. intros (Hr & Hk & Hq0 & Hq1).
    unfold surface_z_from_neighbors.
    destruct (Qle_bool radius_m 0) eqn:E1; [apply Qle_bool_iff in E1; lra|].
    destruct (Z.leb_spec k 0) as [?|_]; [lia|].
    apply Qle_bool_iff in Hq0, Hq1. rewrite Hq0, Hq1. reflexivity.
Qed.

Lemma surface_z_empty_cloud_raises_witness :
  surface_z_from_neighbors int32_min_on_overflow stable_argpartition [] [] (2 #
      1) 64 (1 # 10) 0 1
  = Err (ValueError "cloud_xyz is empty").
Proof.
  destruct (surface_z_empty_cloud_raises int32_min_on_overflow
      stable_argpartition [] (2 # 1) 64
              (1 # 10) 0 1) as (_ & _ & H & _).
  apply H. repeat split; discriminate.
Defined.

(** ** The quantile *)

Lemma Qle_bool_total (a b : Q) : Qle_bool a b = true \/ Qle_bool b a = true.
Proof.
  destruct (Qlt_le_dec b a) as [H|H].
  - right. apply Qle_bool_iff. lra.
  - left. now apply Qle_bool_iff.
Qed.

Lemma isort_Qle_sorted (z : list Q) : StronglySorted Qle (isort Qle_bool z).
Proof.
  pose proof (isort_sorted Qle_bool Qle_bool_total z) as H.
  apply Sorted_StronglySorted.
  - intros a b c. apply Qle_trans.
  - induction H as [|a l Hl IH Hd]; constructor; auto.
    destruct Hd; constructor. now apply Qle_bool_iff.
Qed.

Lemma sorted_nth_le (a : list Q) :
  StronglySorted Qle a ->
  forall i j, (i <= j)%nat -> (j < length a)%nat ->
  (nth i a 0 <= nth j a 0)%Q.
Proof.
  induction 1 as [|v a Hs IH Hall]; intros i j Hij Hj; [simpl in Hj; lia|].
  destruct i as [|i], j as [|j]; cbn [nth]; try lia.
  - apply Qle_refl.
  - rewrite Forall_forall in Hall. apply Hall. apply nth_In. simpl in Hj. lia.
  - apply IH; [lia|simpl in Hj; lia].
Qed.

(** [np.quantile] never decreases when the quantile grows. *)
Lemma np_quantile_mono (z : list Q) (q1 q2 : Q) :
  (0 <= q1)%Q -> (q1 <= q2)%Q -> (q2 <= 1)%Q ->
  (np_quantile z q1 <= np_quantile z q2)%Q.
Proof.
  intros H0 H12 H1. unfold np_quantile.
  pose proof (isort_Qle_sorted z) as Hs.
  set (a := isort Qle_bool z) in *.
  destruct (Nat.eq_dec (length a) 0) as [Ha|Ha].
  { destruct a; [|discriminate]. cbn [length nth].
    destruct (Z.to_nat _), (Z.to_nat _), (Z.to_nat _), (Z.to_nat _); lra. }
  set (n1 := Z.of_nat (length a) - 1).
  assert (Hn1 : 0 <= n1) by (unfold n1; lia).
  assert (HN : (0 <= inject_Z n1)%Q).
  { change 0%Q with (inject_Z 0). now rewrite <- Zle_Qle. }
  set (v1 := (inject_Z n1 * q1)%Q). set (v2 := (inject_Z n1 * q2)%Q).
  assert (Hv0 : (0 <= v1)%Q) by (unfold v1; nra).
  assert (Hv12 : (v1 <= v2)%Q) by (unfold v1, v2; nra).
  assert (Hv2 : (v2 <= inject_Z n1)%Q) by (unfold v2; nra).
  set (p1 := Qfloor v1). set (p2 := Qfloor v2).
  assert (Hp1 : 0 <= p1).
  { change 0 with (Qfloor 0). now apply Qfloor_resp_le. }
  assert (Hp12 : p1 <= p2) by now apply Qfloor_resp_le.
  assert (Hp2 : p2 <= n1).
  { rewrite <- (Qfloor_Z n1). now apply Qfloor_resp_le. }
  pose proof (Qfloor_le v1) as F1. pose proof (Qlt_floor v1) as G1.
  pose proof (Qfloor_le v2) as F2. pose proof (Qlt_floor v2) as G2.
  fold p1 in F1, G1. fold p2 in F2, G2.
  rewrite inject_Z_plus in G1, G2. change (inject_Z 1) with 1%Q in G1, G2.
  set (g1 := (v1 - inject_Z p1)%Q). set (g2 := (v2 - inject_Z p2)%Q).
  assert (Hg1 : (0 <= g1 <= 1)%Q) by (unfold g1; lra).
  assert (Hg2 : (0 <= g2 <= 1)%Q) by (unfold g2; lra).
  replace (Z.max 0 (Z.min p1 n1)) with p1 by lia.
  replace (Z.max 0 (Z.min p2 n1)) with p2 by lia.
  replace (Z.max 0 (Z.min (p1 + 1) n1)) with (Z.min (p1 + 1) n1) by lia.
  replace (Z.max 0 (Z.min (p2 + 1) n1)) with (Z.min (p2 + 1) n1) by lia.
  set (lo1 := nth (Z.to_nat p1) a 0%Q).
  set (hi1 := nth (Z.to_nat (Z.min (p1 + 1) n1)) a 0%Q).
  set (lo2 := nth (Z.to_nat p2) a 0%Q).
  set (hi2 := nth (Z.to_nat (Z.min (p2 + 1) n1)) a 0%Q).
  assert (L1 : (lo1 <= hi1)%Q) by (apply sorted_nth_le; [assumption|lia|lia]).
  assert (L2 : (lo2 <= hi2)%Q) by (apply sorted_nth_le; [assumption|lia|lia]).
  destruct (Z.eq_dec p1 p2) as [E|E].
  - assert (Elo : lo2 = lo1) by (unfold lo1, lo2; now rewrite E).
    assert (Ehi : hi2 = hi1) by (unfold hi1, hi2; now rewrite E).
    rewrite Elo, Ehi.
    assert (Hg : (g1 <= g2)%Q) by (unfold g1, g2; rewrite E; lra).
    clearbody g1 g2 lo1 hi1. nra.
  - assert (M : (hi1 <= lo2)%Q) by (apply sorted_nth_le; [assumption|lia|lia]).
    clearbody g1 g2 lo1 hi1 lo2 hi2. nra.
Qed.

Lemma sample_z_mono (argpartition : list Q -> Z -> list nat) (cloud_xy : list (Q
    * Q)) (cloud_z : list Q) (g : GridIndex)
  (r : Q) (k_eff_max : Z) (fallback_z offset : Q) (q1 q2 : Q) (s : Q * Q) :
  (0 <= q1)%Q -> (q1 <= q2)%Q -> (q2 <= 1)%Q ->
  let f q := sample_z argpartition cloud_xy cloud_z g r k_eff_max q fallback_z
      offset s in
  (exists e, f q1 = Err e /\ f q2 = Err e) \/
  (exists a b, f q1 = Ok a /\ f q2 = Ok b /\ (a <= b)%Q).
Proof.
  intros H0 H12 H1. cbv zeta. unfold sample_z.
  destruct (gather g _ _) as [cand|e]; cbn [bind]; [|left; eauto].
  right. destruct cand as [|c cand].
  - eexists _, _. split; [reflexivity|]. split; [reflexivity|apply Qle_refl].
  - destruct (negb _).
    + eexists _, _. split; [reflexivity|]. split; [reflexivity|apply Qle_refl].
    + eexists _, _. split; [reflexivity|]. split; [reflexivity|].
      apply Qplus_le_compat; [|apply Qle_refl].
      now apply np_quantile_mono.
Qed.

Lemma samples_loop_mono (f1 f2 : Q * Q -> result Q) (samples_xy : list (Q * Q)) :
  (forall s,
     (exists e, f1 s = Err e /\ f2 s = Err e) \/
     (exists a b, f1 s = Ok a /\ f2 s = Ok b /\ (a <= b)%Q)) ->
  (exists e, samples_loop f1 samples_xy = Err e /\
             samples_loop f2 samples_xy = Err e) \/
  (exists z1 z2, samples_loop f1 samples_xy = Ok z1 /\
                 samples_loop f2 samples_xy = Ok z2 /\ Forall2 Qle z1 z2).
Proof.
  intros Hf. induction samples_xy as [|s samples_xy IH]; cbn [samples_loop].
  - right. exists [], []. repeat split. constructor.
  - destruct (Hf s) as [(e & E1 & E2)|(a & b & E1 & E2 & Hab)]; rewrite E1, E2;
      cbn [bind].
    + left. eauto.
    + destruct IH as [(e & I1 & I2)|(z1 & z2 & I1 & I2 & Hz)]; rewrite I1, I2;
        cbn [bind].
      * left. eauto.
      * right. exists (a :: z1), (b :: z2). repeat split. now constructor.
Qed.

(** C9.  For a fixed cloud, fixed samples, radius, k, fallback and offset,
    and quantiles q1 <= q2 in [0, 1]: the two runs either raise the same
    exception or both return, and then every assigned Z of the run with q1 is
    at most the one of the run with q2.  They both return when the radius and
    k are positive, the cloud is not empty and the cell indices around every
    sample fit 64-bit integers. *)
Theorem surface_z_monotone_in_quantile (out_of_range_int32 : Z -> Z)
  (argpartition : list Q -> Z -> list nat)
  (cloud_xyz : list (Q * Q * Q)) (samples_xy : list (Q * Q))
  (radius_m : Q) (k : Z) (fallback_z offset : Q) (q1 q2 : Q) :
  (0 <= q1)%Q -> (q1 <= q2)%Q -> (q2 <= 1)%Q ->
  let run q := surface_z_from_neighbors out_of_range_int32 argpartition
      cloud_xyz samples_xy
                 radius_m k q fallback_z offset in
  ((exists e, run q1 = Err e /\ run q2 = Err e) \/
   (exists z1 z2, run q1 = Ok z1 /\ run q2 = Ok z2 /\ Forall2 Qle z1 z2))
  /\ ((0 < radius_m)%Q -> 0 < k -> cloud_xyz <> [] ->
      Forall (cells_fit_int64 radius_m) samples_xy ->
      exists z1 z2, run q1 = Ok z1 /\ run q2 = Ok z2 /\ Forall2 Qle z1 z2).
Proof.
  intros H0 H12 H1 run.
  assert (Hq1 : (0 <= q1 <= 1)%Q) by lra.
  assert (Hq2 : (0 <= q2 <= 1)%Q) by lra.
  assert (Hcases :
    (exists e, run q1 = Err e /\ run q2 = Err e) \/
    (exists z1 z2, run q1 = Ok z1 /\ run q2 = Ok z2 /\ Forall2 Qle z1 z2)).
  { unfold run, surface_z_from_neighbors.
    destruct (Qle_bool radius_m 0); [left; eauto|].
    destruct (k <=? 0); [left; eauto|].
    destruct Hq1 as [A1 B1], Hq2 as [A2 B2].
    apply Qle_bool_iff in A1, B1, A2, B2. rewrite A1, B1, A2, B2. cbn [andb negb].
    unfold _surface_z_from_neighbors_grid.
    destruct (length (map fst cloud_xyz) <=? 0)%nat; [left; eauto|].
    apply samples_loop_mono. intros s. now apply sample_z_mono. }
  split; [exact Hcases|].
  intros Hr Hk Hne Hfit.
  destruct Hcases as [(e & E1 & _)|Hok]; [|exact Hok].
  exfalso. unfold run in E1.
  rewrite surface_z_runs_grid in E1 by assumption.
  set (f := sample_z _ _ _ _ _ _ _ _ _) in E1.
  assert (Hall : Forall (fun s => exists v, f s = Ok v) samples_xy).
  { rewrite Forall_forall in *. intros s Hs. apply sample_z_returns. now apply Hfit. }
  destruct (samples_loop_returns f samples_xy Hall) as (out & E & _).
  rewrite E in E1. discriminate.
Qed.

Lemma surface_z_monotone_in_quantile_witness :
  exists z1 z2,
    surface_z_from_neighbors int32_min_on_overflow stable_argpartition
        four_points
      [(5 # 1, 0); (1000 # 1, 0)]%Q (6 # 1) 64 (1 # 10) (7 # 1) 0 = Ok z1 /\
    surface_z_from_neighbors int32_min_on_overflow stable_argpartition
        four_points
      [(5 # 1, 0); (1000 # 1, 0)]%Q (6 # 1) 64 (9 # 10) (7 # 1) 0 = Ok z2 /\
    Forall2 Qle z1 z2.
Proof.
  destruct (surface_z_monotone_in_quantile int32_min_on_overflow
      stable_argpartition four_points
              [(5 # 1, 0); (1000 # 1, 0)]%Q (6 # 1) 64 (7 # 1) 0 (1 # 10) (9 # 10))
    as [_ H]; try discriminate.
  apply H.
  - reflexivity.
  - reflexivity.
  - discriminate.
  - repeat constructor.
Defined.

(** The end-to-end scenario of the specification, with the stable sort for
    [np.argpartition]: radius 20 reaches the four points from every sample,
    k = 1 keeps a nearest one, and the quantile 0 of a single value is that
    value.  At the sample (5, 0) two points are equally near, with
    elevations 2 and 100; the stable sort keeps the first. *)
Example surface_z_end_to_end :
  surface_z_from_neighbors int32_min_on_overflow stable_argpartition four_points
    [(0, 0); (5 # 1, 0); (10 # 1, 0)]%Q (20 # 1) 1 0 (7 # 1) 0
  = Ok [1 + 0; (2 # 1) + 0; (3 # 1) + 0]%Q.
Proof. vm_compute. reflexivity. Qed.

End GridFacts.

(** * Further properties of [densify_polyline] *)

Section DensifyMoreFacts.
Import Densify DensifySpec DensifyMore.

Lemma subseq_refl {A : Type} (l : list A) : subseq l l.
Proof. induction l; constructor; assumption. Qed.

Lemma subseq_in {A : Type} (l1 l2 : list A) (a : A) :
  subseq l1 l2 -> In a l1 -> In a l2.
Proof.
  induction 1 as [|b l1 l2 _ IH|b l1 l2 _ IH]; intros Hin.
  - contradiction.
  - right. now apply IH.
  - destruct Hin as [->|Hin]; [now left|right; now apply IH].
Qed.

Lemma dedup_from_subseq (l : list vertex) (k : vertex) :
  subseq (dedup_from k l) l.
Proof.
  revert k. induction l as [|xy l IH]; intros k; simpl; [constructor|].
  destruct (far k xy); constructor; apply IH.
Qed.

Lemma dedup_from_far (l : list vertex) (k : vertex) :
  consecutive (fun p q => far p q = true) (k :: dedup_from k l).
Proof.
  unfold consecutive. revert k.
  induction l as [|xy l IH]; intros k; simpl.
  - repeat constructor.
  - destruct (far k xy) eqn:F; [|apply IH].
    constructor; [apply IH|]. constructor. exact F.
Qed.

Lemma densify_returns_subseq (vertices : list vertex) (step_m : Q) :
  (2 <= length vertices)%nat -> 0 < step_m ->
  exists out,
    densify_polyline vertices step_m = Ok out /\
    subseq out (emitted vertices step_m).
Proof.
  intros Hlen Hs. rewrite densify_runs by assumption.
  eexists. split; [reflexivity|].
  destruct (emitted vertices step_m) as [|h t]; [constructor|].
  rewrite dedup_pass_cons. apply subseq_keep. apply dedup_from_subseq.
Qed.

(** X1.  For a polyline of at least two vertices and a positive step the
    returned sequence is the emitted one with some points left out, the order
    kept; it starts with the first emitted point; and no returned point is a
    near-duplicate of the one returned before it: they differ by more than
    1e-9 in x or in y. *)
Theorem densify_polyline_dedup_invariant (vertices : list vertex) (step_m : Q) :
  (2 <= length vertices)%nat -> 0 < step_m ->
  exists first rest,
    densify_polyline vertices step_m = Ok (first :: rest) /\
    hd origin (emitted vertices step_m) = first /\
    subseq (first :: rest) (emitted vertices step_m) /\
    consecutive (fun p q => far p q = true) (first :: rest).
Proof.
  intros Hlen Hs. rewrite densify_runs by assumption.
  destruct (emitted vertices step_m) as [|h t] eqn:E.
  - unfold emitted in E. destruct (fold_left _ _ _); discriminate.
  - rewrite dedup_pass_cons. exists h, (dedup_from h t).
    split; [reflexivity|]. split; [reflexivity|]. split.
    + apply subseq_keep. apply dedup_from_subseq.
    + apply dedup_from_far.
Qed.

Lemma densify_polyline_dedup_invariant_witness :
  exists first rest,
    densify_polyline line_0_10 (5 # 1) = Ok (first :: rest) /\
    consecutive (fun p q => far p q = true) (first :: rest).
Proof.
  destruct (densify_polyline_dedup_invariant line_0_10 (5 # 1))
    as (first & rest & E & _ & _ & H); [simpl; lia|reflexivity|].
  exists first, rest. split; assumption.
Defined.

Lemma in_pairs (vs : list vertex) (a b : vertex) :
  In (a, b) (pairs vs) -> In a vs /\ In b vs.
Proof.
  unfold pairs. intros H. split.
  - apply (in_combine_l _ _ _ _ H).
  - apply in_combine_r in H. destruct vs; [contradiction|]. now right.
Qed.

Lemma last_in_pairs (vs : list vertex) :
  (2 <= length vs)%nat -> exists v0, In (v0, last vs origin) (pairs vs).
Proof.
  induction vs as [|a vs IH]; intros Hlen; [simpl in Hlen; lia|].
  destruct vs as [|b vs]; [simpl in Hlen; lia|].
  destruct vs as [|c vs].
  - exists a. now left.
  - destruct (IH ltac:(simpl; lia)) as [v0 H]. exists v0.
    change (last (a :: b :: c :: vs) origin) with (last (b :: c :: vs) origin).
    unfold pairs in *. cbn [tl combine] in *. right. exact H.
Qed.

Lemma interp_on_segment (v0 v1 : vertex) (n j : nat) :
  (j < n)%nat -> on_segment v0 v1 (interp v0 v1 n j).
Proof.
  intros Hj. exists (inject_Z (Z.of_nat j) / inject_Z (Z.of_nat n)).
  assert (HN : 0 < inject_Z (Z.of_nat n)) by (apply inject_nat_pos; lia).
  assert (HJ : 0 <= inject_Z (Z.of_nat j)).
  { change 0 with (inject_Z 0). rewrite <- Zle_Qle. lia. }
  assert (HJN : inject_Z (Z.of_nat j) <= inject_Z (Z.of_nat n)).
  { rewrite <- Zle_Qle. lia. }
  split; [apply Qle_shift_div_l; lra|]. split; [apply Qle_shift_div_r; lra|].
  rewrite interp_vx, interp_vy. split; reflexivity.
Qed.

(** X2.  Every point [densify_polyline] returns for a polyline of at least
    two vertices lies, in the plane, on a segment between two consecutive
    vertices of the polyline. *)
Theorem densify_polyline_on_polyline (vertices : list vertex) (step_m : Q) :
  (2 <= length vertices)%nat -> 0 < step_m ->
  exists out,
    densify_polyline vertices step_m = Ok out /\
    Forall (on_polyline vertices) out.
Proof.
  intros Hlen Hs.
  destruct (densify_returns_subseq vertices step_m Hlen Hs) as (out & E & Hsub).
  exists out. split; [exact E|].
  rewrite Forall_forall. intros p Hp.
  apply (subseq_in _ _ _ Hsub) in Hp.
  rewrite emitted_route in Hp. unfold route in Hp.
  apply in_app_or in Hp. destruct Hp as [Hp|[<-|[]]].
  - apply in_flat_map in Hp. destruct Hp as ([v0 v1] & Hpair & Hp).
    cbn [fst snd] in Hp. exists v0, v1. split; [exact Hpair|].
    destruct (Qeq_dec (planar_sq v0 v1) 0) as [Hz|Hnz].
    + rewrite (seg_points_degenerate _ _ _ Hz) in Hp. contradiction.
    + rewrite (seg_points_interp _ _ _ Hnz) in Hp.
      apply in_map_iff in Hp. destruct Hp as (j & <- & Hj).
      apply in_seq in Hj. apply interp_on_segment. lia.
  - destruct (last_in_pairs vertices Hlen) as [v0 H].
    exists v0, (last vertices origin). split; [exact H|].
    exists 1. split; [discriminate|]. split; [discriminate|]. split; ring.
Qed.

Lemma densify_polyline_on_polyline_witness :
  exists out,
    densify_polyline line_0_10 (5 # 1) = Ok out /\
    Forall (on_polyline line_0_10) out.
Proof.
  apply (densify_polyline_on_polyline line_0_10 (5 # 1)); [simpl; lia|reflexivity].
Defined.

(** X3.  For a polyline of at least two vertices and a positive step the
    first returned point has the planar position of the first vertex. *)
Theorem densify_polyline_starts_at_first_vertex (vertices : list vertex)
  (step_m : Q) :
  (2 <= length vertices)%nat -> 0 < step_m ->
  exists first rest,
    densify_polyline vertices step_m = Ok (first :: rest) /\
    same_xy first (hd origin vertices).
Proof.
  intros Hlen Hs.
  assert (Hne : vertices <> []) by (destruct vertices; [simpl in Hlen; lia|discriminate]).
  destruct (route_spaced step_m vertices Hs Hne) as (h & t & Er & Hh & _).
  rewrite densify_runs, emitted_route, Er, dedup_pass_cons by assumption.
  exists h, (dedup_from h t). split; [reflexivity|exact Hh].
Qed.

Lemma densify_polyline_starts_at_first_vertex_witness :
  exists first rest,
    densify_polyline line_0_10 (5 # 1) = Ok (first :: rest) /\
    same_xy first (hd origin line_0_10).
Proof.
  apply (densify_polyline_starts_at_first_vertex line_0_10 (5 # 1));
    [simpl; lia|reflexivity].
Defined.

Lemma in_emitted (vertices : list vertex) (step_m : Q) (p : vertex) :
  In p (emitted vertices step_m) ->
  p = last vertices origin \/
  exists v0 v1 n j, In (v0, v1) (pairs vertices) /\ p = interp v0 v1 n j.
Proof.
  rewrite emitted_route. unfold route. intros Hp.
  apply in_app_or in Hp. destruct Hp as [Hp|[<-|[]]]; [right|now left].
  apply in_flat_map in Hp. destruct Hp as ([v0 v1] & Hpair & Hp).
  cbn [fst snd] in Hp. exists v0, v1.
  destruct (Qeq_dec (planar_sq v0 v1) 0) as [Hz|Hnz].
  - rewrite (seg_points_degenerate _ _ _ Hz) in Hp. contradiction.
  - rewrite (seg_points_interp _ _ _ Hnz) in Hp.
    apply in_map_iff in Hp. destruct Hp as (j & <- & _). eauto.
Qed.

Lemma last_in (vs : list vertex) : vs <> [] -> In (last vs origin) vs.
Proof.
  induction vs as [|a vs IH]; intros H; [contradiction|].
  destruct vs as [|b vs]; [now left|]. right. apply IH. discriminate.
Qed.

(** X4.  Elevations are all or nothing: for a polyline of at least two
    vertices, when no vertex has an elevation no returned point has one, and
    when every vertex has an elevation every returned point has one. *)
Theorem densify_polyline_elevation_presence (vertices : list vertex) (step_m : Q) :
  (2 <= length vertices)%nat -> 0 < step_m ->
  exists out,
    densify_polyline vertices step_m = Ok out /\
    (Forall (fun v => vz v = None) vertices -> Forall (fun p => vz p = None) out) /\
    (Forall (fun v => vz v <> None) vertices -> Forall (fun p => vz p <> None) out).
Proof.
  intros Hlen Hs.
  assert (Hne : vertices <> []) by (destruct vertices; [simpl in Hlen; lia|discriminate]).
  destruct (densify_returns_subseq vertices step_m Hlen Hs) as (out & E & Hsub).
  exists out. split; [exact E|].
  split; intros Hv; rewrite Forall_forall in *; intros p Hp;
    apply (subseq_in _ _ _ Hsub) in Hp; apply in_emitted in Hp;
    destruct Hp as [->|(v0 & v1 & n & j & Hpair & ->)].
  - apply Hv. now apply last_in.
  - apply in_pairs in Hpair. destruct Hpair as [H0 H1].
    rewrite interp_vz, (Hv v0 H0). reflexivity.
  - apply Hv. now apply last_in.
  - apply in_pairs in Hpair. destruct Hpair as [H0 H1].
    rewrite interp_vz. specialize (Hv v0 H0) as Z0. specialize (Hv v1 H1) as Z1.
    destruct (vz v0); [|contradiction]. destruct (vz v1); [discriminate|contradiction].
Qed.

Lemma densify_polyline_elevation_presence_witness :
  exists out,
    densify_polyline [(0, 0, Some 1); (10 # 1, 0, Some (4 # 1))] (5 # 1) = Ok out /\
    Forall (fun p => vz p <> None) out.
Proof.
  destruct (densify_polyline_elevation_presence
              [(0, 0, Some 1); (10 # 1, 0, Some (4 # 1))] (5 # 1))
    as (out & E & _ & H); [simpl; lia|reflexivity|].
  exists out. split; [exact E|]. apply H. repeat constructor; discriminate.
Defined.

(** X5.  A polyline of two vertices whose planar length equals the step,
    the step being longer than the diagonal of the dedup tolerance, is
    returned as two points: one at the position of the first vertex, and the
    second vertex itself. *)
Theorem densify_polyline_single_step (v0 v1 : vertex) (step_m : Q) :
  0 < step_m -> planar_sq v0 v1 == sq step_m -> 2 * sq eps < sq step_m ->
  densify_polyline [v0; v1] step_m = Ok [interp v0 v1 1 0; v1] /\
  same_xy (interp v0 v1 1 0) v0.
Proof.
  intros Hs HL Heps. split; [|apply interp_start].
  rewrite densify_runs by (simpl; lia || assumption).
  rewrite emitted_route. unfold route, pairs. cbn [tl combine flat_map fst snd last app].
  assert (Hss : 0 < sq step_m) by (unfold sq; nra).
  assert (Hpos : 0 < planar_sq v0 v1) by (rewrite HL; exact Hss).
  assert (Hnz : ~ planar_sq v0 v1 == 0) by (intros E; rewrite E in Hpos; discriminate).
  rewrite (seg_points_interp _ _ _ Hnz), app_nil_r.
  destruct (seg_count_spec _ _ step_m Hs Hpos) as (Hn1 & Hlo & _).
  fold (planar_sq v0 v1) in Hlo.
  set (n := seg_count (vx v1 - vx v0) (vy v1 - vy v0) step_m) in *.
  assert (Hn : n = 1%nat).
  { destruct (Nat.eq_dec n 1) as [|Hne]; [assumption|exfalso].
    assert (H2 : (2 <= Z.of_nat n)%Z) by lia.
    rewrite Zle_Qle in H2. change (inject_Z 2) with 2 in H2.
    rewrite HL in Hlo. unfold sq in Hlo.
    set (N := inject_Z (Z.of_nat n)) in *. clearbody N.
    assert (0 <= (N - 2) * step_m) by (apply Qmult_le_0_compat; lra).
    nra. }
  rewrite Hn. cbn [seq map app].
  rewrite dedup_pass_cons. cbn [dedup_from].
  assert (Hfar : far (interp v0 v1 1 0) v1 = true).
  { destruct (far (interp v0 v1 1 0) v1) eqn:F; [reflexivity|exfalso].
    apply far_false_close in F. destruct F as [Fx Fy].
    destruct (interp_start v0 v1 1) as [Ex Ey].
    rewrite Ex in Fx. rewrite Ey in Fy.
    unfold planar_sq, hypot_sq, sq in HL, Heps.
    assert (Bx : (vx v1 - vx v0) * (vx v1 - vx v0) <= eps * eps).
    { revert Fx. apply Qabs_case; intros; unfold eps in *; nra. }
    assert (By : (vy v1 - vy v0) * (vy v1 - vy v0) <= eps * eps).
    { revert Fy. apply Qabs_case; intros; unfold eps in *; nra. }
    lra. }
  rewrite Hfar. reflexivity.
Qed.

Lemma densify_polyline_single_step_witness :
  densify_polyline [(0, 0, None); (3 # 1, 4 # 1, None)] (5 # 1)
  = Ok [interp (0, 0, None) (3 # 1, 4 # 1, None) 1 0; (3 # 1, 4 # 1, None)].
Proof.
  apply (densify_polyline_single_step (0, 0, None) (3 # 1, 4 # 1, None) (5 # 1));
    reflexivity.
Defined.

(** X29.  Every point [densify_polyline] returns for a polyline of at least
    two vertices is the last vertex as given, or lies between two consecutive
    vertices at a parameter t in [0, 1) that gives its x, its y and its
    elevation alike: the elevation is interpolated when both vertices have
    one, and is absent as soon as one of them has none, even at t = 0 where
    the point stands on a vertex that has one. *)
Theorem densify_polyline_elevation_interpolated (vertices : list vertex)
  (step_m : Q) :
  (2 <= length vertices)%nat -> 0 < step_m ->
  exists out,
    densify_polyline vertices step_m = Ok out /\
    Forall (fun p => p = last vertices origin \/
                     exists v0 v1, In (v0, v1) (pairs vertices) /\ between v0 v1 p)
           out.
Proof.
  intros Hlen Hs.
  destruct (densify_returns_subseq vertices step_m Hlen Hs) as (out & E & Hsub).
  exists out. split; [exact E|].
  rewrite Forall_forall. intros p Hp.
  apply (subseq_in _ _ _ Hsub) in Hp.
  rewrite emitted_route in Hp. unfold route in Hp.
  apply in_app_or in Hp. destruct Hp as [Hp|[<-|[]]]; [right|now left].
  apply in_flat_map in Hp. destruct Hp as ([v0 v1] & Hpair & Hp).
  cbn [fst snd] in Hp. exists v0, v1. split; [exact Hpair|].
  destruct (Qeq_dec (planar_sq v0 v1) 0) as [Hz|Hnz].
  { rewrite (seg_points_degenerate _ _ _ Hz) in Hp. contradiction. }
  rewrite (seg_points_interp _ _ _ Hnz) in Hp.
  apply in_map_iff in Hp. destruct Hp as (j & <- & Hj).
  apply in_seq in Hj.
  set (n := seg_count _ _ _) in *.
  exists (inject_Z (Z.of_nat j) / inject_Z (Z.of_nat n)).
  assert (HN : 0 < inject_Z (Z.of_nat n)) by (apply inject_nat_pos; lia).
  assert (HJ : 0 <= inject_Z (Z.of_nat j)).
  { change 0 with (inject_Z 0). rewrite <- Zle_Qle. lia. }
  assert (HJN : inject_Z (Z.of_nat j) < inject_Z (Z.of_nat n)).
  { rewrite <- Zlt_Qlt. lia. }
  split; [apply Qle_shift_div_l; lra|]. split; [apply Qlt_shift_div_r; lra|].
  rewrite interp_vx, interp_vy. split; [reflexivity|]. split; [reflexivity|].
  unfold z_between. rewrite interp_vz.
  destruct (vz v0) as [z0|]; [|reflexivity].
  destruct (vz v1) as [z1|]; [|reflexivity].
  eexists. split; reflexivity.
Qed.

Lemma densify_polyline_elevation_interpolated_witness :
  exists out,
    densify_polyline half_elevated (5 # 1) = Ok out /\
    Forall (fun p => p = last half_elevated origin \/
                     exists v0 v1, In (v0, v1) (pairs half_elevated) /\
                                   between v0 v1 p)
           out.
Proof.
  apply (densify_polyline_elevation_interpolated half_elevated (5 # 1));
    [simpl; lia|reflexivity].
Defined.

End DensifyMoreFacts.

(** * Further properties of the readers of [cloud_las.py] *)

Section CloudLasMoreFacts.
Import Las Np CloudLas CloudLasSpec CloudLasStats PipelineSpec.

(** The chunk loop retains the points inside the box of a prefix of the
    file, in file order; the prefix is the whole file unless the cap was
    met. *)
Lemma read_loop_prefix (b : bbox) (max_points : option Z)
  (chunks : list (list LasPoint)) :
  forall (st : columns) (K : list (list LasPoint)),
  holds st K ->
  exists pre post K',
    concat chunks = pre ++ post /\
    holds (read_loop b max_points chunks st) K' /\
    concat K' = concat K ++ filter (mask b) pre /\
    (post = [] \/
     exists cap, max_points = Some cap /\ (cap <= Z.of_nat (length (concat K')))%Z) /\
    (K <> [] \/ filter (mask b) (concat chunks) <> [] -> K' <> []).
Proof.
  induction chunks as [|pts rest IH]; intros st K HK.
  - exists [], [], K. split; [reflexivity|]. split; [exact HK|].
    split; [simpl; now rewrite app_nil_r|]. split; [now left|].
    intros [H|H]; [assumption|now simpl in H].
  - cbn [read_loop]. rewrite np_any_filter, negb_involutive.
    destruct (Nat.eqb_spec (length (filter (mask b) pts)) 0) as [E|E].
    + apply length_zero_iff_nil in E.
      destruct (IH st K HK) as (pre & post & K' & Hc & HK' & Hk & Hp & Hn).
      exists (pts ++ pre), post, K'. cbn [concat].
      rewrite Hc, app_assoc, !filter_app, E. cbn [app] in *.
      split; [reflexivity|]. split; [exact HK'|]. split; [exact Hk|].
      split; [exact Hp|]. rewrite <- filter_app, <- Hc. exact Hn.
    + set (st' := {| xs := xs st ++ [select (map x pts) (map (mask b) pts)];
                     ys := ys st ++ [select (map y pts) (map (mask b) pts)];
                     zs := zs st ++ [select (map z pts) (map (mask b) pts)] |}).
      assert (HK1 : holds st' (K ++ [filter (mask b) pts])).
      { destruct HK as (Hx & Hy & Hz). unfold holds, st'. cbn [xs ys zs].
        rewrite !select_map_filter, !map_app, Hx, Hy, Hz. auto. }
      assert (Hcat : concat (K ++ [filter (mask b) pts])
                     = concat K ++ filter (mask b) pts).
      { rewrite concat_app. simpl. now rewrite app_nil_r. }
      assert (Hne1 : K ++ [filter (mask b) pts] <> []).
      { intros H. apply app_eq_nil in H. destruct H; discriminate. }
      assert (Hgo :
        exists pre post K',
          concat (pts :: rest) = pre ++ post /\
          holds (read_loop b max_points rest st') K' /\
          concat K' = concat K ++ filter (mask b) pre /\
          (post = [] \/
           exists cap, max_points = Some cap /\
                       (cap <= Z.of_nat (length (concat K')))%Z) /\
          (K <> [] \/ filter (mask b) (concat (pts :: rest)) <> [] -> K' <> [])).
      { destruct (IH st' _ HK1) as (pre & post & K' & Hc & HK' & Hk & Hp & Hn).
        exists (pts ++ pre), post, K'. cbn [concat].
        split; [now rewrite Hc, app_assoc|]. split; [exact HK'|].
        split; [now rewrite filter_app, Hk, Hcat, <- app_assoc|].
        split; [exact Hp|]. intros _. apply Hn. now left. }
      destruct max_points as [cap|]; [|exact Hgo].
      fold st'. destruct (total_size (xs st') >=? cap)%Z eqn:Hge; [|exact Hgo].
      exists pts, (concat rest), (K ++ [filter (mask b) pts]).
      split; [reflexivity|]. split; [exact HK1|]. split; [exact Hcat|].
      split; [|auto].
      right. exists cap. split; [reflexivity|].
      rewrite (total_size_holds st' _ HK1) in Hge. apply Z.geb_le in Hge. exact Hge.
Qed.

Section Sampler.
Variable choice : Z -> nat -> nat -> list nat.

Lemma read_chunked_all_inside (chunk os_entropy : Z) (lf : LasFile) (b : bbox)
  (max_points : option Z) :
  (1 <= total_in_bbox lf b)%nat ->
  (max_points = None \/
   exists cap, max_points = Some cap /\ (Z.of_nat (total_in_bbox lf b) <= cap)%Z) ->
  read_las_points_in_bbox_chunked choice chunk os_entropy lf b max_points
  = Ok (map source_xyz (filter (mask b) (points lf))).
Proof.
  intros Htot Hcap. unfold read_las_points_in_bbox_chunked, total_in_bbox in *.
  destruct (read_loop_prefix b max_points (chunk_iterator lf chunk)
              {| xs := []; ys := []; zs := [] |} [])
    as (pre & post & K' & Hc & HK' & Hk & Hp & Hn); [repeat split|].
  rewrite chunk_iterator_concat in Hc, Hn. cbn [concat app] in Hk.
  set (st := read_loop b max_points (chunk_iterator lf chunk)
               {| xs := []; ys := []; zs := [] |}) in *.
  rewrite (holds_points st K' HK'), length_map.
  assert (Hne : K' <> []).
  { apply Hn. right. intros E. rewrite E in Htot. simpl in Htot. lia. }
  destruct (xs st) eqn:Ex.
  { destruct HK' as (Hx & _). rewrite Ex in Hx. destruct K'; [contradiction|discriminate]. }
  assert (Hall : concat K' = filter (mask b) (points lf)).
  { rewrite Hk, Hc, filter_app.
    destruct Hp as [->|(cap & E & Hle)]; [simpl; now rewrite app_nil_r|].
    destruct Hcap as [Hnone|(cap' & E' & Hge)]; [congruence|].
    rewrite E in E'. injection E' as <-.
    rewrite Hk, Hc, filter_app, length_app in *.
    assert (L : length (filter (mask b) post) = 0%nat) by lia.
    apply length_zero_iff_nil in L. now rewrite L, app_nil_r. }
  rewrite Hall.
  destruct Hcap as [->|(cap & -> & Hge)]; [reflexivity|].
  destruct (Z.gtb_spec (Z.of_nat (length (filter (mask b) (points lf)))) cap)
    as [Hgt|_]; [lia|reflexivity].
Qed.

(** X6.  When at least one point is inside the box and the cap is absent or
    not below the number of points inside, the bounded reader returns exactly
    the points of the file that are inside the box, in file order, whatever
    the size of the chunks it reads. *)
Theorem read_las_points_in_bbox_all_inside (os_entropy : Z) (lf : LasFile)
  (b : bbox) (max_points : option Z) :
  (1 <= total_in_bbox lf b)%nat ->
  (max_points = None \/
   exists cap, max_points = Some cap /\ (Z.of_nat (total_in_bbox lf b) <= cap)%Z) ->
  read_las_points_in_bbox choice os_entropy lf b max_points
  = Ok (map source_xyz (filter (mask b) (points lf)))
  /\ forall chunk,
       read_las_points_in_bbox_chunked choice chunk os_entropy lf b max_points
       = read_las_points_in_bbox choice os_entropy lf b max_points.
Proof.
  intros Htot Hcap. unfold read_las_points_in_bbox.
  split; [now apply read_chunked_all_inside|].
  intros chunk. now rewrite !read_chunked_all_inside.
Qed.

(** The sampling routine returns positions of the population. *)
Hypothesis choice_in_range :
  forall state n k, (k <= n)%nat -> Forall (fun i => (i < n)%nat) (choice state n k).

(** X7.  Whatever the cap, every point the bounded reader returns is a point
    inside the box from a leading part of the file.  The leading part is the
    whole file unless it holds at least [max_points] points inside the box:
    what comes after it is never returned. *)
Theorem read_las_points_in_bbox_only_inside (os_entropy : Z) (lf : LasFile)
  (b : bbox) (max_points : option Z) (pts : list (Q * Q * Q)) :
  read_las_points_in_bbox choice os_entropy lf b max_points = Ok pts ->
  exists pre post,
    points lf = pre ++ post /\
    (post = [] \/
     exists cap, max_points = Some cap /\
                 (cap <= Z.of_nat (length (filter (mask b) pre)))%Z) /\
    Forall (fun p => exists q, In q pre /\ mask b q = true /\ p = source_xyz q)
           pts.
Proof.
  unfold read_las_points_in_bbox, read_las_points_in_bbox_chunked.
  destruct (read_loop_prefix b max_points (chunk_iterator lf 2000000)
              {| xs := []; ys := []; zs := [] |} [])
    as (pre & post & K' & Hc & HK' & Hk & Hpost & _); [repeat split|].
  rewrite chunk_iterator_concat in Hc. cbn [concat app] in Hk.
  rewrite Hk in Hpost.
  set (st := read_loop b max_points (chunk_iterator lf 2000000)
               {| xs := []; ys := []; zs := [] |}) in *.
  rewrite (holds_points st K' HK'), length_map, Hk.
  intros E. exists pre, post. split; [exact Hc|]. split; [exact Hpost|].
  revert E.
  assert (Hin : forall p, In p (map source_xyz (filter (mask b) pre)) ->
                exists q, In q pre /\ mask b q = true /\ p = source_xyz q).
  { intros p Hp. apply in_map_iff in Hp. destruct Hp as (q & <- & Hq).
    apply filter_In in Hq. destruct Hq as [Hq Hm].
    exists q. split; [exact Hq|split; [exact Hm|reflexivity]]. }
  change (fun p : LasPoint => (x p, y p, z p)) with source_xyz.
  set (retained := map source_xyz (filter (mask b) pre)) in *.
  destruct (xs st); [discriminate|].
  assert (Hall : Forall (fun p => exists q, In q pre /\ mask b q = true
                                            /\ p = source_xyz q) retained)
    by (rewrite Forall_forall; exact Hin).
  destruct max_points as [cap|]; [|intros E; injection E as <-; exact Hall].
  replace (length (filter (mask b) pre)) with (length retained)
    by (unfold retained; apply length_map).
  destruct (Z.gtb_spec (Z.of_nat (length retained)) cap) as [Hgt|_];
    [|intros E; injection E as <-; exact Hall].
  unfold rng_choice.
  destruct (cap <? 0)%Z eqn:Hneg; [discriminate|].
  destruct (Z.of_nat (length retained) <? cap)%Z; [discriminate|].
  cbn [bind]. intros E. injection E as <-.
  apply Z.ltb_ge in Hneg.
  pose proof (choice_in_range (default_rng (Some 0%Z) os_entropy) (length retained)
                (Z.to_nat cap) ltac:(lia)) as Hidx.
  unfold take. rewrite Forall_forall in *. intros p Hp.
  apply in_map_iff in Hp. destruct Hp as (i & <- & Hi).
  apply Hin. apply nth_In. now apply Hidx.
Qed.

End Sampler.

Lemma z_stats_fold (b : bbox) (chunks : list (list LasPoint)) :
  forall acc,
    concat (fold_left (z_stats_step b) chunks acc)
    = concat acc ++ map z (filter (mask b) (concat chunks))
    /\ (acc <> [] \/ filter (mask b) (concat chunks) <> [] ->
        fold_left (z_stats_step b) chunks acc <> [])
    /\ (filter (mask b) (concat chunks) = [] ->
        fold_left (z_stats_step b) chunks acc = acc).
Proof.
  induction chunks as [|pts rest IH]; intros acc.
  - simpl. rewrite app_nil_r. repeat split; auto.
    intros [H|H]; [assumption|contradiction].
  - cbn [fold_left concat]. unfold z_stats_step at 2 4 6.
    rewrite np_any_filter, select_map_filter, filter_app, map_app.
    destruct (Nat.eqb_spec (length (filter (mask b) pts)) 0) as [E|E]; cbn [negb].
    + apply length_zero_iff_nil in E. rewrite E. cbn [map app].
      destruct (IH acc) as (H1 & H2 & H3). repeat split; auto.
    + assert (Hne : filter (mask b) pts <> []).
      { intros H. rewrite H in E. now simpl in E. }
      destruct (IH (acc ++ [map z (filter (mask b) pts)])) as (H1 & H2 & H3).
      split; [|split].
      * rewrite H1, concat_app. cbn [concat]. now rewrite app_nil_r, <- app_assoc.
      * intros _. apply H2. left. intros H. apply app_eq_nil in H.
        destruct H; discriminate.
      * intros H. apply app_eq_nil in H. destruct H. contradiction.
Qed.

(** X8.  [read_las_bbox_z_stats] raises the not-aligned error, with the two
    boxes, when no point of the file is inside the box; otherwise it returns
    the elevations of the points inside the box in file order, which are the
    third column of what [read_las_points_in_bbox] returns without a cap. *)
Theorem read_las_bbox_z_stats_inside (choice : Z -> nat -> nat -> list nat)
  (os_entropy : Z) (lf : LasFile) (b : bbox) :
  read_las_bbox_z_stats lf b
  = (if (total_in_bbox lf b =? 0)%nat
     then Err (ValueError_cloud_not_aligned b (las_bbox_of lf))
     else Ok (map z (filter (mask b) (points lf))))
  /\ ((1 <= total_in_bbox lf b)%nat ->
      exists pts,
        read_las_points_in_bbox choice os_entropy lf b None = Ok pts /\
        read_las_bbox_z_stats lf b = Ok (map snd pts)).
Proof.
  assert (Hstats : read_las_bbox_z_stats lf b
    = (if (total_in_bbox lf b =? 0)%nat
       then Err (ValueError_cloud_not_aligned b (las_bbox_of lf))
       else Ok (map z (filter (mask b) (points lf))))).
  { unfold read_las_bbox_z_stats, read_las_bbox_z_stats_chunked, total_in_bbox.
    destruct (z_stats_fold b (chunk_iterator lf 2000000) []) as (H1 & H2 & H3).
    rewrite chunk_iterator_concat in H1, H2, H3. cbn [concat app] in H1.
    destruct (Nat.eqb_spec (length (filter (mask b) (points lf))) 0) as [E|E].
    - apply length_zero_iff_nil in E. now rewrite (H3 E).
    - assert (Hne : filter (mask b) (points lf) <> []).
      { intros H. rewrite H in E. now simpl in E. }
      specialize (H2 (or_intror Hne)).
      destruct (fold_left _ _ _); [contradiction|]. now rewrite H1. }
  split; [exact Hstats|]. intros Htot.
  exists (map source_xyz (filter (mask b) (points lf))). split.
  - apply read_chunked_all_inside; [exact Htot|now left].
  - rewrite Hstats. destruct (Nat.eqb_spec (total_in_bbox lf b) 0) as [E|_]; [lia|].
    now rewrite map_map.
Qed.

Lemma read_las_points_in_bbox_all_inside_witness :
  read_las_points_in_bbox first_indices 7 small_cloud strip_box (Some 3%Z)
  = Ok (map source_xyz (filter (mask strip_box) (points small_cloud))).
Proof.
  apply (read_las_points_in_bbox_all_inside first_indices 7 small_cloud strip_box
           (Some 3%Z)).
  - vm_compute. lia.
  - right. exists 3%Z. split; [reflexivity|]. vm_compute. discriminate.
Defined.

Lemma read_las_points_in_bbox_only_inside_witness :
  exists pre post,
    points small_cloud = pre ++ post /\
    (post = [] \/
     exists cap, Some 2%Z = Some cap /\
                 (cap <= Z.of_nat (length (filter (mask strip_box) pre)))%Z) /\
    Forall (fun p => exists q, In q pre /\ mask strip_box q = true
                               /\ p = source_xyz q)
           [(0, 0, 1); (5 # 1, 0, 2 # 1)].
Proof.
  assert (H : forall (state : Z) (n k : nat), (k <= n)%nat ->
                Forall (fun i => (i < n)%nat) (first_indices state n k)).
  { intros state n k Hk. apply Forall_forall. intros i Hi.
    unfold first_indices in Hi. apply in_seq in Hi. lia. }
  apply (read_las_points_in_bbox_only_inside first_indices H
           7 small_cloud strip_box (Some 2%Z)).
  reflexivity.
Defined.

Lemma read_las_bbox_z_stats_inside_witness :
  read_las_bbox_z_stats small_cloud strip_box = Ok [1; 2 # 1; 3 # 1] /\
  read_las_bbox_z_stats small_cloud far_box
  = Err (ValueError_cloud_not_aligned far_box (0, 0, 10 # 1, 10 # 1)).
Proof.
  split;
    rewrite (proj1 (read_las_bbox_z_stats_inside first_indices 7 small_cloud _));
    reflexivity.
Defined.

End CloudLasMoreFacts.

(** * Further properties of the grid index and of the Z assignment *)

Section ZAssignMoreFacts.
Import Np ZAssign ZAssignSpec ZAssignMore.

Local Open Scope Z_scope.

(** X9.  The public function checks its parameters in the order radius, k,
    quantile, before it looks at the cloud or at the samples: a radius that is
    not positive raises the error on the radius; with a positive radius, a k
    that is not positive raises the error on k; with both positive, a quantile
    outside [0, 1] raises the error on the quantile. *)
Theorem surface_z_parameter_errors (out_of_range_int32 : Z -> Z)
  (argpartition : list Q -> Z -> list nat)
  (cloud_xyz : list (Q * Q * Q)) (samples_xy : list (Q * Q))
  (radius_m : Q) (k : Z) (quantile fallback_z offset : Q) :
  let run := surface_z_from_neighbors out_of_range_int32 argpartition cloud_xyz
      samples_xy
               radius_m k quantile fallback_z offset in
  ((radius_m <= 0)%Q -> run = Err (ValueError "radius_m must be > 0")) /\
  ((0 < radius_m)%Q -> k <= 0 -> run = Err (ValueError "k must be > 0")) /\
  ((0 < radius_m)%Q -> 0 < k -> (quantile < 0 \/ 1 < quantile)%Q ->
   run = Err (ValueError "quantile must be within [0, 1]")).
Proof.
  cbv zeta. unfold surface_z_from_neighbors. split; [|split].
  - intros Hr. apply Qle_bool_iff in Hr. now rewrite Hr.
  - intros Hr Hk.
    destruct (Qle_bool radius_m 0) eqn:E; [apply Qle_bool_iff in E; lra|].
    destruct (Z.leb_spec k 0); [reflexivity|lia].
  - intros Hr Hk Hq.
    destruct (Qle_bool radius_m 0) eqn:E; [apply Qle_bool_iff in E; lra|].
    destruct (Z.leb_spec k 0); [lia|].
    destruct (Qle_bool 0 quantile) eqn:E0; destruct (Qle_bool quantile 1) eqn:E1;
      try reflexivity.
    apply Qle_bool_iff in E0, E1. lra.
Qed.

Lemma surface_z_parameter_errors_witness :
  surface_z_from_neighbors int32_min_on_overflow stable_argpartition four_points
      [(0, 0)%Q]
    (2 # 1) 64 (11 # 10) 0 1
  = Err (ValueError "quantile must be within [0, 1]").
Proof.
  destruct (surface_z_parameter_errors int32_min_on_overflow stable_argpartition
      four_points
              [(0, 0)%Q] (2 # 1) 64 (11 # 10) 0 1) as (_ & _ & H).
  apply H; [reflexivity|reflexivity|right; reflexivity].
Defined.

(** ** The packed keys *)

Lemma wrap64_mod (v : Z) : wrap64 v mod 2 ^ 64 = v mod 2 ^ 64.
Proof.
  unfold wrap64. rewrite Zminus_mod_idemp_l.
  replace (v + 2 ^ 63 - 2 ^ 63) with v by lia. reflexivity.
Qed.

Lemma wrap64_range (v : Z) : in_int64 (wrap64 v) = true.
Proof.
  unfold wrap64. apply in_int64_iff.
  pose proof (Z.mod_pos_bound (v + 2 ^ 63) (2 ^ 64) ltac:(lia)). lia.
Qed.

Lemma wrap64_testbit (v n : Z) :
  0 <= n < 64 -> Z.testbit (wrap64 v) n = Z.testbit v n.
Proof.
  intros Hn.
  rewrite <- (Z.mod_pow2_bits_low (wrap64 v) 64 n) by lia.
  rewrite <- (Z.mod_pow2_bits_low v 64 n) by lia.
  now rewrite wrap64_mod.
Qed.

Lemma land_low32 (b : Z) : Z.land b 4294967295 = b mod 2 ^ 32.
Proof. change 4294967295 with (Z.ones 32). apply Z.land_ones. lia. Qed.

Lemma pack_key_bits_low (a b n : Z) :
  0 <= n < 32 -> Z.testbit (pack_key a b) n = Z.testbit b n.
Proof.
  intros Hn. unfold pack_key.
  rewrite Z.lxor_spec, wrap64_testbit, Z.shiftl_spec_low, land_low32 by lia.
  rewrite Z.mod_pow2_bits_low by lia. reflexivity.
Qed.

Lemma pack_key_bits_high (a b n : Z) :
  32 <= n < 64 -> Z.testbit (pack_key a b) n = Z.testbit a (n - 32).
Proof.
  intros Hn. unfold pack_key.
  rewrite Z.lxor_spec, wrap64_testbit, Z.shiftl_spec, land_low32 by lia.
  rewrite Z.mod_pow2_bits_high by lia. apply xorb_false_r.
Qed.

Lemma mod32_bits_eq (a a' : Z) :
  (forall n, 0 <= n < 32 -> Z.testbit a n = Z.testbit a' n) ->
  a mod 2 ^ 32 = a' mod 2 ^ 32.
Proof.
  intros H. apply Z.bits_inj'. intros n Hn.
  destruct (Z.lt_ge_cases n 32) as [Hlt|Hge].
  - rewrite !Z.mod_pow2_bits_low by lia. apply H. lia.
  - rewrite !Z.mod_pow2_bits_high by lia. reflexivity.
Qed.

Lemma pack_key_mod (a a' b b' : Z) :
  pack_key a b = pack_key a' b' <->
  a mod 2 ^ 32 = a' mod 2 ^ 32 /\ b mod 2 ^ 32 = b' mod 2 ^ 32.
Proof.
  split.
  - intros E. split; apply mod32_bits_eq; intros n Hn.
    + pose proof (pack_key_bits_high a b (n + 32) ltac:(lia)) as H1.
      pose proof (pack_key_bits_high a' b' (n + 32) ltac:(lia)) as H2.
      replace (n + 32 - 32) with n in H1, H2 by lia.
      rewrite <- H1, <- H2, E. reflexivity.
    + rewrite <- (pack_key_bits_low a b n), <- (pack_key_bits_low a' b' n) by lia.
      now rewrite E.
  - intros [Ea Eb]. unfold pack_key. rewrite !land_low32, Eb. f_equal.
    unfold wrap64. f_equal. rewrite !Z.shiftl_mul_pow2 by lia.
    rewrite <- (Zplus_mod_idemp_l (a * 2 ^ 32)), <- (Zplus_mod_idemp_l (a' * 2 ^ 32)).
    f_equal. f_equal.
    change (2 ^ 64) with (2 ^ 32 * 2 ^ 32).
    rewrite !Zmult_mod_distr_r, Ea. reflexivity.
Qed.

Lemma in_int32_iff' (v : Z) : in_int32 v = true <-> - 2 ^ 31 <= v < 2 ^ 31.
Proof.
  unfold in_int32. rewrite andb_true_iff, Z.leb_le, Z.ltb_lt. reflexivity.
Qed.

Lemma mod_eq_close (a b m : Z) :
  0 < m -> a mod m = b mod m -> - m < a - b < m -> a = b.
Proof.
  intros Hm E Hc.
  pose proof (Z.div_mod a m ltac:(lia)) as Ha.
  pose proof (Z.div_mod b m ltac:(lia)) as Hb.
  rewrite E in Ha.
  set (q := a / m) in *. set (q' := b / m) in *. set (r := b mod m) in *.
  clearbody q q' r.
  assert (D : a - b = m * (q - q')) by lia.
  assert (q - q' = 0) by nia. lia.
Qed.

Lemma pack_key_offsets_distinct (cx cy : Z) (d d' : Z * Z) :
  In d cell_offsets -> In d' cell_offsets ->
  pack_key (cx + fst d) (cy + snd d) = pack_key (cx + fst d') (cy + snd d') ->
  d = d'.
Proof.
  destruct d as [dx dy], d' as [dx' dy']. intros Hd Hd' E. cbn [fst snd] in E.
  apply pack_key_mod in E. destruct E as [Ea Eb].
  assert (Hr : forall u v, In (u, v) cell_offsets -> -1 <= u <= 1 /\ -1 <= v <= 1).
  { intros u v H. unfold cell_offsets in H. cbn [flat_map map app In] in H.
    repeat (destruct H as [H|H]; [injection H as <- <-; lia|]). contradiction. }
  destruct (Hr _ _ Hd), (Hr _ _ Hd').
  assert (cx + dx = cx + dx') by (apply (mod_eq_close _ _ (2 ^ 32)); lia || assumption).
  assert (cy + dy = cy + dy') by (apply (mod_eq_close _ _ (2 ^ 32)); lia || assumption).
  f_equal; lia.
Qed.

(** X10.  Two pairs of cell indices get the same key exactly when they agree
    modulo 2^32 in both components; hence the key tells apart all pairs of
    32-bit indices, and the nine cells around any cell.  Every key fits 64
    bits. *)
Theorem pack_key_injective (a a' b b' : Z) :
  (pack_key a b = pack_key a' b' <->
   a mod 2 ^ 32 = a' mod 2 ^ 32 /\ b mod 2 ^ 32 = b' mod 2 ^ 32)
  /\ (in_int32 a = true -> in_int32 a' = true ->
      in_int32 b = true -> in_int32 b' = true ->
      pack_key a b = pack_key a' b' -> a = a' /\ b = b')
  /\ (forall cx cy d d', In d cell_offsets -> In d' cell_offsets ->
      pack_key (cx + fst d) (cy + snd d) = pack_key (cx + fst d') (cy + snd d') ->
      d = d')
  /\ in_int64 (pack_key a b) = true.
Proof.
  split; [apply pack_key_mod|]. split; [|split].
  - rewrite !in_int32_iff'. intros Ha Ha' Hb Hb' E.
    apply pack_key_mod in E. destruct E as [Ea Eb].
    split; apply (mod_eq_close _ _ (2 ^ 32)); lia || assumption.
  - intros cx cy d d'. apply pack_key_offsets_distinct.
  - unfold pack_key. apply in_int64_iff.
    set (h := wrap64 (Z.shiftl a 32)). set (l := Z.land b 4294967295).
    assert (Hh : - 2 ^ 63 <= h < 2 ^ 63) by (apply in_int64_iff, wrap64_range).
    assert (Hl : 0 <= l < 2 ^ 32).
    { unfold l. rewrite land_low32. apply Z.mod_pos_bound. lia. }
    assert (Hlow : forall n, 0 <= n < 32 -> Z.testbit h n = false).
    { intros n Hn. unfold h. rewrite wrap64_testbit, Z.shiftl_spec_low by lia.
      reflexivity. }
    assert (Hand : Z.land h l = 0).
    { apply Z.bits_inj'. intros n Hn. rewrite Z.land_spec, Z.bits_0.
      destruct (Z.lt_ge_cases n 32).
      - rewrite Hlow by lia. reflexivity.
      - unfold l. rewrite land_low32, Z.mod_pow2_bits_high by lia.
        apply andb_false_r. }
    rewrite <- (Z.add_nocarry_lxor h l Hand).
    assert (Hdiv : h mod 2 ^ 32 = 0).
    { rewrite <- (Z.mod_0_l (2 ^ 32)) by lia. apply mod32_bits_eq.
      intros n Hn. rewrite Hlow, Z.bits_0 by lia. reflexivity. }
    pose proof (Z.div_mod h (2 ^ 32) ltac:(lia)). lia.
Qed.

(** ** Invariants of the index *)

Lemma unique_from_counts (a : list Z) (pos : nat) :
  list_sum (map snd (unique_from pos a)) = length a /\
  (a <> [] -> unique_from pos a <> []).
Proof.
  revert pos. induction a as [|v t IH]; intros pos; [now split|].
  cbn [unique_from]. destruct (IH (S pos)) as [Hs Hne].
  destruct (unique_from (S pos) t) as [|[[u s] c] r] eqn:E.
  - destruct t as [|w t]; [now split|]. exfalso. now apply Hne.
  - simpl in Hs. split; [|destruct (v =? u); discriminate].
    destruct (v =? u); simpl; lia.
Qed.

Lemma map_snd_combine_seq {A : Type} (l : list A) (o : nat) :
  map snd (combine l (seq o (length l))) = seq o (length l).
Proof.
  revert o. induction l as [|a l IH]; intros o; simpl; [reflexivity|].
  now rewrite IH.
Qed.

Lemma argsort_perm {A : Type} (leb : A -> A -> bool) (a : list A) :
  Permutation (argsort leb a) (seq 0 (length a)).
Proof.
  unfold argsort. rewrite <- (map_snd_combine_seq a 0) at 2.
  apply Permutation_map. apply isort_perm.
Qed.

(** X11.  The index built over a cloud of n points lists every position
    0 .. n-1 once in [order]; its distinct keys are strictly increasing; it
    keeps one start and one count per distinct key, and the counts add up to
    n; and looking up a key returns exactly the positions of the cloud points
    with that key, so every point is found under its own key. *)
Theorem build_index_invariants (out_of_range_int32 : Z -> Z)
  (cloud_xy : list (Q * Q)) (cell : Q) :
  let g := build_index out_of_range_int32 cloud_xy cell in
  Permutation (order g) (seq 0 (length cloud_xy)) /\
  StronglySorted Z.lt (uniq g) /\
  length (start_idx g) = length (uniq g) /\
  length (counts g) = length (uniq g) /\
  list_sum (counts g) = length cloud_xy /\
  (forall k i,
     In i (_cell_indices g k) <->
     (i < length cloud_xy)%nat /\
     cloud_key out_of_range_int32 cell (nth i cloud_xy (0%Q, 0%Q)) = k).
Proof.
  cbv zeta.
  assert (Hlook : forall k i,
     In i (_cell_indices (build_index out_of_range_int32 cloud_xy cell) k) <->
     (i < length cloud_xy)%nat /\
     cloud_key out_of_range_int32 cell (nth i cloud_xy (0%Q, 0%Q)) = k)
    by (intros k i; apply in_cell_indices).
  revert Hlook. generalize (_cell_indices (build_index out_of_range_int32 cloud_xy cell)).
  intros lookup Hlook.
  unfold build_index. cbn [order uniq start_idx counts].
  set (keys := map (cloud_key out_of_range_int32 cell) cloud_xy).
  assert (Hn : length keys = length cloud_xy) by apply length_map.
  split; [rewrite <- Hn; apply argsort_perm|].
  rewrite keys_sorted_pairs.
  assert (Hks : StronglySorted Z.le (map fst (sorted_pairs keys))).
  { pose proof (sorted_pairs_sorted keys) as HL.
    induction HL as [|a l Hl IH Ha]; cbn [map]; constructor; auto.
    now rewrite Forall_map. }
  destruct (unique_from_spec _ Hks 0%nat) as (_ & Hlt & _ & _).
  split; [exact Hlt|]. rewrite !length_map. split; [reflexivity|].
  split; [reflexivity|]. split.
  - rewrite (proj1 (unique_from_counts _ 0%nat)), length_map.
    unfold sorted_pairs.
    rewrite (Permutation_length (isort_perm by_key _)), length_combine, length_seq.
    lia.
  - exact Hlook.
Qed.

(** ** What the grid query returns *)

Lemma gather_step_err (g : GridIndex) (cx cy : Z) (offsets : list (Z * Z))
  (e : exn) :
  fold_left (gather_step g cx cy) offsets (Err e) = Err e.
Proof. induction offsets as [|d offsets IH]; [reflexivity|exact IH]. Qed.

Lemma gather_fold_ok (g : GridIndex) (cx cy : Z) (offsets : list (Z * Z)) :
  forall cand0 cand,
    fold_left (gather_step g cx cy) offsets (Ok cand0) = Ok cand ->
    concat cand = concat cand0 ++ around g cx cy offsets.
Proof.
  induction offsets as [|d offsets IH]; intros cand0 cand E.
  - cbn [fold_left] in E. injection E as <-. unfold around. simpl.
    now rewrite app_nil_r.
  - cbn [fold_left] in E. unfold gather_step at 2 in E. cbn [bind] in E.
    destruct (np_int64 (cx + fst d)) as [a|e] eqn:Ea;
      [|cbn [bind] in E; rewrite gather_step_err in E; discriminate].
    destruct (np_int64 (cy + snd d)) as [b|e] eqn:Eb;
      [|cbn [bind] in E; rewrite gather_step_err in E; discriminate].
    cbn [bind] in E.
    assert (Ha : a = cx + fst d).
    { unfold np_int64 in Ea. destruct (in_int64 _); now inversion Ea. }
    assert (Hb : b = cy + snd d).
    { unfold np_int64 in Eb. destruct (in_int64 _); now inversion Eb. }
    subst a b. unfold around. cbn [flat_map]. fold (around g cx cy offsets).
    destruct (_cell_indices g (pack_key (cx + fst d) (cy + snd d))) as [|i ids].
    + apply IH in E. rewrite E. reflexivity.
    + apply IH in E. rewrite E, concat_app. cbn [concat].
      now rewrite app_nil_r, <- app_assoc.
Qed.

Lemma grid_neighbors_filter (cloud_xy : list (Q * Q)) (g : GridIndex)
  (r sx sy : Q) (ids : list nat) :
  grid_neighbors cloud_xy g r sx sy = Ok ids ->
  ids = filter (fun i => Qle_bool (dist2 cloud_xy sx sy i) (r * r))
          (around g (floor_div sx r) (floor_div sy r) cell_offsets).
Proof.
  unfold grid_neighbors, gather. intros E.
  destruct (fold_left _ cell_offsets (Ok [])) as [cand|e] eqn:G; [|discriminate].
  apply gather_fold_ok in G. cbn [concat app] in G. cbn [bind] in E.
  rewrite <- G. destruct cand as [|c cand].
  - now injection E as <-.
  - injection E as <-. now rewrite select_filter.
Qed.

(** Keeping some of the (key, position) pairs keeps the positions
    distinct. *)
Lemma kept_positions_nodup {K : Type} (keep : K * nat -> bool)
  (pairs : list (K * nat)) :
  NoDup (map snd pairs) -> NoDup (map snd (filter keep pairs)).
Proof.
  induction pairs as [|kp pairs IH]; intros H; simpl; [constructor|].
  inversion H as [|? ? Hn Hl]; subst.
  destruct (keep kp); [|now apply IH].
  simpl. constructor; [|now apply IH].
  intros Hin. apply Hn. apply in_map_iff in Hin. destruct Hin as (x & E & Hx).
  apply filter_In in Hx. apply in_map_iff. exists x. tauto.
Qed.

Lemma NoDup_flat_map {A B : Type} (f : A -> list B) (l : list A) :
  NoDup l -> (forall a, NoDup (f a)) ->
  (forall a a' b, In a l -> In a' l -> In b (f a) -> In b (f a') -> a = a') ->
  NoDup (flat_map f l).
Proof.
  induction l as [|a l IH]; intros Hl Hf Hd; simpl; [constructor|].
  inversion Hl as [|? ? Hn Hl']; subst.
  apply NoDup_app.
  - apply Hf.
  - apply IH; [assumption|assumption|].
    intros x x' b Hx Hx'. apply Hd; now right.
  - intros b Hb Hb'. apply in_flat_map in Hb'. destruct Hb' as (a' & Ha' & Hb').
    assert (a = a') by (apply (Hd a a' b); [now left|now right|assumption|assumption]).
    subst. contradiction.
Qed.

Lemma cell_offsets_nodup : NoDup cell_offsets.
Proof.
  unfold cell_offsets. cbn [flat_map map app].
  repeat (constructor; [cbn [In]; intros H;
    repeat (destruct H as [H|H]; [discriminate H|]); exact H|]).
  constructor.
Qed.

Lemma grid_neighbors_nodup (oor : Z -> Z) (cloud_xy : list (Q * Q))
  (r sx sy : Q) (ids : list nat) :
  grid_neighbors cloud_xy (build_index oor cloud_xy r) r sx sy = Ok ids ->
  NoDup ids.
Proof.
  intros E. apply grid_neighbors_filter in E. subst ids.
  apply NoDup_filter. unfold around. apply NoDup_flat_map.
  - apply cell_offsets_nodup.
  - intros d. rewrite cell_indices_pairs. apply kept_positions_nodup.
    rewrite <- argsort_pairs.
    apply (Permutation_NoDup (Permutation_sym (argsort_perm Z.leb _))).
    apply seq_NoDup.
  - intros d d' i Hd Hd' Hi Hi'.
    apply in_cell_indices in Hi, Hi'. destruct Hi as [_ Hi], Hi' as [_ Hi'].
    apply (pack_key_offsets_distinct (floor_div sx r) (floor_div sy r) d d' Hd Hd').
    congruence.
Qed.

Lemma grid_neighbors_in_radius (oor : Z -> Z) (cloud_xy : list (Q * Q))
  (r sx sy : Q) (ids : list nat) :
  grid_neighbors cloud_xy (build_index oor cloud_xy r) r sx sy = Ok ids ->
  forall i, In i ids -> In i (brute_force_neighbors cloud_xy r sx sy).
Proof.
  intros E. apply grid_neighbors_filter in E. subst ids.
  intros i Hi. apply filter_In in Hi. destruct Hi as [Hi HP].
  apply in_brute_force. split; [|exact HP].
  apply (in_around_valid _ _ _ _ _ _ _ Hi).
Qed.

(** X12.  Whenever the grid query returns, whatever the cell indices and
    the out-of-range conversion, it returns no position twice, and every
    position it returns is one of a cloud point within the radius: brute
    force returns it too. *)
Theorem grid_neighbors_sound (out_of_range_int32 : Z -> Z)
  (cloud_xy : list (Q * Q)) (r sx sy : Q) (ids : list nat) :
  grid_neighbors cloud_xy (build_index out_of_range_int32 cloud_xy r) r sx sy
  = Ok ids ->
  NoDup ids /\
  forall i, In i ids -> In i (brute_force_neighbors cloud_xy r sx sy).
Proof.
  intros E. split; [apply (grid_neighbors_nodup _ _ _ _ _ _ E)|].
  intros i Hi. apply (grid_neighbors_in_radius _ _ _ _ _ _ E i Hi).
Qed.

Lemma grid_neighbors_sound_witness :
  NoDup [0%nat; 1%nat; 3%nat; 2%nat] /\
  forall i, In i [0%nat; 1%nat; 3%nat; 2%nat] ->
            In i (brute_force_neighbors (map fst four_points) (6 # 1) (4 # 1) 0).
Proof.
  apply (grid_neighbors_sound int32_min_on_overflow (map fst four_points)
           (6 # 1) (4 # 1) 0).
  reflexivity.
Defined.

(** ** The neighbours kept by the cap *)

Lemma in_combine_seq_gen {A : Type} (d : A) (l : list A) (v : A) (i : nat) :
  In (v, i) (combine l (seq 0 (length l)))
  <-> (i < length l)%nat /\ nth i l d = v.
Proof.
  assert (G : forall (l : list A) (o : nat),
            In (v, i) (combine l (seq o (length l)))
            <-> (o <= i < o + length l)%nat /\ nth (i - o) l d = v).
  { clear l. induction l as [|w l IH]; intros o; cbn [length seq combine].
    - simpl. split; [contradiction|lia].
    - cbn [In]. rewrite IH. split.
      + intros [E|[H1 H2]].
        * injection E as -> ->. rewrite Nat.sub_diag. split; [lia|reflexivity].
        * split; [lia|]. replace (i - o)%nat with (S (i - S o)) by lia. exact H2.
      + intros [H1 H2]. destruct (Nat.eq_dec i o) as [->|Hne].
        * left. rewrite Nat.sub_diag in H2. simpl in H2. now subst.
        * right. split; [lia|].
          replace (i - o)%nat with (S (i - S o)) in H2 by lia. exact H2. }
  rewrite G, Nat.sub_0_r. split; intros [H1 H2]; (split; [lia|exact H2]).
Qed.

Lemma by_dist_total (p q : Q * nat) : by_dist p q = true \/ by_dist q p = true.
Proof. apply Qle_bool_total. Qed.

Lemma sorted_app_le {A : Type} (R : A -> A -> Prop) (l1 l2 : list A) :
  StronglySorted R (l1 ++ l2) ->
  forall a b, In a l1 -> In b l2 -> R a b.
Proof.
  induction l1 as [|x l1 IH]; intros Hs a b Ha Hb; [contradiction|].
  cbn [app] in Hs. apply StronglySorted_inv in Hs. destruct Hs as [Hs Hall].
  destruct Ha as [->|Ha].
  - rewrite Forall_forall in Hall. apply Hall. apply in_or_app. now right.
  - now apply IH.
Qed.

Lemma in_firstn {A : Type} (n : nat) (l : list A) (a : A) :
  In a (firstn n l) -> In a l.
Proof.
  intros H. rewrite <- (firstn_skipn n l). apply in_or_app. now left.
Qed.

Lemma isort_by_dist_sorted (l : list (Q * nat)) :
  StronglySorted (fun p q => (fst p <= fst q)%Q) (isort by_dist l).
Proof.
  apply Sorted_StronglySorted; [intros a b c; apply Qle_trans|].
  pose proof (isort_sorted by_dist by_dist_total l) as H.
  induction H as [|a l' Hl IH Hd]; constructor; auto.
  destruct Hd; constructor. unfold by_dist in *. now apply Qle_bool_iff.
Qed.

(** The stable full sort keeps the promise of [np.argpartition]. *)
Lemma stable_argpartition_partitions : partitions stable_argpartition.
Proof.
  intros a kth Hk. cbv zeta. unfold stable_argpartition.
  split; [apply argsort_perm|].
  unfold argsort. fold by_dist.
  set (L := isort by_dist (combine a (seq 0 (length a)))).
  assert (HP : Permutation L (combine a (seq 0 (length a)))) by apply isort_perm.
  assert (HlenL : length L = length a).
  { rewrite (Permutation_length HP), length_combine, length_seq. lia. }
  assert (HinL : forall v i, In (v, i) L <-> (i < length a)%nat /\ nth i a 0%Q = v).
  { intros v i. rewrite <- in_combine_seq_gen. split; apply Permutation_in;
      [exact HP|exact (Permutation_sym HP)]. }
  assert (HS : StronglySorted Qle (map fst L)).
  { pose proof (isort_by_dist_sorted (combine a (seq 0 (length a)))) as H.
    fold L in H. clearbody L. clear - H.
    induction H as [|p L' HL IH Hall]; cbn [map]; constructor; [exact IH|].
    rewrite Forall_forall in *. intros v Hv. apply in_map_iff in Hv.
    destruct Hv as (q & <- & Hq). now apply Hall. }
  assert (Hval : forall i, (i < length a)%nat ->
                 nth (nth i (map snd L) 0%nat) a 0%Q = nth i (map fst L) 0%Q).
  { intros i Hi.
    rewrite (nth_indep (map snd L) 0%nat (snd (0%Q, 0%nat)))
      by (rewrite length_map; lia).
    rewrite (nth_indep (map fst L) 0%Q (fst (0%Q, 0%nat)))
      by (rewrite length_map; lia).
    rewrite !map_nth.
    assert (Hin : In (nth i L (0%Q, 0%nat)) L) by (apply nth_In; lia).
    destruct (nth i L (0%Q, 0%nat)) as [v i'] eqn:E. cbn [fst snd].
    apply HinL in Hin. apply Hin. }
  intros i Hi. rewrite !Hval by lia.
  split; intros Hik; apply sorted_nth_le; try assumption;
    rewrite ?length_map; lia.
Qed.

(** The positions [np.argpartition(d2, K - 1)] puts first are those of K
    smallest entries. *)
Lemma partition_first (argpartition : list Q -> Z -> list nat) (d2 : list Q)
  (K : Z) :
  partitions argpartition -> 1 <= K < Z.of_nat (length d2) ->
  let sel := firstn (Z.to_nat K) (argpartition d2 (K - 1)) in
  NoDup sel /\
  Forall (fun a => (a < length d2)%nat) sel /\
  length sel = Z.to_nat K /\
  (forall a b, In a sel -> (b < length d2)%nat -> ~ In b sel ->
               (nth a d2 0 <= nth b d2 0)%Q).
Proof.
  intros HC HK. cbv zeta.
  destruct (HC d2 (K - 1) ltac:(lia)) as [HP Hpiv].
  set (p := argpartition d2 (K - 1)) in *.
  replace (Z.to_nat (K - 1)) with (Z.to_nat K - 1)%nat in Hpiv by lia.
  set (pivot := nth (nth (Z.to_nat K - 1) p 0%nat) d2 0%Q) in *.
  assert (Hlp : length p = length d2).
  { rewrite (Permutation_length HP). apply length_seq. }
  assert (Hnd : NoDup p).
  { apply (Permutation_NoDup (Permutation_sym HP)). apply seq_NoDup. }
  assert (Hsel : forall c, In c (firstn (Z.to_nat K) p) <->
                 exists i, (i < Z.to_nat K)%nat /\ nth i p 0%nat = c).
  { intros c. split.
    - intros Hc. destruct (In_nth _ _ 0%nat Hc) as (i & Hi & E).
      rewrite length_firstn in Hi. exists i. split; [lia|].
      rewrite nth_firstn in E. destruct (Nat.ltb_spec i (Z.to_nat K)); [exact E|lia].
    - intros (i & Hi & <-).
      replace (nth i p 0%nat) with (nth i (firstn (Z.to_nat K) p) 0%nat).
      + apply nth_In. rewrite length_firstn. lia.
      + rewrite nth_firstn. destruct (Nat.ltb_spec i (Z.to_nat K)); [reflexivity|lia]. }
  split; [|split; [|split]].
  - rewrite <- (firstn_skipn (Z.to_nat K) p) in Hnd.
    apply (NoDup_app_remove_r _ _ Hnd).
  - rewrite Forall_forall. intros c Hc. apply in_firstn in Hc.
    apply (Permutation_in _ HP) in Hc. apply in_seq in Hc. lia.
  - rewrite length_firstn. lia.
  - intros c b Hc Hb Hnb. apply Hsel in Hc. destruct Hc as (i & Hi & <-).
    assert (Hbp : In b p).
    { apply (Permutation_in _ (Permutation_sym HP)). apply in_seq. lia. }
    destruct (In_nth _ _ 0%nat Hbp) as (j & Hj & <-).
    assert (Hjk : (Z.to_nat K <= j)%nat).
    { destruct (Nat.lt_ge_cases j (Z.to_nat K)) as [Hlt|Hge]; [|exact Hge].
      exfalso. apply Hnb. apply Hsel. now exists j. }
    apply (Qle_trans _ pivot).
    + apply (Hpiv i ltac:(lia)). lia.
    + apply (Hpiv j ltac:(lia)). lia.
Qed.

Lemma NoDup_take (ids : list nat) (sel : list nat) :
  NoDup ids -> NoDup sel -> Forall (fun a => (a < length ids)%nat) sel ->
  NoDup (take 0%nat ids sel).
Proof.
  intros Hids Hsel Hr. unfold take. induction sel as [|a sel IH]; [constructor|].
  inversion Hsel as [|? ? Hn Hs]; subst. inversion Hr as [|? ? Ha Hr']; subst.
  cbn [map]. constructor; [|now apply IH].
  intros Hin. apply in_map_iff in Hin. destruct Hin as (c & E & Hc).
  rewrite Forall_forall in Hr'.
  assert (c = a) by (apply (proj1 (NoDup_nth ids 0%nat) Hids); auto).
  subst. contradiction.
Qed.

(** What the cap keeps of the positions found. *)
Lemma cap_nearest_spec (argpartition : list Q -> Z -> list nat)
  (ids : list nat) (d2 : list Q) (k_eff_max : Z) :
  partitions argpartition ->
  1 <= k_eff_max -> length d2 = length ids -> NoDup ids ->
  let used := cap_nearest argpartition ids d2 k_eff_max in
  NoDup used /\
  incl used ids /\
  Z.of_nat (length used) = Z.min k_eff_max (Z.of_nat (length ids)) /\
  (forall a b, (a < length ids)%nat -> (b < length ids)%nat ->
               In (nth a ids 0%nat) used -> ~ In (nth b ids 0%nat) used ->
               (nth a d2 0 <= nth b d2 0)%Q).
Proof.
  intros HC Hk Hlen Hnd. cbv zeta. unfold cap_nearest.
  destruct (Z.gtb_spec (Z.of_nat (length ids)) k_eff_max) as [Hgt|Hle].
  - destruct (partition_first argpartition d2 k_eff_max HC ltac:(lia))
      as (Hs1 & Hs2 & Hs3 & Hs4).
    set (sel := firstn (Z.to_nat k_eff_max) (argpartition d2 (k_eff_max - 1)))
        in *.
    rewrite Hlen in Hs2, Hs4.
    split; [now apply NoDup_take|]. split; [|split].
    + intros i Hi. unfold take in Hi. apply in_map_iff in Hi.
      destruct Hi as (a & <- & Ha). apply nth_In.
      rewrite Forall_forall in Hs2. now apply Hs2.
    + unfold take. rewrite length_map, Hs3. lia.
    + intros a b Ha Hb Hina Hnb. apply Hs4.
      * unfold take in Hina. apply in_map_iff in Hina.
        destruct Hina as (c & E & Hc).
        rewrite Forall_forall in Hs2.
        assert (c = a) by (apply (proj1 (NoDup_nth ids 0%nat) Hnd); auto).
        now subst.
      * exact Hb.
      * intros Hsel. apply Hnb. unfold take. apply in_map_iff. now exists b.
  - split; [exact Hnd|]. split; [apply incl_refl|]. split; [lia|].
    intros a b Ha Hb _ Hnb. exfalso. apply Hnb. now apply nth_In.
Qed.

(** ** The quantile of a non-empty array *)

Lemma isort_nonempty (z : list Q) : z <> [] -> isort Qle_bool z <> [].
Proof.
  intros Hz E. apply Hz.
  pose proof (isort_perm Qle_bool z) as P. rewrite E in P.
  now apply Permutation_nil in P.
Qed.

Lemma np_quantile_between (z : list Q) (q : Q) :
  z <> [] -> (0 <= q)%Q -> (q <= 1)%Q ->
  exists a b, In a z /\ In b z /\ (a <= np_quantile z q <= b)%Q.
Proof.
  intros Hz H0 H1. unfold np_quantile.
  pose proof (isort_Qle_sorted z) as Hs.
  pose proof (isort_perm Qle_bool z) as HP.
  pose proof (isort_nonempty z Hz) as Hne.
  set (a := isort Qle_bool z) in *.
  assert (Hlen : (1 <= length a)%nat) by (destruct a; [contradiction|simpl; lia]).
  set (n1 := Z.of_nat (length a) - 1).
  assert (Hn1 : 0 <= n1) by (unfold n1; lia).
  assert (HN : (0 <= inject_Z n1)%Q).
  { change 0%Q with (inject_Z 0). now rewrite <- Zle_Qle. }
  set (v := (inject_Z n1 * q)%Q).
  assert (Hv0 : (0 <= v)%Q) by (unfold v; nra).
  assert (Hv1 : (v <= inject_Z n1)%Q) by (unfold v; nra).
  set (p := Qfloor v).
  assert (Hp0 : 0 <= p) by (change 0 with (Qfloor 0); now apply Qfloor_resp_le).
  assert (Hp1 : p <= n1) by (rewrite <- (Qfloor_Z n1); now apply Qfloor_resp_le).
  pose proof (Qfloor_le v) as F. pose proof (Qlt_floor v) as G. fold p in F, G.
  rewrite inject_Z_plus in G. change (inject_Z 1) with 1%Q in G.
  set (g := (v - inject_Z p)%Q).
  assert (Hg : (0 <= g <= 1)%Q) by (unfold g; lra).
  replace (Z.max 0 (Z.min p n1)) with p by lia.
  replace (Z.max 0 (Z.min (p + 1) n1)) with (Z.min (p + 1) n1) by lia.
  set (lo := nth (Z.to_nat p) a 0%Q).
  set (hi := nth (Z.to_nat (Z.min (p + 1) n1)) a 0%Q).
  assert (L : (lo <= hi)%Q) by (apply sorted_nth_le; [assumption|lia|lia]).
  exists lo, hi. split; [|split].
  - apply (Permutation_in _ HP). apply nth_In. lia.
  - apply (Permutation_in _ HP). apply nth_In. lia.
  - clearbody g lo hi. split; nra.
Qed.

Lemma np_quantile_single (v q : Q) : (np_quantile [v] q == v)%Q.
Proof.
  unfold np_quantile. cbn [isort fold_right insert_sorted length Z.of_nat].
  change (Z.pos (Pos.of_succ_nat 0) - 1) with 0.
  change (inject_Z 0) with 0%Q.
  assert (F : Qfloor (0 * q) = 0) by (destruct q; reflexivity).
  rewrite F. change (nth _ [v] 0%Q) with v. change (nth _ [v] 0%Q) with v. ring.
Qed.

(** At quantile 0 the lowest entry, at quantile 1 the highest. *)
Lemma np_quantile_extremes (z : list Q) :
  z <> [] ->
  (exists a, In a z /\ (np_quantile z 0 == a)%Q /\ Forall (fun v => (a <= v)%Q) z) /\
  (exists b, In b z /\ (np_quantile z 1 == b)%Q /\ Forall (fun v => (v <= b)%Q) z).
Proof.
  intros Hz. unfold np_quantile.
  pose proof (isort_Qle_sorted z) as Hs.
  pose proof (isort_perm Qle_bool z) as HP.
  pose proof (isort_nonempty z Hz) as Hne.
  set (a := isort Qle_bool z) in *.
  assert (Hlen : (1 <= length a)%nat) by (destruct a; [contradiction|simpl; lia]).
  set (n1 := Z.of_nat (length a) - 1).
  assert (Hn1 : 0 <= n1) by (unfold n1; lia).
  assert (Hall : forall v, In v z -> exists j, (j < length a)%nat /\ nth j a 0%Q = v).
  { intros v Hv. apply (Permutation_in _ (Permutation_sym HP)) in Hv.
    apply (In_nth _ _ 0%Q) in Hv. exact Hv. }
  split.
  - assert (F : Qfloor (inject_Z n1 * 0) = 0).
    { transitivity (Qfloor 0); [apply Qfloor_comp; ring|reflexivity]. }
    rewrite F.
    replace (Z.max 0 (Z.min 0 n1)) with 0 by lia.
    exists (nth 0 a 0%Q). split; [|split].
    + apply (Permutation_in _ HP). apply nth_In. lia.
    + cbn [Z.to_nat]. change (inject_Z 0) with 0%Q. ring.
    + rewrite Forall_forall. intros v Hv. destruct (Hall v Hv) as (j & Hj & <-).
      apply sorted_nth_le; [assumption|lia|lia].
  - assert (F : Qfloor (inject_Z n1 * 1) = n1).
    { transitivity (Qfloor (inject_Z n1)); [apply Qfloor_comp; ring|apply Qfloor_Z]. }
    rewrite F.
    replace (Z.max 0 (Z.min n1 n1)) with n1 by lia.
    replace (Z.max 0 (Z.min (n1 + 1) n1)) with n1 by lia.
    exists (nth (Z.to_nat n1) a 0%Q). split; [|split].
    + apply (Permutation_in _ HP). apply nth_In. lia.
    + ring.
    + rewrite Forall_forall. intros v Hv. destruct (Hall v Hv) as (j & Hj & <-).
      apply sorted_nth_le; [assumption|lia|lia].
Qed.

(** ** From the value of a sample to the neighbours behind it *)

Lemma select_map_both {A B : Type} (f : B -> bool) (h : A -> B) (l : list A) :
  select (map h l) (map f (map h l)) = map h (filter (fun a => f (h a)) l).
Proof.
  induction l as [|a l IH]; simpl; [reflexivity|].
  destruct (f (h a)); simpl; now rewrite IH.
Qed.

(** The value of a sample is the fallback when the grid query finds nothing,
    and otherwise the quantile of the elevations of what the cap keeps of the
    positions found. *)
Lemma sample_z_used (argpartition : list Q -> Z -> list nat) (cloud_xy : list (Q
    * Q)) (cloud_z : list Q) (g : GridIndex)
  (r : Q) (k_eff_max : Z) (quantile fallback_z offset : Q) (s : Q * Q) (v : Q) :
  sample_z argpartition cloud_xy cloud_z g r k_eff_max quantile fallback_z
      offset s = Ok v ->
  exists found,
    grid_neighbors cloud_xy g r (fst s) (snd s) = Ok found /\
    v = match found with
        | [] => (fallback_z + offset)%Q
        | _ => (np_quantile
                  (take 0%Q cloud_z
                     (cap_nearest argpartition found
                        (map (dist2 cloud_xy (fst s) (snd s)) found) k_eff_max))
                  quantile + offset)%Q
        end.
Proof.
  unfold sample_z, grid_neighbors.
  destruct (gather g _ _) as [cand|e]; cbn [bind]; [|discriminate].
  destruct cand as [|c cand].
  - intros E. injection E as <-. exists []. split; reflexivity.
  - set (ids_all := concat (c :: cand)).
    set (P := fun d => Qle_bool d (r * r)).
    rewrite select_filter, select_map_both.
    set (found := filter (fun i => P (dist2 cloud_xy (fst s) (snd s) i)) ids_all).
    destruct (np_any _) eqn:A; cbn [negb].
    + intros E. injection E as <-. exists found. split; [reflexivity|].
      destruct found as [|i found'] eqn:F.
      * exfalso. assert (np_any (map P (map (dist2 cloud_xy (fst s) (snd s)) ids_all))
                         = false) by (apply np_any_select; exact F).
        congruence.
      * reflexivity.
    + intros E. injection E as <-. exists found. split; [reflexivity|].
      apply np_any_select in A. fold found in A. now rewrite A.
Qed.

Lemma samples_loop_inv (f : Q * Q -> result Q) (samples_xy : list (Q * Q))
  (out : list Q) :
  samples_loop f samples_xy = Ok out ->
  length out = length samples_xy /\
  forall j, (j < length samples_xy)%nat ->
            f (nth j samples_xy (0%Q, 0%Q)) = Ok (nth j out 0%Q).
Proof.
  revert out. induction samples_xy as [|s samples_xy IH]; intros out E.
  - injection E as <-. split; [reflexivity|]. intros j Hj. simpl in Hj. lia.
  - cbn [samples_loop] in E. destruct (f s) as [v|e] eqn:Ev; [|discriminate].
    cbn [bind] in E.
    destruct (samples_loop f samples_xy) as [vs|e]; [|discriminate].
    cbn [bind] in E. injection E as <-.
    destruct (IH vs eq_refl) as [Hn Hj]. split; [simpl; lia|].
    intros [|j] Hlt; [exact Ev|]. cbn [nth]. apply Hj. simpl in Hlt. lia.
Qed.

Lemma surface_z_ok_inv (oor : Z -> Z)
  (argpartition : list Q -> Z -> list nat) (cloud_xyz : list (Q * Q * Q))
  (samples_xy : list (Q * Q)) (radius_m : Q) (k : Z)
  (quantile fallback_z offset : Q) (out : list Q) :
  surface_z_from_neighbors oor argpartition cloud_xyz samples_xy radius_m k
      quantile
    fallback_z offset = Ok out ->
  (0 < radius_m)%Q /\ 0 < k /\ (0 <= quantile <= 1)%Q /\ cloud_xyz <> [] /\
  samples_loop
    (sample_z argpartition (map fst cloud_xyz) (map snd cloud_xyz)
       (build_index oor (map fst cloud_xyz) radius_m) radius_m (Z.max 1 k)
       quantile fallback_z offset) samples_xy = Ok out.
Proof.
  unfold surface_z_from_neighbors.
  destruct (Qle_bool radius_m 0) eqn:Er; [discriminate|].
  destruct (Z.leb_spec k 0) as [?|Hk]; [discriminate|].
  destruct (Qle_bool 0 quantile) eqn:E0; [|discriminate].
  destruct (Qle_bool quantile 1) eqn:E1; [|discriminate].
  cbn [andb negb]. unfold _surface_z_from_neighbors_grid.
  destruct cloud_xyz as [|p cloud_xyz]; [discriminate|].
  cbn [map length Nat.leb]. intros E.
  apply Qle_bool_iff in E0, E1.
  assert (Hr : (0 < radius_m)%Q).
  { destruct (Qlt_le_dec 0 radius_m) as [H|H]; [exact H|].
    apply Qle_bool_iff in H. congruence. }
  repeat split; try assumption. discriminate.
Qed.

(** X13.  For every [argpartition] that keeps numpy's promise
    ([partitions]): when the engine returns it returns one value per sample,
    and the value of each sample is determined by the positions the grid query
    finds for it: the fallback plus the offset when it finds none; otherwise
    the quantile, plus the offset, of the elevations of the neighbours used.
    The neighbours used are those [argpartition] puts first, min(k, number
    found) of the positions found, none twice, and none of those left out is
    nearer than one that is used.  Which of several equally near positions is
    used is left to [argpartition]. *)
Theorem surface_z_uses_nearest (out_of_range_int32 : Z -> Z)
  (argpartition : list Q -> Z -> list nat)
  (cloud_xyz : list (Q * Q * Q)) (samples_xy : list (Q * Q))
  (radius_m : Q) (k : Z) (quantile fallback_z offset : Q) (out : list Q) :
  surface_z_from_neighbors out_of_range_int32 argpartition cloud_xyz samples_xy
      radius_m k
    quantile fallback_z offset = Ok out ->
  partitions argpartition ->
  length out = length samples_xy /\
  forall j, (j < length samples_xy)%nat ->
    let s := nth j samples_xy (0%Q, 0%Q) in
    let cloud_xy := map fst cloud_xyz in
    let d2 := dist2 cloud_xy (fst s) (snd s) in
    exists found used,
      grid_neighbors cloud_xy (build_index out_of_range_int32 cloud_xy radius_m)
        radius_m (fst s) (snd s) = Ok found /\
      used = cap_nearest argpartition found (map d2 found) (Z.max 1 k) /\
      NoDup used /\ incl used found /\
      Z.of_nat (length used) = Z.min k (Z.of_nat (length found)) /\
      (forall i i', In i used -> In i' found -> ~ In i' used -> (d2 i <= d2 i')%Q) /\
      nth j out 0%Q
      = match found with
        | [] => (fallback_z + offset)%Q
        | _ => (np_quantile (take 0%Q (map snd cloud_xyz) used) quantile + offset)%Q
        end.
Proof.
  intros E HC. apply surface_z_ok_inv in E.
  destruct E as (Hr & Hk & Hq & Hne & E).
  apply samples_loop_inv in E. destruct E as [Hn Hj].
  split; [exact Hn|]. intros j Hlt. cbv zeta.
  specialize (Hj j Hlt). apply sample_z_used in Hj.
  destruct Hj as (found & Eg & Ev).
  set (s := nth j samples_xy (0%Q, 0%Q)) in *.
  set (cloud_xy := map fst cloud_xyz) in *.
  set (d2 := dist2 cloud_xy (fst s) (snd s)) in *.
  exists found, (cap_nearest argpartition found (map d2 found) (Z.max 1 k)).
  split; [exact Eg|]. split; [reflexivity|].
  assert (Hnd : NoDup found) by apply (grid_neighbors_nodup _ _ _ _ _ _ Eg).
  destruct (cap_nearest_spec argpartition found (map d2 found) (Z.max 1 k) HC
              ltac:(lia) (length_map _ _) Hnd) as (U1 & U2 & U3 & U4).
  split; [exact U1|]. split; [exact U2|]. split; [lia|]. split; [|exact Ev].
  intros i i' Hi Hi' Hni.
  apply U2 in Hi as Hif.
  destruct (In_nth _ _ 0%nat Hif) as (a & Ha & Ea).
  destruct (In_nth _ _ 0%nat Hi') as (b & Hb & Eb).
  specialize (U4 a b Ha Hb). rewrite Ea, Eb in U4. specialize (U4 Hi Hni).
  rewrite (nth_indep _ 0%Q (d2 0%nat)), (nth_indep _ 0%Q (d2 0%nat) (n := b)) in U4
    by (rewrite length_map; assumption).
  rewrite !map_nth, Ea, Eb in U4. exact U4.
Qed.

Lemma surface_z_uses_nearest_witness :
  exists found used,
    grid_neighbors (map fst four_points)
      (build_index int32_min_on_overflow (map fst four_points) (6 # 1))
      (6 # 1) (4 # 1) 0 = Ok found /\
    used = cap_nearest stable_argpartition found
             (map (dist2 (map fst four_points) (4 # 1) 0) found) (Z.max 1 2) /\
    Z.of_nat (length used) = Z.min 2 (Z.of_nat (length found)).
Proof.
  destruct (surface_z_uses_nearest int32_min_on_overflow stable_argpartition
      four_points
              [(4 # 1, 0)%Q] (6 # 1) 2 (1 # 2) (7 # 1) 0
              [(102 # 2)%Q])
    as [_ H].
  - vm_compute. reflexivity.
  - exact stable_argpartition_partitions.
  - destruct (H 0%nat ltac:(simpl; lia)) as (found & used & E & U & _ & _ & L & _).
    exists found, used. split; [exact E|]. split; [exact U|exact L].
Defined.

(** The positions the cap keeps are positions found, at least one when one
    was found. *)
Lemma used_of_found (oor : Z -> Z)
  (argpartition : list Q -> Z -> list nat) (cloud_xy : list (Q * Q))
  (r sx sy : Q)
  (k : Z) (found : list nat) :
  partitions argpartition -> 0 < k ->
  grid_neighbors cloud_xy (build_index oor cloud_xy r) r sx sy = Ok found ->
  let d2 := dist2 cloud_xy sx sy in
  let used := cap_nearest argpartition found (map d2 found) (Z.max 1 k) in
  NoDup used /\ incl used found /\
  Z.of_nat (length used) = Z.min k (Z.of_nat (length found)) /\
  (forall i i', In i used -> In i' found -> ~ In i' used -> (d2 i <= d2 i')%Q).
Proof.
  intros HC Hk Eg. cbv zeta.
  assert (Hnd : NoDup found) by apply (grid_neighbors_nodup _ _ _ _ _ _ Eg).
  set (d2 := dist2 cloud_xy sx sy).
  destruct (cap_nearest_spec argpartition found (map d2 found) (Z.max 1 k) HC
              ltac:(lia) (length_map _ _) Hnd) as (U1 & U2 & U3 & U4).
  split; [exact U1|]. split; [exact U2|]. split; [lia|].
  intros i i' Hi Hi' Hni.
  apply U2 in Hi as Hif.
  destruct (In_nth _ _ 0%nat Hif) as (a & Ha & Ea).
  destruct (In_nth _ _ 0%nat Hi') as (b & Hb & Eb).
  specialize (U4 a b Ha Hb). rewrite Ea, Eb in U4. specialize (U4 Hi Hni).
  rewrite (nth_indep _ 0%Q (d2 0%nat)), (nth_indep _ 0%Q (d2 0%nat) (n := b)) in U4
    by (rewrite length_map; assumption).
  rewrite !map_nth, Ea, Eb in U4. exact U4.
Qed.

(** The value of one sample: the fallback plus the offset, or a value
    between two elevations of cloud points within the radius. *)
Lemma sample_value_range (oor : Z -> Z)
  (argpartition : list Q -> Z -> list nat) (cloud_xyz : list (Q * Q * Q))
  (r : Q) (k : Z) (q fallback_z offset : Q) (s : Q * Q) (v : Q) :
  partitions argpartition -> 0 < k -> (0 <= q)%Q -> (q <= 1)%Q ->
  sample_z argpartition (map fst cloud_xyz) (map snd cloud_xyz)
    (build_index oor (map fst cloud_xyz) r) r (Z.max 1 k) q fallback_z offset s
  = Ok v ->
  v = (fallback_z + offset)%Q \/
  exists a b,
    In a (take 0%Q (map snd cloud_xyz)
            (brute_force_neighbors (map fst cloud_xyz) r (fst s) (snd s))) /\
    In b (take 0%Q (map snd cloud_xyz)
            (brute_force_neighbors (map fst cloud_xyz) r (fst s) (snd s))) /\
    (a + offset <= v <= b + offset)%Q.
Proof.
  intros HC Hk Hq0 Hq1 Hj. apply sample_z_used in Hj.
  destruct Hj as (found & Eg & Ev).
  assert (Hcase : found = [] \/ found <> [])
    by (destruct found; [left|right]; congruence).
  destruct Hcase as [->|Hf]; [now left|right].
  assert (Ev' : v = (np_quantile (take 0%Q (map snd cloud_xyz)
                       (cap_nearest argpartition found
                          (map (dist2 (map fst cloud_xyz) (fst s) (snd s)) found)
                          (Z.max 1 k))) q + offset)%Q).
  { rewrite Ev. destruct found; [contradiction|reflexivity]. }
  clear Ev.
  destruct (used_of_found _ _ _ _ _ _ k found HC Hk Eg) as (_ & U2 & U3 & _).
  set (used := cap_nearest argpartition found _ _) in *.
  assert (Hu : used <> []).
  { intros Hu. rewrite Hu in U3. destruct found; [contradiction|].
    cbn [length] in U3. lia. }
  assert (Hz : take 0%Q (map snd cloud_xyz) used <> []).
  { unfold take. destruct used; [contradiction|discriminate]. }
  destruct (np_quantile_between _ q Hz Hq0 Hq1) as (a & b & Ha & Hb & Hab).
  assert (Hin : forall w, In w (take 0%Q (map snd cloud_xyz) used) ->
                In w (take 0%Q (map snd cloud_xyz)
                        (brute_force_neighbors (map fst cloud_xyz) r
                           (fst s) (snd s)))).
  { intros w Hw. unfold take in *. apply in_map_iff in Hw.
    destruct Hw as (i & <- & Hi). apply in_map_iff. exists i. split; [reflexivity|].
    apply (grid_neighbors_in_radius _ _ _ _ _ _ Eg). now apply U2. }
  exists a, b. split; [now apply Hin|]. split; [now apply Hin|].
  rewrite Ev'. lra.
Qed.

(** X14.  For every [argpartition] that keeps numpy's promise: when the
    engine returns, the value of each sample is either the fallback plus the
    offset or lies, the offset taken off, between two elevations of cloud
    points within the radius of the sample. *)
Theorem surface_z_within_neighbor_range (out_of_range_int32 : Z -> Z)
  (argpartition : list Q -> Z -> list nat)
  (cloud_xyz : list (Q * Q * Q)) (samples_xy : list (Q * Q))
  (radius_m : Q) (k : Z) (quantile fallback_z offset : Q) (out : list Q) :
  surface_z_from_neighbors out_of_range_int32 argpartition cloud_xyz samples_xy
      radius_m k
    quantile fallback_z offset = Ok out ->
  partitions argpartition ->
  forall j, (j < length samples_xy)%nat ->
    let s := nth j samples_xy (0%Q, 0%Q) in
    let in_radius := take 0%Q (map snd cloud_xyz)
                       (brute_force_neighbors (map fst cloud_xyz) radius_m
                          (fst s) (snd s)) in
    nth j out 0%Q = (fallback_z + offset)%Q \/
    exists a b, In a in_radius /\ In b in_radius /\
                (a + offset <= nth j out 0 <= b + offset)%Q.
Proof.
  intros E HC j Hlt. cbv zeta.
  apply surface_z_ok_inv in E. destruct E as (Hr & Hk & [Hq0 Hq1] & Hne & E).
  apply samples_loop_inv in E. destruct E as [_ Hj].
  apply (sample_value_range _ _ _ _ _ _ _ _ _ _ HC Hk Hq0 Hq1 (Hj j Hlt)).
Qed.

Lemma surface_z_within_neighbor_range_witness :
  nth 0 [(102 # 2)%Q] 0%Q = ((7 # 1) + 0)%Q \/
  exists a b,
    In a (take 0%Q (map snd four_points)
            (brute_force_neighbors (map fst four_points) (6 # 1) (4 # 1) 0)) /\
    In b (take 0%Q (map snd four_points)
            (brute_force_neighbors (map fst four_points) (6 # 1) (4 # 1) 0)) /\
    (a + 0 <= nth 0 [(102 # 2)%Q] 0 <= b + 0)%Q.
Proof.
  apply (surface_z_within_neighbor_range int32_min_on_overflow
      stable_argpartition four_points
           [(4 # 1, 0)%Q] (6 # 1) 2 (1 # 2) (7 # 1) 0 [(102 # 2)%Q] eq_refl
           stable_argpartition_partitions 0%nat).
  simpl. lia.
Defined.

(** X15.  For every [argpartition] that keeps numpy's promise, with k = 1
    the quantile plays no part: when the engine returns, the value of a sample
    for which positions were found is the elevation, plus the offset, of a
    found position that no other found position is nearer than. *)
Theorem surface_z_single_neighbor (out_of_range_int32 : Z -> Z)
  (argpartition : list Q -> Z -> list nat)
  (cloud_xyz : list (Q * Q * Q)) (samples_xy : list (Q * Q))
  (radius_m : Q) (quantile fallback_z offset : Q) (out : list Q) :
  surface_z_from_neighbors out_of_range_int32 argpartition cloud_xyz samples_xy
      radius_m 1
    quantile fallback_z offset = Ok out ->
  partitions argpartition ->
  forall j, (j < length samples_xy)%nat ->
    let s := nth j samples_xy (0%Q, 0%Q) in
    let cloud_xy := map fst cloud_xyz in
    let d2 := dist2 cloud_xy (fst s) (snd s) in
    exists found,
      grid_neighbors cloud_xy (build_index out_of_range_int32 cloud_xy radius_m)
        radius_m (fst s) (snd s) = Ok found /\
      ((found = [] /\ nth j out 0%Q = (fallback_z + offset)%Q) \/
       exists i, In i found /\
                 (forall i', In i' found -> (d2 i <= d2 i')%Q) /\
                 (nth j out 0 == nth i (map snd cloud_xyz) 0 + offset)%Q).
Proof.
  intros E HC j Hlt. cbv zeta.
  apply surface_z_ok_inv in E. destruct E as (Hr & Hk & Hq & Hne & E).
  apply samples_loop_inv in E. destruct E as [_ Hj].
  specialize (Hj j Hlt). apply sample_z_used in Hj.
  destruct Hj as (found & Eg & Ev).
  set (s := nth j samples_xy (0%Q, 0%Q)) in *.
  exists found. split; [exact Eg|].
  destruct (used_of_found _ _ _ _ _ _ 1 found HC Hk Eg) as (_ & U2 & U3 & U4).
  change (Z.max 1 1) with 1 in *.
  set (d2 := dist2 (map fst cloud_xyz) (fst s) (snd s)) in *.
  destruct (cap_nearest argpartition found (map d2 found) 1) as [|i [|i2 used]]
      eqn:U.
  - left. destruct found; [split; [reflexivity|exact Ev]|].
    cbn [length] in U3. lia.
  - right. exists i. split; [apply U2; now left|]. split.
    + intros i' Hi'. destruct (Nat.eq_dec i' i) as [->|Hne'].
      * apply Qle_refl.
      * apply U4; [now left|exact Hi'|]. intros [H|[]]. congruence.
    + rewrite Ev. destruct found; [cbn [length] in U3; lia|].
      unfold take. cbn [map]. rewrite np_quantile_single. reflexivity.
  - exfalso. cbn [length] in U3. lia.
Qed.

Lemma surface_z_single_neighbor_witness :
  exists found,
    grid_neighbors (map fst four_points)
      (build_index int32_min_on_overflow (map fst four_points) (6 # 1))
      (6 # 1) (1 # 1) 0 = Ok found /\
    ((found = [] /\ nth 0 [(2 # 2)%Q] 0%Q = ((7 # 1) + 0)%Q) \/
     exists i, In i found /\
               (forall i', In i' found ->
                  (dist2 (map fst four_points) (1 # 1) 0 i
                   <= dist2 (map fst four_points) (1 # 1) 0 i')%Q) /\
               (nth 0 [(2 # 2)%Q] 0 == nth i (map snd four_points) 0 + 0)%Q).
Proof.
  apply (surface_z_single_neighbor int32_min_on_overflow stable_argpartition
      four_points
           [(1 # 1, 0)%Q] (6 # 1) (1 # 2) (7 # 1) 0 [(2 # 2)%Q] eq_refl
           stable_argpartition_partitions 0%nat).
  simpl. lia.
Defined.

(** ** The offset *)

Lemma samples_loop_rel (R : Q -> Q -> Prop) (f1 f2 : Q * Q -> result Q)
  (samples_xy : list (Q * Q)) :
  (forall s,
     (exists e, f1 s = Err e /\ f2 s = Err e) \/
     (exists a b, f1 s = Ok a /\ f2 s = Ok b /\ R a b)) ->
  (exists e, samples_loop f1 samples_xy = Err e /\
             samples_loop f2 samples_xy = Err e) \/
  (exists z1 z2, samples_loop f1 samples_xy = Ok z1 /\
                 samples_loop f2 samples_xy = Ok z2 /\ Forall2 R z1 z2).
Proof.
  intros Hf. induction samples_xy as [|s samples_xy IH]; cbn [samples_loop].
  - right. exists [], []. repeat split. constructor.
  - destruct (Hf s) as [(e & E1 & E2)|(a & b & E1 & E2 & Hab)]; rewrite E1, E2;
      cbn [bind].
    + left. eauto.
    + destruct IH as [(e & I1 & I2)|(z1 & z2 & I1 & I2 & Hz)]; rewrite I1, I2;
        cbn [bind].
      * left. eauto.
      * right. exists (a :: z1), (b :: z2). repeat split. now constructor.
Qed.

Lemma sample_z_offset (argpartition : list Q -> Z -> list nat) (cloud_xy : list
    (Q * Q)) (cloud_z : list Q) (g : GridIndex)
  (r : Q) (k_eff_max : Z) (quantile fallback_z offset : Q) (s : Q * Q) :
  let f o := sample_z argpartition cloud_xy cloud_z g r k_eff_max quantile
      fallback_z o s in
  (exists e, f offset = Err e /\ f 0%Q = Err e) \/
  (exists a b, f offset = Ok a /\ f 0%Q = Ok b /\ (a == b + offset)%Q).
Proof.
  cbv zeta. unfold sample_z.
  destruct (gather g _ _) as [cand|e]; cbn [bind]; [|left; eauto].
  right. destruct cand as [|c cand].
  - eexists _, _. split; [reflexivity|]. split; [reflexivity|ring].
  - destruct (negb _).
    + eexists _, _. split; [reflexivity|]. split; [reflexivity|ring].
    + eexists _, _. split; [reflexivity|]. split; [reflexivity|ring].
Qed.

(** X16.  The offset is only ever added to the result: a run with an offset
    raises exactly when the run with offset 0 does, with the same exception,
    and otherwise returns the values of that run, each with the offset
    added. *)
Theorem surface_z_offset_shift (out_of_range_int32 : Z -> Z)
  (argpartition : list Q -> Z -> list nat)
  (cloud_xyz : list (Q * Q * Q)) (samples_xy : list (Q * Q))
  (radius_m : Q) (k : Z) (quantile fallback_z offset : Q) :
  let run o := surface_z_from_neighbors out_of_range_int32 argpartition
      cloud_xyz samples_xy
                 radius_m k quantile fallback_z o in
  (exists e, run offset = Err e /\ run 0%Q = Err e) \/
  (exists z z0, run offset = Ok z /\ run 0%Q = Ok z0 /\
                Forall2 (fun a b => (a == b + offset)%Q) z z0).
Proof.
  cbv zeta. unfold surface_z_from_neighbors.
  destruct (Qle_bool radius_m 0); [left; eauto|].
  destruct (k <=? 0); [left; eauto|].
  destruct (negb _); [left; eauto|].
  unfold _surface_z_from_neighbors_grid.
  destruct (length _ <=? 0)%nat; [left; eauto|].
  apply samples_loop_rel. intros s. apply sample_z_offset.
Qed.

(** X17.  For every [argpartition] that keeps numpy's promise
    ([partitions]): at the ends of the quantile range the value of a sample
    for which positions were found is, the offset apart, the lowest
    (quantile 0) or the highest (quantile 1) elevation among the neighbours
    that [argpartition] makes the cap keep. *)
Theorem surface_z_extreme_quantiles (out_of_range_int32 : Z -> Z)
  (argpartition : list Q -> Z -> list nat)
  (cloud_xyz : list (Q * Q * Q)) (samples_xy : list (Q * Q))
  (radius_m : Q) (k : Z) (fallback_z offset : Q) (j : nat) :
  partitions argpartition ->
  (j < length samples_xy)%nat ->
  let s := nth j samples_xy (0%Q, 0%Q) in
  let cloud_xy := map fst cloud_xyz in
  let run q := surface_z_from_neighbors out_of_range_int32 argpartition
                 cloud_xyz samples_xy radius_m k q fallback_z offset in
  forall found,
    grid_neighbors cloud_xy (build_index out_of_range_int32 cloud_xy radius_m)
      radius_m (fst s) (snd s) = Ok found ->
    found <> [] ->
    let zs := take 0%Q (map snd cloud_xyz)
                (cap_nearest argpartition found
                   (map (dist2 cloud_xy (fst s) (snd s)) found) (Z.max 1 k)) in
    (forall out, run 0%Q = Ok out ->
       exists a, In a zs /\ (nth j out 0 == a + offset)%Q /\
                 Forall (fun v => (a <= v)%Q) zs) /\
    (forall out, run 1%Q = Ok out ->
       exists b, In b zs /\ (nth j out 0 == b + offset)%Q /\
                 Forall (fun v => (v <= b)%Q) zs).
Proof.
  intros HC Hlt. cbv zeta. intros found Eg Hf.
  set (s := nth j samples_xy (0%Q, 0%Q)) in *.
  assert (Hv : forall q out,
            surface_z_from_neighbors out_of_range_int32 argpartition cloud_xyz
                samples_xy
              radius_m k q fallback_z offset = Ok out ->
            0 < k /\
            nth j out 0%Q
            = (np_quantile
                 (take 0%Q (map snd cloud_xyz)
                    (cap_nearest argpartition found
                       (map (dist2 (map fst cloud_xyz) (fst s) (snd s)) found)
                       (Z.max 1 k))) q + offset)%Q).
  { intros q out E.
    apply surface_z_ok_inv in E. destruct E as (Hr & Hk & Hq & Hne & E).
    split; [exact Hk|].
    apply samples_loop_inv in E. destruct E as [_ Hj].
    specialize (Hj j Hlt). apply sample_z_used in Hj.
    destruct Hj as (found' & Eg' & Ev). fold s in Eg'.
    assert (found' = found) by congruence. subst found'.
    rewrite Ev. destruct found; [contradiction|reflexivity]. }
  assert (Hz : forall out q,
            surface_z_from_neighbors out_of_range_int32 argpartition cloud_xyz
                samples_xy
              radius_m k q fallback_z offset = Ok out ->
            take 0%Q (map snd cloud_xyz)
              (cap_nearest argpartition found
                 (map (dist2 (map fst cloud_xyz) (fst s) (snd s)) found)
                 (Z.max 1 k)) <> []).
  { intros out q E. destruct (Hv q out E) as [Hk _].
    destruct (used_of_found _ _ _ _ _ _ k found HC Hk Eg) as (_ & _ & U3 & _).
    destruct (cap_nearest argpartition found _ _) eqn:U.
    - destruct found; [contradiction|]. cbn [length] in U3. lia.
    - discriminate. }
  split; intros out E.
  - destruct (np_quantile_extremes _ (Hz out _ E)) as [(a & Ha & Ea & Fa) _].
    exists a. split; [exact Ha|]. split; [|exact Fa].
    rewrite (proj2 (Hv _ _ E)), Ea. reflexivity.
  - destruct (np_quantile_extremes _ (Hz out _ E)) as [_ (b & Hb & Eb & Fb)].
    exists b. split; [exact Hb|]. split; [|exact Fb].
    rewrite (proj2 (Hv _ _ E)), Eb. reflexivity.
Qed.

Lemma surface_z_extreme_quantiles_witness :
  let zs := take 0%Q (map snd four_points)
              (cap_nearest stable_argpartition [0%nat; 1%nat; 3%nat; 2%nat]
                 (map (dist2 (map fst four_points) (4 # 1) 0)
                    [0%nat; 1%nat; 3%nat; 2%nat]) (Z.max 1 2)) in
  (exists a, In a zs /\ (nth 0 [(2 # 1)%Q] 0 == a + 0)%Q /\
             Forall (fun v => (a <= v)%Q) zs) /\
  (exists b, In b zs /\ (nth 0 [(100 # 1)%Q] 0 == b + 0)%Q /\
             Forall (fun v => (v <= b)%Q) zs).
Proof.
  destruct (surface_z_extreme_quantiles int32_min_on_overflow
      stable_argpartition four_points
              [(4 # 1, 0)%Q] (6 # 1) 2 (7 # 1) 0 0%nat
              stable_argpartition_partitions ltac:(simpl; lia)
              [0%nat; 1%nat; 3%nat; 2%nat] eq_refl ltac:(discriminate))
    as [H0 H1].
  split; [apply (H0 [(2 # 1)%Q] eq_refl)|apply (H1 [(100 # 1)%Q] eq_refl)].
Defined.

End ZAssignMoreFacts.

(** * Properties of the DXF extractors and of [compute_bbox] *)

Section CadFacts.
Import Densify Cad CadSpec.

Lemma extract_step_shape (layer : option string) (polylines : list (list vertex))
  (e : Entity) :
  Forall long_enough polylines ->
  Forall long_enough (extract_step layer polylines e).
Proof.
  intros H. unfold extract_step.
  destruct (negb _); [exact H|].
  destruct (String.eqb (dxftype e) "LWPOLYLINE").
  { destruct (Nat.leb_spec 2 (length (map (fun v => (fst v, snd v, dxf_elevation e))
                                         (get_points e)))) as [L|_]; [|exact H].
    apply Forall_app. split; [exact H|]. constructor; [exact L|constructor]. }
  destruct (String.eqb (dxftype e) "POLYLINE").
  { destruct (_ || _); [|exact H].
    destruct (Nat.leb_spec 2 (length (map point3 (vertices e)))) as [L|_]; [|exact H].
    apply Forall_app. split; [exact H|]. constructor; [exact L|constructor]. }
  destruct (String.eqb (dxftype e) "LINE"); [|exact H].
  apply Forall_app. split; [exact H|].
  constructor; [unfold long_enough; simpl; lia|constructor].
Qed.

Lemma extract_fold_shape (layer : option string) (msp : list Entity)
  (polylines : list (list vertex)) :
  Forall long_enough polylines ->
  Forall long_enough (fold_left (extract_step layer) msp polylines).
Proof.
  revert polylines. induction msp as [|e msp IH]; intros polylines H; [exact H|].
  cbn [fold_left]. apply IH. now apply extract_step_shape.
Qed.

Lemma extract_ok_inv (msp : list Entity) (layer : option string)
  (polylines : list (list vertex)) :
  extract_dxf_polylines msp layer = Ok polylines ->
  polylines = fold_left (extract_step layer) msp [] /\ polylines <> [].
Proof.
  unfold extract_dxf_polylines.
  destruct (fold_left _ _ _) as [|p ps]; [discriminate|].
  intros E. injection E as <-. split; [reflexivity|discriminate].
Qed.

Lemma with_layer_step_agrees (layer : option string)
  (out : list (string * list vertex)) (e : Entity) :
  map snd (extract_with_layer_step (allowed (layers_of layer)) out e)
  = extract_step layer (map snd out) e.
Proof.
  unfold extract_with_layer_step, extract_step.
  assert (S : match allowed (layers_of layer) with
              | None => false
              | Some names => negb (existsb (String.eqb (dxf_layer e)) names)
              end = negb (layer_ok layer e)).
  { destruct layer as [[|c l]|]; [reflexivity| |reflexivity].
    cbn [layers_of allowed filter String.eqb negb existsb layer_ok].
    now rewrite orb_false_r. }
  rewrite S. destruct (negb (layer_ok layer e)); [reflexivity|].
  destruct (String.eqb (dxftype e) "LWPOLYLINE").
  { destruct (2 <=? _)%nat; [|reflexivity]. now rewrite map_app. }
  destruct (String.eqb (dxftype e) "POLYLINE").
  { destruct (_ || _); [|reflexivity].
    destruct (2 <=? _)%nat; [|reflexivity]. now rewrite map_app. }
  destruct (String.eqb (dxftype e) "LINE"); [|reflexivity].
  now rewrite map_app.
Qed.

Lemma with_layer_fold_agrees (layer : option string) (msp : list Entity)
  (out : list (string * list vertex)) :
  map snd (fold_left (extract_with_layer_step (allowed (layers_of layer))) msp out)
  = fold_left (extract_step layer) msp (map snd out).
Proof.
  revert out. induction msp as [|e msp IH]; intros out; [reflexivity|].
  cbn [fold_left]. rewrite IH, with_layer_step_agrees. reflexivity.
Qed.

Lemma with_layer_step_names (allow : option (list string))
  (out : list (string * list vertex)) (e : Entity) (P : string -> Prop) :
  (forall l, match allow with
             | None => True
             | Some names => In l names
             end -> P l) ->
  Forall (fun lp => P (fst lp)) out ->
  Forall (fun lp => P (fst lp)) (extract_with_layer_step allow out e).
Proof.
  intros HP H. unfold extract_with_layer_step.
  assert (Hl : match allow with
               | None => false
               | Some names => negb (existsb (String.eqb (dxf_layer e)) names)
               end = false -> P (dxf_layer e)).
  { intros Hs. apply HP. destruct allow as [names|]; [|exact I].
    apply negb_false_iff, existsb_exists in Hs. destruct Hs as (l & Hl & El).
    apply String.eqb_eq in El. now subst l. }
  destruct (match allow with None => false | Some _ => _ end); [exact H|].
  specialize (Hl eq_refl).
  assert (Happ : forall pts, Forall (fun lp => P (fst lp))
                               (out ++ [(dxf_layer e, pts)])).
  { intros pts. apply Forall_app. split; [exact H|]. constructor; [exact Hl|constructor]. }
  destruct (String.eqb (dxftype e) "LWPOLYLINE").
  { destruct (2 <=? _)%nat; [apply Happ|exact H]. }
  destruct (String.eqb (dxftype e) "POLYLINE").
  { destruct (_ || _); [|exact H]. destruct (2 <=? _)%nat; [apply Happ|exact H]. }
  destruct (String.eqb (dxftype e) "LINE"); [apply Happ|exact H].
Qed.

(** X18.  What [extract_dxf_polylines] returns is never empty and holds no
    polyline of fewer than two vertices. *)
Theorem extract_dxf_polylines_shape (msp : list Entity) (layer : option string)
  (polylines : list (list vertex)) :
  extract_dxf_polylines msp layer = Ok polylines ->
  polylines <> [] /\ Forall (fun pl => (2 <= length pl)%nat) polylines.
Proof.
  intros E. apply extract_ok_inv in E. destruct E as [-> Hne].
  split; [exact Hne|]. apply (extract_fold_shape layer msp []). constructor.
Qed.

(** X19.  The two extractors agree.  Asked for all layers, or for one layer,
    [extract_dxf_polylines_with_layer] raises exactly when
    [extract_dxf_polylines] does, and otherwise returns the same polylines
    in the same order, each with a layer name; asked for one layer with a
    non-empty name, that name is the layer asked for. *)
Theorem extractors_agree (msp : list Entity) (layer : option string) :
  match extract_dxf_polylines msp layer,
        extract_dxf_polylines_with_layer msp (layers_of layer) with
  | Ok polylines, Ok out =>
      map snd out = polylines /\
      forall l, layer = Some l -> l <> EmptyString ->
                Forall (fun lp => fst lp = l) out
  | Err e, Err e' => e = e'
  | _, _ => False
  end.
Proof.
  unfold extract_dxf_polylines, extract_dxf_polylines_with_layer.
  pose proof (with_layer_fold_agrees layer msp []) as A. cbn [map] in A.
  assert (N : forall l, layer = Some l -> l <> EmptyString ->
              Forall (fun lp => fst lp = l)
                (fold_left (extract_with_layer_step (allowed (layers_of layer)))
                   msp [])).
  { intros l -> Hl. destruct l as [|c l]; [contradiction Hl; reflexivity|].
    assert (G : forall m out,
              Forall (fun lp : string * list vertex => fst lp = String c l) out ->
              Forall (fun lp => fst lp = String c l)
                (fold_left
                   (extract_with_layer_step (allowed (layers_of (Some (String c l)))))
                   m out)).
    { intros m. induction m as [|e m IH]; intros out H; [exact H|].
      cbn [fold_left]. apply IH.
      apply (with_layer_step_names _ _ _ (fun n => n = String c l)); [|exact H].
      intros n. cbn [layers_of allowed filter String.eqb negb].
      intros [<-|[]]. reflexivity. }
    apply G. constructor. }
  destruct (fold_left (extract_with_layer_step _) msp []) as [|o out];
    destruct (fold_left (extract_step layer) msp []) as [|p ps];
    try discriminate A; [reflexivity|].
  split; [exact A|exact N].
Qed.

Lemma extract_dxf_polylines_shape_witness :
  [[(0, 0, Some 1); (10 # 1, 0, Some (2 # 1))]] <> [] /\
  Forall (fun pl : list vertex => (2 <= length pl)%nat)
    [[(0, 0, Some 1); (10 # 1, 0, Some (2 # 1))]].
Proof.
  apply (extract_dxf_polylines_shape point_and_line None). reflexivity.
Defined.

(** ** [compute_bbox] *)

Lemma py_min_fold (rest : list Q) (v : Q) :
  let m := fold_left (fun m a => if negb (Qle_bool m a) then a else m) rest v in
  (m = v \/ In m rest) /\ m <= v /\ Forall (fun a => m <= a) rest.
Proof.
  cbv zeta. revert v. induction rest as [|a rest IH]; intros v; cbn [fold_left].
  - split; [now left|]. split; [apply Qle_refl|constructor].
  - destruct (IH (if negb (Qle_bool v a) then a else v)) as (I1 & I2 & I3).
    set (m := fold_left _ rest _) in *.
    assert (Hf : (if negb (Qle_bool v a) then a else v) <= v /\
                 (if negb (Qle_bool v a) then a else v) <= a /\
                 ((if negb (Qle_bool v a) then a else v) = v \/
                  (if negb (Qle_bool v a) then a else v) = a)).
    { destruct (Qle_bool v a) eqn:E; cbn [negb].
      - apply Qle_bool_iff in E. split; [apply Qle_refl|]. split; [exact E|now left].
      - assert (a < v).
        { apply Qnot_le_lt. intros H. apply Qle_bool_iff in H. congruence. }
        split; [now apply Qlt_le_weak|]. split; [apply Qle_refl|now right]. }
    destruct Hf as (F1 & F2 & F3). split; [|split].
    + destruct I1 as [I1|I1]; [|right; now right].
      rewrite I1. destruct F3 as [->| ->]; [now left|right; now left].
    + eapply Qle_trans; eassumption.
    + constructor; [eapply Qle_trans; eassumption|exact I3].
Qed.

Lemma py_max_fold (rest : list Q) (v : Q) :
  let m := fold_left (fun m a => if negb (Qle_bool a m) then a else m) rest v in
  (m = v \/ In m rest) /\ v <= m /\ Forall (fun a => a <= m) rest.
Proof.
  cbv zeta. revert v. induction rest as [|a rest IH]; intros v; cbn [fold_left].
  - split; [now left|]. split; [apply Qle_refl|constructor].
  - destruct (IH (if negb (Qle_bool a v) then a else v)) as (I1 & I2 & I3).
    set (m := fold_left _ rest _) in *.
    assert (Hf : v <= (if negb (Qle_bool a v) then a else v) /\
                 a <= (if negb (Qle_bool a v) then a else v) /\
                 ((if negb (Qle_bool a v) then a else v) = v \/
                  (if negb (Qle_bool a v) then a else v) = a)).
    { destruct (Qle_bool a v) eqn:E; cbn [negb].
      - apply Qle_bool_iff in E. split; [apply Qle_refl|]. split; [exact E|now left].
      - assert (v < a).
        { apply Qnot_le_lt. intros H. apply Qle_bool_iff in H. congruence. }
        split; [now apply Qlt_le_weak|]. split; [apply Qle_refl|now right]. }
    destruct Hf as (F1 & F2 & F3). split; [|split].
    + destruct I1 as [I1|I1]; [|right; now right].
      rewrite I1. destruct F3 as [->| ->]; [now left|right; now left].
    + eapply Qle_trans; eassumption.
    + constructor; [eapply Qle_trans; eassumption|exact I3].
Qed.

Lemma py_min_spec (l : list Q) :
  l <> [] ->
  exists m, py_min l = Ok m /\ In m l /\ Forall (fun a => m <= a) l.
Proof.
  destruct l as [|v rest]; [contradiction|]. intros _.
  destruct (py_min_fold rest v) as (H1 & H2 & H3).
  eexists. split; [reflexivity|]. split; [|constructor; assumption].
  destruct H1 as [->|H1]; [now left|now right].
Qed.

Lemma py_max_spec (l : list Q) :
  l <> [] ->
  exists m, py_max l = Ok m /\ In m l /\ Forall (fun a => a <= m) l.
Proof.
  destruct l as [|v rest]; [contradiction|]. intros _.
  destruct (py_max_fold rest v) as (H1 & H2 & H3).
  eexists. split; [reflexivity|]. split; [|constructor; assumption].
  destruct H1 as [->|H1]; [now left|now right].
Qed.

Lemma compute_bbox_ok (xy : list (Q * Q)) :
  xy <> [] ->
  exists minx miny maxx maxy,
    compute_bbox xy = Ok (minx, miny, maxx, maxy) /\
    In minx (map fst xy) /\ In miny (map snd xy) /\
    In maxx (map fst xy) /\ In maxy (map snd xy) /\
    forall p, In p xy ->
              minx <= fst p /\ fst p <= maxx /\ miny <= snd p /\ snd p <= maxy.
Proof.
  intros Hne.
  assert (Hx : map fst xy <> []) by (destruct xy; [contradiction|discriminate]).
  assert (Hy : map snd xy <> []) by (destruct xy; [contradiction|discriminate]).
  destruct (py_min_spec _ Hx) as (minx & E1 & I1 & F1).
  destruct (py_min_spec _ Hy) as (miny & E2 & I2 & F2).
  destruct (py_max_spec _ Hx) as (maxx & E3 & I3 & F3).
  destruct (py_max_spec _ Hy) as (maxy & E4 & I4 & F4).
  exists minx, miny, maxx, maxy. unfold compute_bbox.
  rewrite E1, E2, E3, E4. cbn [bind]. split; [reflexivity|].
  repeat (split; [assumption|]).
  intros p Hp. rewrite Forall_forall in F1, F2, F3, F4.
  repeat split; [apply F1|apply F3|apply F2|apply F4]; now apply in_map.
Qed.

(** X20.  [compute_bbox] raises exactly for an empty sequence.  Otherwise
    the box it returns is the tightest one: each of its four bounds is a
    coordinate of some point, and every point lies within the bounds. *)
Theorem compute_bbox_tight (xy_points : list (Q * Q)) :
  match compute_bbox xy_points with
  | Ok (minx, miny, maxx, maxy) =>
      xy_points <> [] /\
      In minx (map fst xy_points) /\ In miny (map snd xy_points) /\
      In maxx (map fst xy_points) /\ In maxy (map snd xy_points) /\
      forall p, In p xy_points ->
                minx <= fst p /\ fst p <= maxx /\ miny <= snd p /\ snd p <= maxy
  | Err _ => xy_points = []
  end.
Proof.
  destruct xy_points as [|p0 rest] eqn:Exy; [reflexivity|]. rewrite <- Exy.
  assert (Hne : xy_points <> []) by (rewrite Exy; discriminate).
  destruct (compute_bbox_ok _ Hne) as (minx & miny & maxx & maxy & E & H).
  rewrite E. split; [exact Hne|exact H].
Qed.

End CadFacts.

(** * Properties of [run]: from the model space to the samples *)

Section RunSamplesFacts.
Import Densify DensifySpec Cad CadSpec Run RunSpec.

Lemma densify_returns_cons (vertices : list vertex) (step_m : Q) :
  (2 <= length vertices)%nat -> 0 < step_m ->
  exists first rest, densify_polyline vertices step_m = Ok (first :: rest).
Proof.
  intros Hlen Hs.
  assert (Hne : vertices <> []) by (destruct vertices; [simpl in Hlen; lia|discriminate]).
  destruct (route_spaced step_m vertices Hs Hne) as (h & t & Er & _).
  rewrite densify_runs, emitted_route, Er, dedup_pass_cons by assumption.
  eauto.
Qed.

Lemma densify_step_checked (vertices : list vertex) (step_m : Q) :
  (2 <= length vertices)%nat ->
  (step_m <= 0 ->
   densify_polyline vertices step_m = Err (ValueError "step_m must be > 0")) /\
  (forall d, densify_polyline vertices step_m = Ok d -> 0 < step_m).
Proof.
  intros Hlen. unfold densify_polyline.
  destruct (Nat.ltb_spec (length vertices) 2) as [H|_]; [lia|].
  destruct (Qle_bool step_m 0) eqn:E.
  - split; [reflexivity|discriminate].
  - assert (0 < step_m).
    { apply Qnot_le_lt. intros H. apply Qle_bool_iff in H. congruence. }
    split; [intros H'; lra|intros; assumption].
Qed.

Lemma with_layer_step_shape (allow : option (list string))
  (out : list (string * list vertex)) (e : Entity) :
  Forall (fun lp => long_enough (snd lp)) out ->
  Forall (fun lp => long_enough (snd lp)) (extract_with_layer_step allow out e).
Proof.
  intros H. unfold extract_with_layer_step.
  destruct (match allow with None => false | Some _ => _ end); [exact H|].
  destruct (String.eqb (dxftype e) "LWPOLYLINE").
  { destruct (Nat.leb_spec 2 (length (map (fun v => (fst v, snd v, dxf_elevation e))
                                         (get_points e)))) as [L|_]; [|exact H].
    apply Forall_app. split; [exact H|]. constructor; [exact L|constructor]. }
  destruct (String.eqb (dxftype e) "POLYLINE").
  { destruct (_ || _); [|exact H].
    destruct (Nat.leb_spec 2 (length (map point3 (vertices e)))) as [L|_]; [|exact H].
    apply Forall_app. split; [exact H|]. constructor; [exact L|constructor]. }
  destruct (String.eqb (dxftype e) "LINE"); [|exact H].
  apply Forall_app. split; [exact H|].
  constructor; [unfold long_enough; simpl; lia|constructor].
Qed.

Lemma with_layer_fold_shape (allow : option (list string)) (msp : list Entity)
  (out : list (string * list vertex)) :
  Forall (fun lp => long_enough (snd lp)) out ->
  Forall (fun lp => long_enough (snd lp))
    (fold_left (extract_with_layer_step allow) msp out).
Proof.
  revert out. induction msp as [|e msp IH]; intros out H; [exact H|].
  cbn [fold_left]. apply IH. now apply with_layer_step_shape.
Qed.

(** What [run] reads of the DXF: at least one polyline, each of at least
    two vertices, and one layer name for each. *)
Lemma read_polylines_shape (msp : list Entity) (layer : option string)
  (layers_selected : option (list string)) (layer_colors_given : bool)
  (polylines : list (list vertex)) (poly_layers : list string) :
  read_polylines msp layer layers_selected layer_colors_given
  = Ok (polylines, poly_layers) ->
  polylines <> [] /\ Forall long_enough polylines /\
  length poly_layers = length polylines.
Proof.
  unfold read_polylines. destruct (_ || _).
  - unfold extract_dxf_polylines_with_layer.
    pose proof (with_layer_fold_shape (allowed layers_selected) msp []
                  (Forall_nil _)) as F.
    destruct (fold_left _ msp []) as [|o out]; [discriminate|].
    remember (o :: out) as res eqn:Eres.
    cbn [bind]. intros E. injection E as <- <-.
    split; [subst res; discriminate|]. split; [|now rewrite !length_map].
    rewrite Forall_forall in *. intros pl Hpl. apply in_map_iff in Hpl.
    destruct Hpl as (lp & <- & Hlp). now apply F.
  - destruct (extract_dxf_polylines msp layer) as [ps|e] eqn:E; [|discriminate].
    cbn [bind]. intros E'. injection E' as <- <-.
    apply extract_ok_inv in E. destruct E as [-> Hne].
    split; [exact Hne|]. split; [|now rewrite length_map].
    apply (extract_fold_shape layer msp []). constructor.
Qed.

(** The loop over the polylines: every polyline is densified, and the
    samples and their layers are appended polyline by polyline. *)
Lemma build_samples_ok (poly_layers : list string) (step_m : Q)
  (polylines : list (list vertex)) :
  forall (id : nat) (S L S' : list SamplePoint) (Ls Ls' : list string),
    L = S ->
    build_samples poly_layers step_m id polylines S Ls = Ok (S', Ls') ->
    exists dens,
      Forall2 (fun pl d => densify_polyline pl step_m = Ok d) polylines dens /\
      S' = S ++ flat_map (fun nd => tag (fst nd) (snd nd))
                  (combine (seq id (length dens)) dens) /\
      Ls' = Ls ++ flat_map
                    (fun nd => map (fun _ : vertex =>
                                      if (fst nd <? length poly_layers)%nat
                                      then nth (fst nd) poly_layers EmptyString
                                      else EmptyString) (snd nd))
                    (combine (seq id (length dens)) dens).
Proof.
  induction polylines as [|pl rest IH]; intros id S L S' Ls Ls' _ E.
  - injection E as <- <-. exists []. split; [constructor|].
    cbn. now rewrite !app_nil_r.
  - cbn [build_samples] in E.
    destruct (densify_polyline pl step_m) as [pts|e] eqn:D; [|discriminate].
    cbn [bind] in E.
    destruct (IH _ _ _ _ _ _ eq_refl E) as (dens & F & ES & EL).
    exists (pts :: dens). split; [now constructor|].
    cbn [length seq combine flat_map fst snd].
    unfold tag at 1. rewrite !app_assoc. split; assumption.
Qed.

Lemma build_samples_err (poly_layers : list string) (step_m : Q)
  (pl : list vertex) (rest : list (list vertex)) (e : exn)
  (S : list SamplePoint) (Ls : list string) (id : nat) :
  densify_polyline pl step_m = Err e ->
  build_samples poly_layers step_m id (pl :: rest) S Ls = Err e.
Proof. intros D. cbn [build_samples]. now rewrite D. Qed.

Lemma flat_map_lengths {A B C : Type} (f : A -> list B) (g : A -> list C)
  (l : list A) :
  (forall a, In a l -> length (f a) = length (g a)) ->
  length (flat_map f l) = length (flat_map g l).
Proof.
  induction l as [|a l IH]; intros H; [reflexivity|].
  cbn [flat_map]. rewrite !length_app, (H a (or_introl eq_refl)), IH; [reflexivity|].
  intros b Hb. apply H. now right.
Qed.

Lemma flat_map_ext_in {A B : Type} (f g : A -> list B) (l : list A) :
  (forall a, In a l -> f a = g a) -> flat_map f l = flat_map g l.
Proof.
  induction l as [|a l IH]; intros H; [reflexivity|].
  cbn [flat_map]. rewrite (H a (or_introl eq_refl)), IH; [reflexivity|].
  intros b Hb. apply H. now right.
Qed.

(** X21.  When [run] gets as far as its samples: it read at least one
    polyline, the step is positive, every polyline was densified to at least
    one point, and the samples are the points of the densified polylines in
    order, each with the number of its polyline; the layer recorded for a
    sample is the layer of its polyline (the branch for a missing layer is
    never taken); so there is at least one sample and as many layers as
    samples. *)
Theorem run_samples_by_polyline (msp : list Entity) (step_m : Q)
  (layer : option string) (layers_selected : option (list string))
  (layer_colors_given : bool)
  (samples : list SamplePoint) (sample_layers : list string)
  (xy_all : list (Q * Q)) :
  run_samples msp step_m layer layers_selected layer_colors_given
  = Ok (samples, sample_layers, xy_all) ->
  exists polylines poly_layers dens,
    read_polylines msp layer layers_selected layer_colors_given
    = Ok (polylines, poly_layers) /\
    polylines <> [] /\ 0 < step_m /\
    Forall2 (fun pl d => densify_polyline pl step_m = Ok d /\ d <> [])
            polylines dens /\
    samples = flat_map (fun nd => tag (fst nd) (snd nd)) (numbered dens) /\
    sample_layers
    = flat_map (fun nd => map (fun _ => nth (fst nd) poly_layers EmptyString)
                              (snd nd)) (numbered dens) /\
    xy_all = map (fun s => (x s, y s)) samples /\
    samples <> [] /\ length sample_layers = length samples.
Proof.
  unfold run_samples.
  destruct (read_polylines _ _ _ _) as [[polylines poly_layers]|e] eqn:R;
    [|discriminate].
  cbn [bind fst snd].
  destruct (build_samples _ _ _ _ _ _) as [[S' Ls']|e] eqn:B; [|discriminate].
  cbn [bind fst snd]. intros E. injection E as <- <- <-.
  destruct (read_polylines_shape _ _ _ _ _ _ R) as (Hne & Hlong & Hlen).
  destruct (build_samples_ok _ _ _ _ _ [] _ _ _ eq_refl B) as (dens & F & ES & EL).
  cbn [app] in ES, EL.
  assert (Hs : 0 < step_m).
  { destruct F as [|pl d ps ds D _]; [contradiction|].
    apply Forall_inv in Hlong.
    apply (proj2 (densify_step_checked pl step_m Hlong) d D). }
  assert (F' : Forall2 (fun pl d => densify_polyline pl step_m = Ok d /\ d <> [])
                       polylines dens).
  { clear - F Hlong Hs. induction F as [|pl d ps ds D F IH]; [constructor|].
    constructor.
    - split; [exact D|]. apply Forall_inv in Hlong.
      destruct (densify_returns_cons pl step_m Hlong Hs) as (h & t & D').
      rewrite D' in D. injection D as <-. discriminate.
    - apply IH. now apply Forall_inv_tail in Hlong. }
  assert (Hd : length dens = length polylines).
  { symmetry. apply (Forall2_length F). }
  assert (EL' : Ls' = flat_map
                        (fun nd => map (fun _ : vertex =>
                                          nth (fst nd) poly_layers EmptyString)
                                       (snd nd)) (numbered dens)).
  { rewrite EL. apply flat_map_ext_in. intros [i d] Hin. cbn [fst snd].
    apply in_combine_l in Hin. apply in_seq in Hin.
    destruct (Nat.ltb_spec i (length poly_layers)) as [_|H]; [reflexivity|lia]. }
  exists polylines, poly_layers, dens.
  split; [reflexivity|]. split; [exact Hne|]. split; [exact Hs|].
  split; [exact F'|]. split; [exact ES|]. split; [exact EL'|].
  split; [reflexivity|]. split.
  - rewrite ES. destruct F' as [|pl d ps ds [_ Dne] _]; [contradiction|].
    unfold numbered. cbn [length seq combine flat_map fst snd].
    destruct d; [contradiction|discriminate].
  - rewrite ES, EL'. apply flat_map_lengths. intros [i d] _. cbn [fst snd].
    unfold tag. now rewrite !length_map.
Qed.

(** X22.  Along [run] a step that is not positive never gets through: when
    the DXF yields linework the error is the one on the step, because every
    extracted polyline has two vertices or more; otherwise it is the error
    of the extractor. *)
Theorem run_samples_step_not_positive (msp : list Entity) (step_m : Q)
  (layer : option string) (layers_selected : option (list string))
  (layer_colors_given : bool) :
  step_m <= 0 ->
  run_samples msp step_m layer layers_selected layer_colors_given
  = match read_polylines msp layer layers_selected layer_colors_given with
    | Ok _ => Err (ValueError "step_m must be > 0")
    | Err e => Err e
    end.
Proof.
  intros Hs. unfold run_samples.
  destruct (read_polylines _ _ _ _) as [[polylines poly_layers]|e] eqn:R;
    [|reflexivity].
  cbn [bind fst snd].
  destruct (read_polylines_shape _ _ _ _ _ _ R) as (Hne & Hlong & _).
  destruct polylines as [|pl rest]; [contradiction|].
  apply Forall_inv in Hlong.
  rewrite (build_samples_err _ _ _ _ (ValueError "step_m must be > 0"));
    [reflexivity|].
  apply (proj1 (densify_step_checked pl step_m Hlong) Hs).
Qed.

Lemma run_samples_by_polyline_witness :
  exists polylines poly_layers dens,
    read_polylines point_and_line None None true = Ok (polylines, poly_layers) /\
    polylines <> [] /\ 0 < 5 # 1 /\
    Forall2 (fun pl d => densify_polyline pl (5 # 1) = Ok d /\ d <> [])
            polylines dens /\
    line_samples = flat_map (fun nd => tag (fst nd) (snd nd)) (numbered dens) /\
    line_layers
    = flat_map (fun nd => map (fun _ => nth (fst nd) poly_layers EmptyString)
                              (snd nd)) (numbered dens) /\
    line_xy = map (fun s => (x s, y s)) line_samples /\
    line_samples <> [] /\ length line_layers = length line_samples.
Proof.
  apply (run_samples_by_polyline point_and_line (5 # 1) None None true).
  vm_compute. reflexivity.
Defined.

Lemma run_samples_step_not_positive_witness :
  run_samples point_and_line (- 5 # 1) None None false
  = match read_polylines point_and_line None None false with
    | Ok _ => Err (ValueError "step_m must be > 0")
    | Err e => Err e
    end.
Proof.
  apply (run_samples_step_not_positive point_and_line (- 5 # 1) None None false).
  unfold Qle. simpl. lia.
Defined.

End RunSamplesFacts.

(** * The progress reported while Z is assigned *)

Section ProgressFacts.
Import Progress.

Local Open Scope Z_scope.

Lemma sorted_snoc (l : list Z) (q : Z) :
  StronglySorted Z.lt l -> Forall (fun p => p < q) l ->
  StronglySorted Z.lt (l ++ [q]).
Proof.
  induction 1 as [|a l S IH F]; intros H; cbn [app].
  - constructor; constructor.
  - constructor.
    + apply IH. now apply Forall_inv_tail in H.
    + apply Forall_app. split; [exact F|].
      constructor; [now apply Forall_inv in H|constructor].
Qed.

Lemma sorted_length_bound (l : list Z) :
  StronglySorted Z.lt l ->
  forall a b, Forall (fun p => a <= p <= b) l ->
              Z.of_nat (length l) <= Z.max 0 (b - a + 1).
Proof.
  induction 1 as [|h t S IH F]; intros a b H; cbn [length]; [lia|].
  apply Forall_inv in H as Hh. apply Forall_inv_tail in H.
  assert (Ht : Forall (fun p => h + 1 <= p <= b) t).
  { rewrite Forall_forall in *. intros p Hp.
    specialize (F p Hp). specialize (H p Hp). lia. }
  specialize (IH (h + 1) b Ht). lia.
Qed.

(** The state of the loop after the first [s] samples of [n]. *)
Lemma progress_fold (n : nat) :
  forall (len s : nat) (last_p : Z) (ev : list Z),
    (s + len = n)%nat ->
    (s = 0%nat -> last_p = -1 /\ ev = []) ->
    ((1 <= s)%nat ->
     last_p = (100 * Z.of_nat s) / Z.max 1 (Z.of_nat n) /\ last ev (-1) = last_p) ->
    StronglySorted Z.lt ev -> Forall (fun p => 0 <= p <= last_p) ev ->
    (length ev <= s)%nat ->
    let st := fold_left (progress_step (Z.of_nat n)) (seq s len) (last_p, ev) in
    (n = 0%nat -> snd st = []) /\
    ((1 <= n)%nat -> fst st = 100 /\ last (snd st) (-1) = 100) /\
    StronglySorted Z.lt (snd st) /\ Forall (fun p => 0 <= p <= fst st) (snd st) /\
    (length (snd st) <= n)%nat.
Proof.
  induction len as [|len IH]; intros s last_p ev Hn H0 H1 Hs Hf Hl; cbv zeta.
  - cbn [seq fold_left fst snd]. rewrite Nat.add_0_r in Hn. subst s.
    split; [intros E; now apply H0|]. split; [|split; [exact Hs|split; [exact Hf|exact Hl]]].
    intros Hn. destruct (H1 Hn) as [E1 E2]. rewrite E2, E1.
    replace (Z.max 1 (Z.of_nat n)) with (Z.of_nat n) by lia.
    rewrite Z.div_mul by lia. split; reflexivity.
  - cbn [seq fold_left].
    set (N := Z.max 1 (Z.of_nat n)).
    set (p := 100 * (Z.of_nat s + 1) / N).
    replace (progress_step (Z.of_nat n) (last_p, ev) s)
      with (if negb (p =? last_p) then (p, ev ++ [p]) else (last_p, ev))
      by reflexivity.
    assert (HN : 0 < N) by (unfold N; lia).
    assert (Hp : last_p <= p /\ 0 <= p).
    { assert (0 <= p) by (apply Z.div_pos; lia).
      split; [|assumption].
      destruct s as [|s']; [destruct (H0 eq_refl) as [-> _]; lia|].
      destruct (H1 ltac:(lia)) as [-> _].
      apply Z.div_le_mono; [exact HN|lia]. }
    assert (Hp' : p = 100 * Z.of_nat (S s) / Z.max 1 (Z.of_nat n)).
    { unfold p, N. f_equal. lia. }
    destruct (Z.eqb_spec p last_p) as [E|E]; cbn [negb].
    + apply IH; [lia|intros; lia| |exact Hs|exact Hf|lia].
      intros _. split; [lia|]. destruct s as [|s']; [|apply H1; lia].
      destruct (H0 eq_refl) as [-> _]. lia.
    + apply IH; [lia|intros; lia| | | |].
      * intros _. split; [exact Hp'|]. now rewrite last_last.
      * apply sorted_snoc; [exact Hs|].
        rewrite Forall_forall in *. intros q Hq. specialize (Hf q Hq). lia.
      * apply Forall_app. split.
        -- rewrite Forall_forall in *. intros q Hq. specialize (Hf q Hq). lia.
        -- constructor; [lia|constructor].
      * rewrite length_app. cbn [length]. lia.
Qed.

Lemma sample_progress_inv (n : nat) :
  let ev := sample_progress n in
  (n = 0%nat -> ev = []) /\
  ((1 <= n)%nat -> last ev (-1) = 100) /\
  StronglySorted Z.lt ev /\ Forall (fun p => 0 <= p <= 100) ev /\
  (length ev <= n)%nat.
Proof.
  cbv zeta. unfold sample_progress.
  destruct (progress_fold n n 0 (-1) [] ltac:(lia) ltac:(intros; split; reflexivity)
              ltac:(intros; lia) (SSorted_nil _) (Forall_nil _) ltac:(simpl; lia))
    as (A & B & C & D & E).
  set (st := fold_left _ _ _) in *.
  split; [exact A|]. split; [intros H; now apply B|]. split; [exact C|].
  split; [|exact E].
  destruct n as [|n'].
  - rewrite (A eq_refl). constructor.
  - destruct (B ltac:(lia)) as [F _]. rewrite F in D. exact D.
Qed.

(** X23.  The percentages the sample loop reports, for a loop over n
    samples that no exception ends: none for n = 0; otherwise they increase
    strictly, lie between 0 and 100, and end with 100.  So no percentage is
    reported twice, and there are at most min(n, 101) calls. *)
Theorem sample_progress_increasing (n : nat) :
  let ev := sample_progress n in
  StronglySorted Z.lt ev /\
  Forall (fun p => 0 <= p <= 100) ev /\
  NoDup ev /\
  (n = 0%nat -> ev = []) /\
  ((1 <= n)%nat -> last ev (-1) = 100) /\
  Z.of_nat (length ev) <= Z.min (Z.of_nat n) 101.
Proof.
  cbv zeta. destruct (sample_progress_inv n) as (A & B & C & D & E).
  split; [exact C|]. split; [exact D|]. split; [|split; [exact A|split; [exact B|]]].
  - clear - C. induction C as [|h t S IH F]; constructor; [|exact IH].
    intros Hin. rewrite Forall_forall in F. specialize (F h Hin). lia.
  - pose proof (sorted_length_bound _ C 0 100 D). lia.
Qed.

(** X24.  What [run] passes on of these percentages to its own callback
    never decreases, stays between 40 and 47, and ends with 47 when there is
    a sample. *)
Theorem pipeline_z_progress (n : nat) :
  let passed := map _z_prog (sample_progress n) in
  (forall i j, (i <= j < length passed)%nat -> nth i passed 0 <= nth j passed 0) /\
  Forall (fun p => 40 <= p <= 47) passed /\
  ((1 <= n)%nat -> last passed 0 = 47).
Proof.
  cbv zeta. destruct (sample_progress_inv n) as (A & B & C & D & E).
  set (ev := sample_progress n) in *. clearbody ev.
  assert (R : forall p, 0 <= p <= 100 -> 40 <= _z_prog p <= 47).
  { intros p Hp. unfold _z_prog.
    replace (Z.max 0 (Z.min 100 p)) with p by lia.
    assert (0 <= 7 * p / 100) by (apply Z.div_pos; lia).
    assert (7 * p / 100 <= 700 / 100) by (apply Z.div_le_mono; lia).
    change (700 / 100) with 7 in *. lia. }
  assert (M : forall p q, p <= q -> _z_prog p <= _z_prog q).
  { intros p q Hpq. unfold _z_prog.
    apply Z.add_le_mono_l, Z.div_le_mono; lia. }
  split; [|split].
  - intros i j Hij. rewrite length_map in Hij.
    rewrite (nth_indep _ 0 (_z_prog (-100))),
      (nth_indep _ 0 (_z_prog (-100)) (n := j)) by (rewrite length_map; lia).
    rewrite !map_nth. apply M.
    destruct (Nat.eq_dec i j) as [->|Hne]; [lia|].
    apply Z.lt_le_incl.
    assert (G : forall (l : list Z), StronglySorted Z.lt l ->
                forall a b, (a < b < length l)%nat -> nth a l (-100) < nth b l (-100)).
    { clear. induction 1 as [|h t S IH F]; intros a b Hab; [simpl in Hab; lia|].
      destruct b as [|b]; [lia|]. destruct a as [|a]; cbn [nth].
      - rewrite Forall_forall in F. apply F, nth_In. simpl in Hab. lia.
      - apply IH. simpl in Hab. lia. }
    apply G; [exact C|lia].
  - rewrite Forall_forall in *. intros q Hq. apply in_map_iff in Hq.
    destruct Hq as (p & <- & Hp). apply R, D, Hp.
  - intros Hn. specialize (B Hn).
    assert (Hne : ev <> []).
    { intros E0. rewrite E0 in B. discriminate B. }
    destruct (exists_last Hne) as (l' & a & ->).
    rewrite last_last in B. subst a. rewrite map_app. cbn [map].
    rewrite last_last. reflexivity.
Qed.

End ProgressFacts.

(** * Properties of [pick_constant_z] *)

Section ZConstFacts.
Import ZAssign ZConst.

Lemma half_index (M : Z) :
  Qfloor (inject_Z (2 * M - 1) * (1 # 2)) = (M - 1)%Z /\
  inject_Z (2 * M - 1) * (1 # 2) - inject_Z (M - 1) == 1 # 2 /\
  Qfloor (inject_Z (2 * M) * (1 # 2)) = M /\
  inject_Z (2 * M) * (1 # 2) - inject_Z M == 0.
Proof.
  split; [|split; [|split]].
  - unfold Qfloor, Qmult, inject_Z. cbn [Qnum Qden Pos.mul].
    symmetry. apply (Z.div_unique _ 2 (M - 1) 1); lia.
  - unfold Qeq, Qminus, Qplus, Qopp, Qmult, inject_Z. cbn [Qnum Qden Pos.mul]. lia.
  - unfold Qfloor, Qmult, inject_Z. cbn [Qnum Qden Pos.mul].
    symmetry. apply (Z.div_unique _ 2 M 0); lia.
  - unfold Qeq, Qminus, Qplus, Qopp, Qmult, inject_Z. cbn [Qnum Qden Pos.mul]. lia.
Qed.

(** The median is the quantile at one half. *)
Lemma np_median_quantile (zs : list Q) :
  zs <> [] -> np_median zs == np_quantile zs (1 # 2).
Proof.
  intros Hz. unfold np_median, np_quantile. cbv zeta.
  pose proof (isort_nonempty zs Hz) as Hne.
  set (a := isort Qle_bool zs) in *.
  assert (Hlen : (1 <= length a)%nat) by (destruct a; [contradiction|simpl; lia]).
  set (n := length a) in *. clearbody n.
  destruct (Nat.even n) eqn:Ev.
  - apply Nat.even_spec in Ev. destruct Ev as [m Hm].
    assert (Hd : (n / 2 = m)%nat).
    { symmetry. apply (Nat.div_unique n 2 m 0); lia. }
    rewrite Hd.
    replace (Z.of_nat n - 1)%Z with (2 * Z.of_nat m - 1)%Z by lia.
    destruct (half_index (Z.of_nat m)) as (F & G & _ & _).
    rewrite F, G.
    replace (Z.to_nat (Z.max 0 (Z.min (Z.of_nat m - 1) (2 * Z.of_nat m - 1))))
      with (m - 1)%nat by lia.
    replace (Z.to_nat (Z.max 0 (Z.min (Z.of_nat m - 1 + 1) (2 * Z.of_nat m - 1))))
      with m by lia.
    field.
  - assert (Ho : Nat.odd n = true) by (rewrite <- Nat.negb_even, Ev; reflexivity).
    apply Nat.odd_spec in Ho. destruct Ho as [m Hm].
    assert (Hd : (n / 2 = m)%nat).
    { symmetry. apply (Nat.div_unique n 2 m 1); lia. }
    rewrite Hd.
    replace (Z.of_nat n - 1)%Z with (2 * Z.of_nat m)%Z by lia.
    destruct (half_index (Z.of_nat m)) as (_ & _ & F & G).
    rewrite F, G.
    replace (Z.to_nat (Z.max 0 (Z.min (Z.of_nat m) (2 * Z.of_nat m))))
      with m by lia.
    ring.
Qed.

Lemma lower_char_idem (c : Ascii.ascii) :
  Str.lower_char (Str.lower_char c) = Str.lower_char c.
Proof.
  destruct c as [[] [] [] [] [] [] [] []]; reflexivity.
Qed.

Lemma lower_idem (s : string) : Str.lower (Str.lower s) = Str.lower s.
Proof.
  induction s as [|c s IH]; [reflexivity|].
  cbn [Str.lower]. now rewrite lower_char_idem, IH.
Qed.

Lemma median_mode (zs : list Q) (offset : Q) :
  pick_constant_z zs "median" offset = Ok (np_median zs + offset).
Proof. reflexivity. Qed.

Lemma np_median_between (zs : list Q) :
  zs <> [] -> exists a b, In a zs /\ In b zs /\ a <= np_median zs <= b.
Proof.
  intros Hz.
  destruct (np_quantile_between zs (1 # 2) Hz) as (a & b & Ha & Hb & Hab);
    [unfold Qle; simpl; lia|unfold Qle; simpl; lia|].
  exists a, b. split; [exact Ha|]. split; [exact Hb|].
  rewrite (np_median_quantile zs Hz). exact Hab.
Qed.

(** X25.  [pick_constant_z] does not mind the case of the mode, and a mode
    that is neither p95 nor median raises.  For an array that is not empty,
    both modes return, the median at most the 95th percentile, and both, the
    offset taken off, between two entries of the array. *)
Theorem pick_constant_z_modes (zs : list Q) (mode : string) (offset : Q) :
  zs <> [] ->
  pick_constant_z zs mode offset = pick_constant_z zs (Str.lower mode) offset /\
  (Str.lower mode <> "p95"%string -> Str.lower mode <> "median"%string ->
   exists msg, pick_constant_z zs mode offset = Err (ValueError msg)) /\
  exists m p a b,
    pick_constant_z zs "median" offset = Ok m /\
    pick_constant_z zs "p95" offset = Ok p /\
    In a zs /\ In b zs /\
    a + offset <= m /\ m <= p /\ p <= b + offset.
Proof.
  intros Hz. split; [|split].
  - unfold pick_constant_z. now rewrite lower_idem.
  - intros H1 H2. unfold pick_constant_z.
    destruct (String.eqb_spec (Str.lower mode) "p95") as [E|_]; [contradiction|].
    destruct (String.eqb_spec (Str.lower mode) "median") as [E|_]; [contradiction|].
    eexists. reflexivity.
  - assert (Q95 : (95 # 1) / (100 # 1) <= 1) by (unfold Qle; simpl; lia).
    assert (Q50 : 1 # 2 <= (95 # 1) / (100 # 1)) by (unfold Qle; simpl; lia).
    assert (Q0 : 0 <= (95 # 1) / (100 # 1)) by (unfold Qle; simpl; lia).
    destruct (np_median_between zs Hz) as (a & _ & Ha & _ & Hab & _).
    destruct (np_quantile_between zs ((95 # 1) / (100 # 1)) Hz Q0 Q95)
      as (_ & b & _ & Hb & _ & Hpb).
    pose proof (np_quantile_mono zs (1 # 2) _ ltac:(unfold Qle; simpl; lia) Q50 Q95)
      as Hmp.
    rewrite <- (np_median_quantile zs Hz) in Hmp.
    exists (np_median zs + offset), (np_percentile zs (95 # 1) + offset), a, b.
    split; [reflexivity|]. split; [reflexivity|].
    split; [exact Ha|]. split; [exact Hb|].
    unfold np_percentile. repeat split; lra.
Qed.

Lemma pick_constant_z_modes_witness :
  pick_constant_z RunSpec.three_z "Median" 0
  = pick_constant_z RunSpec.three_z (Str.lower "Median") 0 /\
  (Str.lower "Median" <> "p95"%string -> Str.lower "Median" <> "median"%string ->
   exists msg, pick_constant_z RunSpec.three_z "Median" 0 = Err (ValueError msg)) /\
  exists m p a b,
    pick_constant_z RunSpec.three_z "median" 0 = Ok m /\
    pick_constant_z RunSpec.three_z "p95" 0 = Ok p /\
    In a RunSpec.three_z /\ In b RunSpec.three_z /\
    a + 0 <= m /\ m <= p /\ p <= b + 0.
Proof.
  apply (pick_constant_z_modes RunSpec.three_z "Median" 0). discriminate.
Defined.

End ZConstFacts.

(** * Properties of [run]: from the samples to the points with their Z *)

Section RunZFacts.
Import Np ZAssign ZAssignSpec ZConst Cad Run RunSpec.

Lemma map_fst_combine_eq {A B : Type} (l : list A) (l' : list B) :
  length l' = length l -> map fst (combine l l') = l.
Proof.
  revert l'. induction l as [|a l IH]; intros [|b l'] H; try discriminate H;
    [reflexivity|].
  cbn [combine map fst]. f_equal. apply IH. simpl in H. lia.
Qed.

Lemma in_take_valid (zs : list Q) (ids : list nat) (v : Q) :
  (forall i, In i ids -> (i < length zs)%nat) ->
  In v (take 0 zs ids) -> In v zs.
Proof.
  intros H Hv. unfold take in Hv. apply in_map_iff in Hv.
  destruct Hv as (i & <- & Hi). apply nth_In. now apply H.
Qed.

(** What [run_z] has gone through when it returns. *)
Lemma run_z_ok_inv (choice : Z -> nat -> nat -> list nat) (oor : Z -> Z)
  (argpartition : list Q -> Z -> list nat)
  (os_entropy : Z) (xy_all : list (Q * Q)) (cloud_path : string)
  (lf : Las.LasFile) (z_mode : string) (z_offset z_radius_m : Q) (z_k : Z)
  (z_quantile : Q) (las_max_points : option Z) (pts : list (Q * Q * Q)) :
  run_z choice oor argpartition os_entropy xy_all cloud_path lf z_mode z_offset
      z_radius_m
    z_k z_quantile las_max_points = Ok pts ->
  exists bbox cloud_xyz z_vals,
    compute_bbox xy_all = Ok bbox /\
    (Str.endswith (Str.lower cloud_path) ".las"
     || Str.endswith (Str.lower cloud_path) ".laz") = true /\
    (Str.startswith (Str.lower z_mode) "surface"
     || String.eqb (Str.lower z_mode) "p95") = true /\
    CloudLas.read_las_points_in_bbox choice os_entropy lf bbox las_max_points
    = Ok cloud_xyz /\
    surface_z_from_neighbors oor argpartition cloud_xyz xy_all z_radius_m z_k
        z_quantile
      (np_median (map snd cloud_xyz) + 0)
      (offset_val (Str.lower z_mode) z_offset) = Ok z_vals /\
    pts = map (fun p => (fst (fst p), snd (fst p), snd p)) (combine xy_all z_vals).
Proof.
  unfold run_z.
  destruct (compute_bbox xy_all) as [bbox|e] eqn:B; cbn [bind]; [|discriminate].
  destruct (Str.endswith _ _ || Str.endswith _ _) eqn:Ext; cbn [negb];
    [|discriminate].
  destruct (Str.startswith _ _ || String.eqb _ _) eqn:M; [|discriminate].
  destruct (CloudLas.read_las_points_in_bbox _ _ _ _ _) as [cloud_xyz|e] eqn:R;
    cbn [bind]; [|discriminate].
  change (pick_constant_z (map snd cloud_xyz) "median" 0)
    with (Ok (A := Q) (np_median (map snd cloud_xyz) + 0)).
  cbn [bind].
  destruct (surface_z_from_neighbors _ _ _ _ _ _ _ _ _) as [z_vals|e] eqn:Sf;
    cbn [bind]; [|discriminate].
  intros E. injection E as <-.
  exists bbox, cloud_xyz, z_vals. repeat split; assumption || reflexivity.
Qed.

(** X26.  What [run] requires of its arguments before it assigns any Z:
    there is at least one sample, the cloud path ends in .las or .laz and the
    Z mode is p95 or begins with surface, whatever the case of the letters.
    In particular the mode median, which [pick_constant_z] knows, is
    refused. *)
Theorem run_z_requirements (choice : Z -> nat -> nat -> list nat)
  (out_of_range_int32 : Z -> Z)
  (argpartition : list Q -> Z -> list nat) (os_entropy : Z)
  (xy_all : list (Q * Q))
  (cloud_path : string) (lf : Las.LasFile) (z_mode : string)
  (z_offset z_radius_m : Q) (z_k : Z) (z_quantile : Q)
  (las_max_points : option Z) (pts : list (Q * Q * Q)) :
  run_z choice out_of_range_int32 argpartition os_entropy xy_all cloud_path lf
      z_mode
    z_offset z_radius_m z_k z_quantile las_max_points = Ok pts ->
  xy_all <> [] /\
  (Str.endswith (Str.lower cloud_path) ".las" = true \/
   Str.endswith (Str.lower cloud_path) ".laz" = true) /\
  (Str.startswith (Str.lower z_mode) "surface" = true \/
   Str.lower z_mode = "p95"%string) /\
  Str.lower z_mode <> "median"%string.
Proof.
  intros E. apply run_z_ok_inv in E.
  destruct E as (bbox & cloud_xyz & z_vals & B & Ext & M & _).
  split; [intros ->; discriminate B|].
  split; [now apply orb_true_iff in Ext|].
  apply orb_true_iff in M.
  assert (M' : Str.startswith (Str.lower z_mode) "surface" = true \/
               Str.lower z_mode = "p95"%string).
  { destruct M as [M|M]; [now left|right; now apply String.eqb_eq]. }
  split; [exact M'|].
  intros Em. rewrite Em in M'. destruct M' as [M'|M']; discriminate M'.
Qed.

Lemma run_z_requirements_witness :
  line_xy <> [] /\
  (Str.endswith (Str.lower "Cloud.LAS") ".las" = true \/
   Str.endswith (Str.lower "Cloud.LAS") ".laz" = true) /\
  (Str.startswith (Str.lower "Surface") "surface" = true \/
   Str.lower "Surface" = "p95"%string) /\
  Str.lower "Surface" <> "median"%string.
Proof.
  apply (run_z_requirements (fun _ _ _ => []) int32_min_on_overflow
           stable_argpartition 0 line_xy
           "Cloud.LAS" CloudLasSpec.small_cloud "Surface" (5 # 1) (6 # 1) 2
           (1 # 2) None line_points).
  vm_compute. reflexivity.
Defined.

(** X27.  The Z offset is used in the modes surface_offset and p95 only, and
    the mode p95 is the mode surface_offset: [run] takes no 95th percentile.
    In every other mode the offset given has no effect on what [run]
    returns or raises. *)
Theorem run_z_offset_modes (choice : Z -> nat -> nat -> list nat)
  (out_of_range_int32 : Z -> Z)
  (argpartition : list Q -> Z -> list nat) (os_entropy : Z)
  (xy_all : list (Q * Q))
  (cloud_path : string) (lf : Las.LasFile) (z_mode : string)
  (z_offset z_radius_m : Q) (z_k : Z) (z_quantile : Q)
  (las_max_points : option Z) :
  let run m o := run_z choice out_of_range_int32 argpartition os_entropy xy_all
      cloud_path
                   lf m o z_radius_m z_k z_quantile las_max_points in
  (Str.lower z_mode = "p95"%string ->
   run z_mode z_offset = run "surface_offset"%string z_offset) /\
  (Str.lower z_mode <> "surface_offset"%string ->
   Str.lower z_mode <> "p95"%string ->
   forall o, run z_mode z_offset = run z_mode o).
Proof.
  cbv zeta. split.
  - intros E. unfold run_z. rewrite E. reflexivity.
  - intros H1 H2 o. unfold run_z, offset_val.
    destruct (String.eqb_spec (Str.lower z_mode) "surface_offset") as [E|_];
      [contradiction|].
    destruct (String.eqb_spec (Str.lower z_mode) "p95") as [E|_]; [contradiction|].
    reflexivity.
Qed.

(** X28.  When [run] returns its points there is one for each sample, in
    order and at the planar position of the sample; the bounded reader
    returned a cloud for the box of the samples; and the Z of every point, the
    offset of the mode taken off, lies between two elevations of that
    cloud.  [argpartition] is any function that keeps numpy's promise. *)
Theorem run_z_points (choice : Z -> nat -> nat -> list nat)
  (out_of_range_int32 : Z -> Z)
  (argpartition : list Q -> Z -> list nat) (os_entropy : Z)
  (xy_all : list (Q * Q))
  (cloud_path : string) (lf : Las.LasFile) (z_mode : string)
  (z_offset z_radius_m : Q) (z_k : Z) (z_quantile : Q)
  (las_max_points : option Z) (pts : list (Q * Q * Q)) :
  run_z choice out_of_range_int32 argpartition os_entropy xy_all cloud_path lf
      z_mode
    z_offset z_radius_m z_k z_quantile las_max_points = Ok pts ->
  partitions argpartition ->
  map fst pts = xy_all /\
  exists bbox cloud_xyz,
    compute_bbox xy_all = Ok bbox /\
    CloudLas.read_las_points_in_bbox choice os_entropy lf bbox las_max_points
    = Ok cloud_xyz /\
    forall p, In p pts ->
      exists a b, In a (map snd cloud_xyz) /\ In b (map snd cloud_xyz) /\
                  a + offset_val (Str.lower z_mode) z_offset <= snd p /\
                  snd p <= b + offset_val (Str.lower z_mode) z_offset.
Proof.
  intros E HC. apply run_z_ok_inv in E.
  destruct E as (bbox & cloud_xyz & z_vals & B & _ & _ & R & Sf & ->).
  set (off := offset_val (Str.lower z_mode) z_offset) in *.
  apply surface_z_ok_inv in Sf. destruct Sf as (Hr & Hk & [Hq0 Hq1] & Hne & L).
  apply samples_loop_inv in L. destruct L as [Hlen Hj].
  assert (Hz : map snd cloud_xyz <> []).
  { destruct cloud_xyz; [contradiction|discriminate]. }
  split.
  - rewrite map_map.
    rewrite <- (map_fst_combine_eq xy_all z_vals Hlen) at 2.
    apply map_ext. intros [[px py] pz]. reflexivity.
  - exists bbox, cloud_xyz. split; [exact B|]. split; [exact R|].
    intros p Hp. apply in_map_iff in Hp. destruct Hp as ([xy zv] & <- & Hin).
    cbn [fst snd].
    destruct (In_nth _ _ ((0, 0), 0) Hin) as (j & Hjl & Ej).
    rewrite length_combine, Hlen, Nat.min_id in Hjl.
    rewrite combine_nth in Ej by (symmetry; exact Hlen).
    injection Ej as _ Ez. specialize (Hj j Hjl). rewrite Ez in Hj.
    destruct (sample_value_range _ _ _ _ _ _ _ _ _ _ HC Hk Hq0 Hq1 Hj)
      as [->|(a & b & Ha & Hb & Hab)].
    + destruct (np_median_between _ Hz) as (a & b & Ha & Hb & Hab).
      exists a, b. split; [exact Ha|]. split; [exact Hb|]. split; lra.
    + assert (V : forall i,
                In i (brute_force_neighbors (map fst cloud_xyz) z_radius_m
                        (fst (nth j xy_all (0, 0))) (snd (nth j xy_all (0, 0)))) ->
                (i < length (map snd cloud_xyz))%nat).
      { intros i Hi. apply in_brute_force in Hi. rewrite length_map in *. apply Hi. }
      exists a, b. split; [apply (in_take_valid _ _ _ V Ha)|].
      split; [apply (in_take_valid _ _ _ V Hb)|]. split; lra.
Qed.

Lemma run_z_points_witness :
  map fst line_points = line_xy /\
  exists bbox cloud_xyz,
    compute_bbox line_xy = Ok bbox /\
    CloudLas.read_las_points_in_bbox (fun _ _ _ => []) 0 CloudLasSpec.small_cloud
      bbox None = Ok cloud_xyz /\
    forall p, In p line_points ->
      exists a b, In a (map snd cloud_xyz) /\ In b (map snd cloud_xyz) /\
                  a + offset_val (Str.lower "Surface") (5 # 1) <= snd p /\
                  snd p <= b + offset_val (Str.lower "Surface") (5 # 1).
Proof.
  apply (run_z_points (fun _ _ _ => []) int32_min_on_overflow
           stable_argpartition 0 line_xy
           "Cloud.LAS" CloudLasSpec.small_cloud "Surface" (5 # 1) (6 # 1) 2
           (1 # 2) None line_points).
  - vm_compute. reflexivity.
  - exact stable_argpartition_partitions.
Defined.

End RunZFacts.
